(** * ChatGPT exporter: conversation-to-document pipeline

    A shallow embedding of the exporter's image pipeline
    ([image-utils], [image-strategies], [image-handler]) and of the
    Markdown and HTML renderers ([markdown.ts], [html.ts]), followed by
    the properties of the specification that are settled on it.

    JavaScript strings are sequences of UTF-16 code units; they are
    modelled as [list N].  Regular expressions are kept as syntax trees
    and run by a small backtracking matcher that follows the priorities
    of the ECMAScript matcher (leftmost match, alternatives left to
    right, greedy and lazy quantifiers). *)

From Stdlib Require Import NArith Ascii String DecimalNat.
From Stdlib Require DecimalN.
From stdpp Require Import base option list gmap.

Set Default Proof Using "Type".

(* ===================================================================== *)
(** ** JavaScript strings *)
(* ===================================================================== *)

Module JS.

Abbreviation jsstring := (list N).

(** An ASCII literal as a sequence of code units. *)
Fixpoint js (s : string) : jsstring :=
  match s with
  | EmptyString => []
  | String a s' => N_of_ascii a :: js s'
  end.

(** Code units that the sources write as non-ASCII literals. *)
Definition SENTINEL : N := 9580%N.      (* U+256C, the box character of the math sentinel *)
Definition LENTICULAR_L : N := 12304%N. (* U+3010 *)
Definition LENTICULAR_R : N := 12305%N. (* U+3011 *)
Definition DAGGER : N := 8224%N.        (* U+2020 *)

Definition LF : N := 10%N.

(** [Boolean(s)] for a string: only the empty string is falsy. *)
Definition truthy (s : jsstring) : bool :=
  match s with [] => false | _ => true end.

(** [Boolean(o)] for an optional string ([undefined] is falsy). *)
Definition truthy_opt (o : option jsstring) : bool :=
  match o with Some s => truthy s | None => false end.

(** [a || b] on strings. *)
Definition or_else (a b : jsstring) : jsstring := if truthy a then a else b.

Definition jseqb (a b : jsstring) : bool := bool_decide (a = b).

(** [Number.prototype.toString] on a natural number (decimal digits). *)
Fixpoint uint_digits (u : Decimal.uint) : jsstring :=
  match u with
  | Decimal.Nil => []
  | Decimal.D0 u => 48%N :: uint_digits u
  | Decimal.D1 u => 49%N :: uint_digits u
  | Decimal.D2 u => 50%N :: uint_digits u
  | Decimal.D3 u => 51%N :: uint_digits u
  | Decimal.D4 u => 52%N :: uint_digits u
  | Decimal.D5 u => 53%N :: uint_digits u
  | Decimal.D6 u => 54%N :: uint_digits u
  | Decimal.D7 u => 55%N :: uint_digits u
  | Decimal.D8 u => 56%N :: uint_digits u
  | Decimal.D9 u => 57%N :: uint_digits u
  end.

Definition toString (n : nat) : jsstring := uint_digits (Nat.to_uint n).

Definition is_digit (c : N) : bool := (48 <=? c)%N && (c <=? 57)%N.

(** Unary [+] on a string of decimal digits, where the result is used
    as an index into a short array. *)
Definition toNumber (s : jsstring) : nat :=
  fold_left (fun acc c => 10 * acc + N.to_nat (c - 48)%N) s 0.

(** *** Numbers

    A Number is a double.  The only Numbers the renderers compute with
    beyond small counters are the index of a citation marker, read from
    its digits, and the [cited_message_idx] of a citation, read from a
    numeral of the data: non-negative integers or Infinity.  Such a
    Number is kept as the integer it is, in [N]; [2^1024], which no
    double reaches, stands for Infinity. *)

Definition INFINITY : N := (2 ^ 1024)%N.

(** The Number nearest to the integer [n], ties to the even
    significand: integers below [2^53] are Numbers; above, 53 leading
    bits are kept and the rest is rounded. *)
Definition toDouble (n : N) : N :=
  if (n <? 2 ^ 53)%N then n
  else
    let e := (N.log2 n - 52)%N in
    let q := N.shiftr n e in
    let r := N.land n (N.ones e) in
    let half := N.shiftl 1 (e - 1) in
    let q' := if (half <? r)%N || ((r =? half)%N && N.odd q) then (q + 1)%N else q in
    let v := N.shiftl q' e in
    if (INFINITY <=? v)%N then INFINITY else v.

(** The integer that a string of decimal digits writes. *)
Definition integerOf (s : jsstring) : N :=
  fold_left (fun acc c => (10 * acc + (c - 48))%N) s 0%N.

(** Unary [+] on a string of decimal digits, as the Number it gives. *)
Definition numberOf (s : jsstring) : N := toDouble (integerOf s).

(** The decimal digits of an integer. *)
Definition decimal (n : N) : jsstring := uint_digits (N.to_uint n).

Definition nearer (d v1 v2 : N) (even1 : bool) : N :=
  if (d - v1 <? v2 - d)%N then v1
  else if (v2 - d <? d - v1)%N then v2
  else if even1 then v1 else v2.

(** The integer with the fewest significant digits that reads back as
    the Number [d] (the nearest to [d] if there are two, the even one
    on a tie): all digits from position [j] down are tried as zeros,
    for [j] from the length of [d] downwards. *)
Fixpoint shortest (d : N) (j : nat) : N :=
  let p := (10 ^ N.of_nat j)%N in
  let v1 := (d / p * p)%N in
  let v2 := (v1 + p)%N in
  match (toDouble v1 =? d)%N, (toDouble v2 =? d)%N with
  | true, true => nearer d v1 v2 (N.even (d / p))
  | true, false => v1
  | false, true => v2
  | false, false => match j with 0 => d | S j' => shortest d j' end
  end.

Fixpoint dropZeros (rev_digits : jsstring) : jsstring :=
  match rev_digits with
  | 48%N :: s => dropZeros s
  | _ => rev_digits
  end.

(** The form [d.ddde+n] of an integer of more than 21 digits. *)
Definition exponential (digits : jsstring) : jsstring :=
  match rev (dropZeros (rev digits)) with
  | [] => digits
  | [c] => c :: js "e+" ++ decimal (N.of_nat (length digits - 1))
  | c :: cs => c :: js "." ++ cs ++ js "e+" ++ decimal (N.of_nat (length digits - 1))
  end.

(** [String(d)] for a Number [d] as above, as a template literal prints
    it: the digits of an integer below [2^53]; beyond, the shortest
    digits that read back as [d], padded with zeros up to 21 digits and
    in exponent form from there on. *)
Definition numberToString (d : N) : jsstring :=
  if (d <? 2 ^ 53)%N then decimal d
  else if (INFINITY <=? d)%N then js "Infinity"
  else
    let digits := decimal (shortest d (length (decimal d))) in
    if bool_decide (length digits ≤ 21) then digits else exponential digits.

(** [s.split(sep)] for a one-unit separator: never empty. *)
Fixpoint split (sep : N) (s : jsstring) : list jsstring :=
  match s with
  | [] => [[]]
  | c :: s' =>
      if N.eqb c sep then [] :: split sep s'
      else match split sep s' with
           | [] => [[c]]
           | w :: ws => (c :: w) :: ws
           end
  end.

(** [parts.join(sep)]. *)
Fixpoint join (sep : jsstring) (parts : list jsstring) : jsstring :=
  match parts with
  | [] => []
  | [p] => p
  | p :: ps => p ++ sep ++ join sep ps
  end.

Fixpoint startsWith (p s : jsstring) : bool :=
  match p, s with
  | [], _ => true
  | a :: p', b :: s' => N.eqb a b && startsWith p' s'
  | _ :: _, [] => false
  end.

(** [s.slice(0, -k)]. *)
Definition slice_to_minus (k : nat) (s : jsstring) : jsstring :=
  take (length s - k) s.

(** [s.substring(0, k)]. *)
Definition substring0 (k : nat) (s : jsstring) : jsstring := take k s.

(** [s.padStart(n, '0')]. *)
Definition padStart0 (n : nat) (s : jsstring) : jsstring :=
  replicate (n - length s) 48%N ++ s.

End JS.

Import JS.

(* ===================================================================== *)
(** ** Regular expressions *)
(* ===================================================================== *)

Module Regex.

(** The fragment of ECMAScript patterns used by the exporter.
    Quantifiers only ever apply to a single character class there
    ([.+], [.+?], [\d+], [\s+], [[\S\s]+], [[^;]+]). [Bol] and [Eol] are
    [^] and [$] under the [m] flag. *)
Inductive regex :=
| Eps
| Chr (p : N → bool)
| Bol
| Eol
| Cat (r1 r2 : regex)
| Alt (r1 r2 : regex)
| Plus (greedy : bool) (p : N → bool)
| Grp (n : nat) (r : regex).

Definition lineTerminator (c : N) : bool :=
  N.eqb c 10 || N.eqb c 13 || N.eqb c 8232 || N.eqb c 8233.

(** [.] *)
Definition dot (c : N) : bool := negb (lineTerminator c).

(** [\s] *)
Definition space (c : N) : bool :=
  ((9 <=? c)%N && (c <=? 13)%N) || N.eqb c 32 || N.eqb c 160 || N.eqb c 5760
  || ((8192 <=? c)%N && (c <=? 8202)%N) || N.eqb c 8232 || N.eqb c 8233
  || N.eqb c 8239 || N.eqb c 8287 || N.eqb c 12288 || N.eqb c 65279.

(** [[\S\s]] *)
Definition anychar (_ : N) : bool := true.

(** [\d] *)
Definition digit : N → bool := is_digit.

Definition chr (c : N) : regex := Chr (N.eqb c).

(** A literal string. *)
Fixpoint lit (s : jsstring) : regex :=
  match s with
  | [] => Eps
  | [c] => chr c
  | c :: s' => Cat (chr c) (lit s')
  end.

Definition captures := list (nat * jsstring).

(** The most recent capture of group [n] ([undefined] when absent). *)
Fixpoint capture (n : nat) (caps : captures) : option jsstring :=
  match caps with
  | [] => None
  | (i, m) :: caps' => if Nat.eqb i n then Some m else capture n caps'
  end.

Definition at_bol (prev : option N) : bool :=
  match prev with None => true | Some c => lineTerminator c end.

Definition at_eol (s : jsstring) : bool :=
  match s with [] => true | c :: _ => lineTerminator c end.

Section Matcher.
Context {R : Type}.

(** Continuations get the last consumed unit, the rest of the input
    and the captures so far. *)
Definition kont := option N → jsstring → captures → option R.

(** After one repetition has been consumed: take further ones.
    Greedy tries the longer match first, lazy the shorter. *)
Fixpoint more (greedy : bool) (p : N → bool) (k : kont) (caps : captures)
    (prev : option N) (s : jsstring) : option R :=
  match s with
  | [] => k prev s caps
  | c :: s' =>
      if p c then
        if greedy then
          match more greedy p k caps (Some c) s' with
          | Some r => Some r
          | None => k prev s caps
          end
        else
          match k prev s caps with
          | Some r => Some r
          | None => more greedy p k caps (Some c) s'
          end
      else k prev s caps
  end.

Fixpoint run (r : regex) (prev : option N) (s : jsstring) (caps : captures)
    (k : kont) : option R :=
  match r with
  | Eps => k prev s caps
  | Chr p =>
      match s with
      | c :: s' => if p c then k (Some c) s' caps else None
      | [] => None
      end
  | Bol => if at_bol prev then k prev s caps else None
  | Eol => if at_eol s then k prev s caps else None
  | Cat r1 r2 =>
      run r1 prev s caps (fun prev' s' caps' => run r2 prev' s' caps' k)
  | Alt r1 r2 =>
      match run r1 prev s caps k with
      | Some x => Some x
      | None => run r2 prev s caps k
      end
  | Plus g p =>
      match s with
      | c :: s' => if p c then more g p k caps (Some c) s' else None
      | [] => None
      end
  | Grp n r1 =>
      run r1 prev s caps (fun prev' s' caps' =>
        k prev' s' ((n, take (length s - length s') s) :: caps'))
  end.
End Matcher.

(** One match attempt anchored at the current position: the length of
    the match and its captures. *)
Definition exec_here (r : regex) (prev : option N) (s : jsstring)
    : option (nat * captures) :=
  run r prev s [] (fun _ s' caps => Some (length s - length s', caps)).

(** The input cut by a global ([g]) scan: units kept as they are and
    matches, in order. *)
Inductive piece :=
| Keep (c : N)
| Hit (m : jsstring) (caps : captures).

(** [skip] counts the units of the current match still to pass over.
    After an empty match the scan advances by one unit, as [lastIndex]
    does. *)
Fixpoint scan (r : regex) (prev : option N) (s : jsstring) (skip : nat)
    : list piece :=
  match s with
  | [] =>
      match skip with
      | 0 => match exec_here r prev [] with
             | Some (_, caps) => [Hit [] caps]
             | None => []
             end
      | S _ => []
      end
  | c :: s' =>
      match skip with
      | S k => scan r (Some c) s' k
      | 0 =>
          match exec_here r prev s with
          | Some (0, caps) => Hit [] caps :: Keep c :: scan r (Some c) s' 0
          | Some (S n, caps) => Hit (take (S n) s) caps :: scan r (Some c) s' n
          | None => Keep c :: scan r (Some c) s' 0
          end
      end
  end.

Definition pieces (r : regex) (s : jsstring) : list piece := scan r None s 0.

(** [s.match(r)] for a global pattern; JavaScript returns [null] where
    this list is empty. *)
Definition matchAll (r : regex) (s : jsstring) : list jsstring :=
  omap (fun p => match p with Hit m _ => Some m | Keep _ => None end) (pieces r s).

(** [r.test(s)]. *)
Definition test (r : regex) (s : jsstring) : bool :=
  match matchAll r s with [] => false | _ => true end.

(** [s.replace(r, fn)] for a global pattern. The callback gets the
    number of earlier matches too, which models closures that count
    their calls. *)
Fixpoint render (fn : nat → jsstring → captures → jsstring) (idx : nat)
    (ps : list piece) : jsstring :=
  match ps with
  | [] => []
  | Keep c :: ps' => c :: render fn idx ps'
  | Hit m caps :: ps' => fn idx m caps ++ render fn (S idx) ps'
  end.

Definition replace (r : regex) (fn : nat → jsstring → captures → jsstring)
    (s : jsstring) : jsstring :=
  render fn 0 (pieces r s).

(** [s.match(r)] for a pattern without the [g] flag: the first match
    and its captures. *)
Definition matchFirst (r : regex) (s : jsstring) : option (jsstring * captures) :=
  head (omap (fun p => match p with Hit m caps => Some (m, caps) | Keep _ => None end)
             (pieces r s)).

End Regex.

Import Regex.

(* ===================================================================== *)
(** ** Replacing a string by a string *)
(* ===================================================================== *)

Module StringReplace.

(** The first occurrence of [pat] in [s]: what is before it and what
    is after it. *)
Fixpoint splitAt (pat s : jsstring) : option (jsstring * jsstring) :=
  if startsWith pat s then Some ([], drop (length pat) s)
  else match s with
       | [] => None
       | c :: s' =>
           match splitAt pat s' with
           | Some (pre, post) => Some (c :: pre, post)
           | None => None
           end
       end.

(** [GetSubstitution] for a pattern that is a string: there are no
    captures, so of the dollar forms only the doubled dollar, the
    match, what is before it and what is after it expand; a dollar
    before anything else stands for itself. *)
Fixpoint getSubstitution (matched pre post template : jsstring) : jsstring :=
  match template with
  | [] => []
  | c :: t =>
      if N.eqb c 36 then
        match t with
        | d :: t' =>
            if N.eqb d 36 then 36%N :: getSubstitution matched pre post t'
            else if N.eqb d 38 then matched ++ getSubstitution matched pre post t'
            else if N.eqb d 96 then pre ++ getSubstitution matched pre post t'
            else if N.eqb d 39 then post ++ getSubstitution matched pre post t'
            else 36%N :: getSubstitution matched pre post t
        | [] => [36%N]
        end
      else c :: getSubstitution matched pre post t
  end.

(** [s.replace(pat, replacement)] for two strings: the first
    occurrence only. *)
Definition replaceString (pat replacement s : jsstring) : jsstring :=
  match splitAt pat s with
  | Some (pre, post) => pre ++ getSubstitution pat pre post replacement ++ post
  | None => s
  end.

End StringReplace.

(* ===================================================================== *)
(** ** Exceptions and the browser environment *)
(* ===================================================================== *)

Inductive exn :=
| TypeError
| InvalidCharacterError
| SecurityError
| LoadError.

(** The result of running code that may throw (or of awaiting a promise
    that may reject). *)
Inductive Outcome (A : Type) :=
| Ok (a : A)
| Throw (e : exn).
Arguments Ok {A} a.
Arguments Throw {A} e.

#[global] Instance Outcome_ret : MRet Outcome := fun A a => Ok a.
#[global] Instance Outcome_bind : MBind Outcome := fun A B f o =>
  match o with Ok a => f a | Throw e => Throw e end.

(** [try { body } catch (error) { handler }] *)
Definition try_catch {A} (body : Outcome A) (handler : exn → Outcome A) : Outcome A :=
  match body with Ok a => Ok a | Throw e => handler e end.

(** What [canvas.getContext('2d')] and [canvas.toDataURL] do for a
    loaded image. *)
Inductive Canvas :=
| NoContext
| Tainted
| DataURL (url : jsstring).

(** The parts of the browser the image pipeline calls into. Images are
    handles; a [loadImage] that fires [onerror] is [None]. *)
Record Env := {
  env_loadImage : jsstring → option nat;
  env_canvas : nat → Canvas;
  env_btoa : jsstring → option jsstring;
  env_atob : jsstring → option jsstring;
  env_toLowerCase : jsstring → jsstring;
  env_Date_now : nat;
  env_toISOString : jsstring;
  env_random : jsstring;
  env_customMarker : option jsstring;
}.

(* ===================================================================== *)
(** ** image-types.ts *)
(* ===================================================================== *)

Inductive ImageHandlingStrategy := embed_base64 | text_marker | separate_files.

#[global] Instance ImageHandlingStrategy_eq_dec : EqDecision ImageHandlingStrategy.
Proof. solve_decision. Defined.

Inductive ImageContentType :=
| ict_image_asset_pointer
| ict_image_url
| ict_multimodal_text.

Record Author := {
  role : jsstring;
  name : option jsstring;
}.

Record ImageContext := {
  conversationId : jsstring;
  messageId : jsstring;
  imageIndex : nat;
  mimeType : jsstring;
  originalUrl : jsstring;
  contentType : ImageContentType;
  author : option Author;
  timestamp : option nat;
}.

Record MessageContext := {
  mc_messageId : option jsstring;
  mc_author : jsstring;
  mc_role : jsstring;
}.

Record ImageMetadata := {
  meta_originalUrl : jsstring;
  meta_mimeType : jsstring;
  meta_fileSize : option nat;
  meta_timestamp : option nat;
  meta_messageContext : option MessageContext;
}.

Record ProcessedImage := {
  id : jsstring;
  content : jsstring;
  originalData : option jsstring;
  metadata : option ImageMetadata;
  fileName : option jsstring;
}.

Record Blob := {
  blob_bytes : jsstring;
  blob_type : jsstring;
}.

Record ExportFile := {
  path : jsstring;
  data : Blob;
  file_mimeType : jsstring;
}.

Record ExportImage := {
  ei_id : jsstring;
  ei_originalUrl : jsstring;
  ei_fileName : jsstring;
  ei_mimeType : jsstring;
  ei_size : nat;
  ei_messageContext : MessageContext;
}.

Record ExportSettings := {
  imageQuality : nat;
  maxImageSize : nat;
  includeImageMetadata : bool;
  customMarkerText : option jsstring;
}.

Record ExportMetadata := {
  version : jsstring;
  exportDate : jsstring;
  conversationTitle : jsstring;
  imageHandlingStrategy : ImageHandlingStrategy;
  totalImages : nat;
  images : list ExportImage;
  settings : ExportSettings;
}.

(** [LegacyImageData], the fields the handler reads. *)
Record LegacyImageData := {
  legacy_image_url : option jsstring;
  legacy_asset_pointer : option jsstring;
  legacy_content_type : option jsstring;
}.

(* ===================================================================== *)
(** ** image-utils.ts *)
(* ===================================================================== *)

Module ImageUtils.

Definition getBase64FromImg (env : Env) (el : nat) : Outcome jsstring :=
  match env_canvas env el with
  | NoContext => Ok []
  | Tainted => Throw SecurityError
  | DataURL url => Ok url
  end.

Definition getBase64FromImageUrl (env : Env) (url : jsstring) : Outcome jsstring :=
  match env_loadImage env url with
  | None => Throw LoadError
  | Some img => getBase64FromImg env img
  end.

(** [/data:([^;]+);/] *)
Definition dataUrlRegex : regex :=
  Cat (lit (js "data:")) (Cat (Grp 1 (Plus true (fun c => negb (N.eqb c 59)))) (chr 59)).

Definition getMimeType (env : Env) (dataUrlOrUrl : jsstring) : jsstring :=
  if startsWith (js "data:") dataUrlOrUrl then
    match matchFirst dataUrlRegex dataUrlOrUrl with
    | Some (_, caps) => default (js "undefined") (capture 1 caps)
    | None => js "image/png"
    end
  else
    let extension := env_toLowerCase env (default [] (last (split 46 dataUrlOrUrl))) in
    if jseqb extension (js "jpg") || jseqb extension (js "jpeg") then js "image/jpeg"
    else if jseqb extension (js "png") then js "image/png"
    else if jseqb extension (js "gif") then js "image/gif"
    else if jseqb extension (js "webp") then js "image/webp"
    else if jseqb extension (js "svg") then js "image/svg+xml"
    else js "image/png".

Definition alnum (c : N) : bool :=
  ((97 <=? c)%N && (c <=? 122)%N) || ((65 <=? c)%N && (c <=? 90)%N) || is_digit c.

Definition generateImageId (env : Env) (context : ImageContext) : Outcome jsstring :=
  let timestamp :=
    match timestamp context with
    | Some (S t) => S t
    | _ => env_Date_now env
    end in
  match env_btoa env (conversationId context ++ js "-" ++ messageId context ++ js "-"
                      ++ toString (imageIndex context) ++ js "-" ++ toString timestamp) with
  | None => Throw InvalidCharacterError
  | Some hash =>
      Ok (substring0 16 (replace (Chr (fun c => negb (alnum c))) (fun _ _ _ => []) hash))
  end.

Definition generateImageFileName (env : Env) (context : ImageContext)
    (extension : jsstring) : jsstring :=
  let prefix :=
    match author context with
    | None => js "image"
    | Some author =>
        if jseqb (role author) (js "assistant") then js "chatgpt-response"
        else if jseqb (role author) (js "user") then js "user-upload"
        else if jseqb (role author) (js "tool") then
          match name author with
          | Some n => if truthy n then js "tool-" ++ env_toLowerCase env n else js "tool-result"
          | None => js "tool-result"
          end
        else role author
    end in
  let paddedIndex := padStart0 3 (toString (imageIndex context)) in
  prefix ++ js "-" ++ paddedIndex ++ js "." ++ extension.

Definition base64ToBlob (env : Env) (base64 mimeType : jsstring) : Outcome Blob :=
  match env_atob env (default (js "undefined") (split 44 base64 !! 1)) with
  | None => Throw InvalidCharacterError
  | Some byteCharacters => Ok {| blob_bytes := byteCharacters; blob_type := mimeType |}
  end.

Definition getFileSizeFromBase64 (base64 : jsstring) : Outcome nat :=
  match split 44 base64 !! 1 with
  | None => Throw TypeError
  | Some base64Data => Ok ((length base64Data * 3 + 3) / 4)
  end.

(** The class of [sanitizeFileName]: less-than, greater-than, colon,
    double quote, slash, backslash, bar, question mark, star. *)
Definition unsafeChar (c : N) : bool :=
  N.eqb c 60 || N.eqb c 62 || N.eqb c 58 || N.eqb c 34 || N.eqb c 47
  || N.eqb c 92 || N.eqb c 124 || N.eqb c 63 || N.eqb c 42.

Definition sanitizeFileName (env : Env) (fileName : jsstring) : jsstring :=
  env_toLowerCase env
    (replace (Plus true space) (fun _ _ _ => js "-")
       (replace (Chr unsafeChar) (fun _ _ _ => js "_") fileName)).

Definition createImageRelativePath (fileName : jsstring) : jsstring :=
  js "images/" ++ fileName.

Definition getCurrentTimestamp (env : Env) : jsstring := env_toISOString env.

End ImageUtils.

(* ===================================================================== *)
(** ** image-strategies.ts *)
(* ===================================================================== *)

Module Strategies.
Import ImageUtils.

Definition FAILED : jsstring := js "[Image Processing Failed]".

(** [context.author ? { author: name || role, role } : undefined] *)
Definition messageContextOf (context : ImageContext) : option MessageContext :=
  match author context with
  | None => None
  | Some a =>
      Some {| mc_messageId := None;
              mc_author := (match name a with
                            | Some n => if truthy n then n else role a
                            | None => role a
                            end);
              mc_role := role a |}
  end.

(** The placeholder both fetching strategies return from their [catch]. *)
Definition failedImage (id imageUrl mimeType : jsstring) (context : ImageContext)
    : ProcessedImage :=
  {| id := id;
     content := FAILED;
     originalData := None;
     metadata := Some {| meta_originalUrl := imageUrl;
                         meta_mimeType := mimeType;
                         meta_fileSize := None;
                         meta_timestamp := timestamp context;
                         meta_messageContext := None |};
     fileName := None |}.

Definition EmbedBase64_processImage (env : Env) (imageUrl : jsstring)
    (context : ImageContext) : Outcome ProcessedImage :=
  id ← generateImageId env context;
  let mimeType := getMimeType env imageUrl in
  try_catch
    (base64Data ← getBase64FromImageUrl env imageUrl;
     let dataUri := js "data:" ++ mimeType ++ js ";base64,"
                    ++ default (js "undefined") (split 44 base64Data !! 1) in
     fileSize ← getFileSizeFromBase64 base64Data;
     Ok {| id := id;
           content := dataUri;
           originalData := Some base64Data;
           metadata := Some {| meta_originalUrl := imageUrl;
                               meta_mimeType := mimeType;
                               meta_fileSize := Some fileSize;
                               meta_timestamp := timestamp context;
                               meta_messageContext := None |};
           fileName := None |})
    (fun _ => Ok (failedImage id imageUrl mimeType context)).

Definition getCustomMarkerText (env : Env) : jsstring :=
  match env_customMarker env with
  | Some m => if truthy m then m else js "[Image Omitted]"
  | None => js "[Image Omitted]"
  end.

Definition TextMarker_processImage (env : Env) (imageUrl : jsstring)
    (context : ImageContext) : Outcome ProcessedImage :=
  id ← generateImageId env context;
  let mimeType := getMimeType env imageUrl in
  let customMarker := getCustomMarkerText env in
  Ok {| id := id;
        content := customMarker;
        originalData := None;
        metadata := Some {| meta_originalUrl := imageUrl;
                            meta_mimeType := mimeType;
                            meta_fileSize := None;
                            meta_timestamp := timestamp context;
                            meta_messageContext := messageContextOf context |};
        fileName := None |}.

Definition SeparateFiles_processImage (env : Env) (imageUrl : jsstring)
    (context : ImageContext) : Outcome ProcessedImage :=
  id ← generateImageId env context;
  let mimeType := getMimeType env imageUrl in
  try_catch
    (base64Data ← getBase64FromImageUrl env imageUrl;
     let extension := or_else (default [] (split 47 mimeType !! 1)) (js "png") in
     let fileName := sanitizeFileName env (generateImageFileName env context extension) in
     let relativePath := createImageRelativePath fileName in
     fileSize ← getFileSizeFromBase64 base64Data;
     Ok {| id := id;
           content := relativePath;
           originalData := Some base64Data;
           metadata := Some {| meta_originalUrl := imageUrl;
                               meta_mimeType := mimeType;
                               meta_fileSize := Some fileSize;
                               meta_timestamp := timestamp context;
                               meta_messageContext := messageContextOf context |};
           fileName := Some fileName |})
    (fun _ => Ok (failedImage id imageUrl mimeType context)).

(** [createImageProcessor(strategy).processImage] *)
Definition processImage (env : Env) (strategy : ImageHandlingStrategy)
    : jsstring → ImageContext → Outcome ProcessedImage :=
  match strategy with
  | embed_base64 => EmbedBase64_processImage env
  | text_marker => TextMarker_processImage env
  | separate_files => SeparateFiles_processImage env
  end.

End Strategies.

(* ===================================================================== *)
(** ** image-handler.ts *)
(* ===================================================================== *)

Module Handler.
Import ImageUtils Strategies.

(** [Promise.all]: the promises settle in the order [sched] (a list of
    their indices); a fulfilment writes slot [i] of [values] and counts
    [remaining] down, the first rejection rejects the whole. [None]
    stands for a promise that is still pending when the schedule ends. *)
Section PromiseAll.
Context {A : Type}.

Fixpoint settle (tasks : list (Outcome A)) (sched : list nat)
    (values : list (option A)) (remaining : nat) : option (Outcome (list A)) :=
  match sched with
  | [] => None
  | i :: sched' =>
      match tasks !! i with
      | None => settle tasks sched' values remaining
      | Some (Throw e) => Some (Throw e)
      | Some (Ok v) =>
          match values !! i with
          | Some (Some _) => settle tasks sched' values remaining
          | _ =>
              let values' := <[i := Some v]> values in
              match remaining with
              | 1 => Ok <$> mapM (fun x : option A => x) values'
              | _ => settle tasks sched' values' (remaining - 1)
              end
          end
      end
  end.

Definition Promise_all (tasks : list (Outcome A)) (sched : list nat)
    : option (Outcome (list A)) :=
  match tasks with
  | [] => Some (Ok [])
  | _ => settle tasks sched (replicate (length tasks) None) (length tasks)
  end.
End PromiseAll.

Inductive Format := markdown | html | json.

Record ImagesResult := {
  res_content : jsstring;
  res_files : option (list ExportFile);
  res_metadata : option ExportMetadata;
  processedImages : list ProcessedImage;
}.

(** The callback of [images.map] in [processConversationImages]. *)
Definition processOne (env : Env) (strategy : ImageHandlingStrategy)
    (image : jsstring * ImageContext) : Outcome ProcessedImage :=
  let '(url, context) := image in
  try_catch (processImage env strategy url context)
    (fun _ =>
       Ok {| id := js "error-" ++ toString (env_Date_now env) ++ js "-" ++ env_random env;
             content := js "[Image Processing Failed]";
             originalData := None;
             metadata := Some {| meta_originalUrl := url;
                                 meta_mimeType := js "image/png";
                                 meta_fileSize := None;
                                 meta_timestamp := timestamp context;
                                 meta_messageContext := None |};
             fileName := None |}).

(** The [forEach] of [generateContentFromImages]. *)
Fixpoint collectFiles (env : Env) (processedImages : list ProcessedImage)
    : Outcome (list ExportFile) :=
  match processedImages with
  | [] => Ok []
  | image :: rest =>
      match originalData image, fileName image, metadata image with
      | Some od, Some fn, Some md =>
          if truthy od && truthy fn then
            blob ← base64ToBlob env od (meta_mimeType md);
            files ← collectFiles env rest;
            Ok ({| path := content image; data := blob;
                   file_mimeType := meta_mimeType md |} :: files)
          else collectFiles env rest
      | _, _, _ => collectFiles env rest
      end
  end.

Definition generateContentFromImages (env : Env) (currentStrategy : ImageHandlingStrategy)
    (processedImages : list ProcessedImage) (_format : Format)
    : Outcome (jsstring * option (list ExportFile)) :=
  let content := js "[CONTENT_PLACEHOLDER]" in
  files ← (if decide (currentStrategy = separate_files)
           then collectFiles env processedImages else Ok []);
  Ok (content, match files with [] => None | _ => Some files end).

Definition generateExportMetadata (env : Env) (currentStrategy : ImageHandlingStrategy)
    (processedImages : list ProcessedImage) : ExportMetadata :=
  let imageMetadata :=
    omap (fun img =>
            match metadata img, fileName img with
            | Some md, Some fn =>
                if truthy fn then
                  Some {| ei_id := id img;
                          ei_originalUrl := meta_originalUrl md;
                          ei_fileName := fn;
                          ei_mimeType := meta_mimeType md;
                          ei_size := default 0 (meta_fileSize md);
                          ei_messageContext :=
                            default {| mc_messageId := Some [];
                                       mc_author := js "unknown";
                                       mc_role := js "unknown" |}
                                    (meta_messageContext md) |}
                else None
            | _, _ => None
            end) processedImages in
  {| version := js "1.0.0";
     exportDate := getCurrentTimestamp env;
     conversationTitle := js "[CONVERSATION_TITLE]";
     imageHandlingStrategy := currentStrategy;
     totalImages := length processedImages;
     images := imageMetadata;
     settings := {| imageQuality := 85; maxImageSize := 2048;
                    includeImageMetadata := true; customMarkerText := None |} |}.

(** [processConversationImages]: [None] while the returned promise is
    pending, [Some (Throw _)] when it rejects. *)
Definition processConversationImages (env : Env) (currentStrategy : ImageHandlingStrategy)
    (images : list (jsstring * ImageContext)) (format : Format) (sched : list nat)
    : option (Outcome ImagesResult) :=
  settled ← Promise_all (processOne env currentStrategy <$> images) sched;
  Some (processedImages ← settled;
        result ← generateContentFromImages env currentStrategy processedImages format;
        let '(content, files) := result in
        let metadata :=
          if decide (currentStrategy = separate_files) then
            match files with
            | Some (_ :: _) => Some (generateExportMetadata env currentStrategy processedImages)
            | _ => None
            end
          else None in
        Ok {| res_content := content; res_files := files;
              res_metadata := metadata; processedImages := processedImages |}).

Definition getMimeTypeFromImageData (env : Env) (imageData : LegacyImageData) : jsstring :=
  match legacy_image_url imageData with
  | Some url =>
      if truthy url then
        let extension := env_toLowerCase env (default [] (last (split 46 url))) in
        if jseqb extension (js "jpg") || jseqb extension (js "jpeg") then js "image/jpeg"
        else if jseqb extension (js "png") then js "image/png"
        else if jseqb extension (js "gif") then js "image/gif"
        else if jseqb extension (js "webp") then js "image/webp"
        else js "image/png"
      else js "image/png"
  | None => js "image/png"
  end.

(** [imageData.image_url || imageData.asset_pointer || ''] is the
    first of the two that is a non-empty string. *)
Definition createImageContext (env : Env) (imageData : LegacyImageData)
    (conversationId messageId : jsstring) (imageIndex : nat)
    (author : option Author) (timestamp : option nat) : ImageContext :=
  let url :=
    if truthy_opt (legacy_image_url imageData) then default [] (legacy_image_url imageData)
    else if truthy_opt (legacy_asset_pointer imageData)
         then default [] (legacy_asset_pointer imageData)
         else [] in
  {| conversationId := conversationId;
     messageId := messageId;
     imageIndex := imageIndex;
     mimeType := getMimeTypeFromImageData env imageData;
     originalUrl := url;
     contentType := if bool_decide (legacy_content_type imageData = Some (js "multimodal_text"))
                    then ict_multimodal_text else ict_image_url;
     author := author;
     timestamp := timestamp |}.

(** [`[IMAGE_${index}]`] *)
Definition placeholderOf (index : nat) : jsstring :=
  js "[IMAGE_" ++ toString index ++ js "]".

(** The [switch] of [replaceImagePlaceholders]; [stringify] is
    [JSON.stringify] of the object built from the image. Unit 34 is the
    double quote. *)
Definition replacementFor (stringify : ProcessedImage → jsstring)
    (currentStrategy : ImageHandlingStrategy) (format : Format)
    (image : ProcessedImage) : jsstring :=
  match format with
  | markdown =>
      match currentStrategy with
      | text_marker => content image
      | embed_base64 => js "![image](" ++ content image ++ js ")"
      | separate_files => js "![image](" ++ content image ++ js ")"
      end
  | html =>
      match currentStrategy with
      | text_marker =>
          js "<div class=" ++ [34%N] ++ js "image-placeholder" ++ [34%N] ++ js ">"
          ++ content image ++ js "</div>"
      | embed_base64 => js "<img src=" ++ [34%N] ++ content image ++ [34%N] ++ js " />"
      | separate_files => js "<img src=" ++ [34%N] ++ content image ++ [34%N] ++ js " />"
      end
  | json => stringify image
  end.

(** The [forEach] over the processed images, from [index] on. *)
Fixpoint replaceFrom (stringify : ProcessedImage → jsstring)
    (currentStrategy : ImageHandlingStrategy) (format : Format)
    (processedImages : list ProcessedImage) (index : nat) (result : jsstring)
    : jsstring :=
  match processedImages with
  | [] => result
  | image :: rest =>
      replaceFrom stringify currentStrategy format rest (S index)
        (StringReplace.replaceString (placeholderOf index)
           (replacementFor stringify currentStrategy format image) result)
  end.

Definition replaceImagePlaceholders (stringify : ProcessedImage → jsstring)
    (currentStrategy : ImageHandlingStrategy) (content : jsstring)
    (processedImages : list ProcessedImage) (format : Format) : jsstring :=
  replaceFrom stringify currentStrategy format processedImages 0 content.

End Handler.

(* ===================================================================== *)
(** ** The conversation, as the renderers read it *)
(* ===================================================================== *)

(** The declarations of [../api] are read off the field accesses of the
    renderers. An absent optional field is [None]. *)

Record AggregateMessage := {
  message_type : jsstring;
  image_url : option jsstring;
}.

(** [cited_message_idx] holds the integer that the numeral of the data
    writes; the Number it is read as is [toDouble] of it. An index
    that is no non-negative integer equals the index of no marker, so
    that its citation is never found and never printed: it behaves as
    an absent one, [None]. *)
Record CiteExtra := { cited_message_idx : option N }.

Record CiteMeta := {
  cm_title : option jsstring;
  cm_extra : option CiteExtra;
}.

Record Citation := { cite_metadata : option CiteMeta }.

Record CiteLink := {
  link_title : jsstring;
  link_url : jsstring;
}.

Record MessageMetadata := {
  (** [aggregate_result?.messages] *)
  aggregate_messages : option (list AggregateMessage);
  citations : option (list Citation);
  (** [_cite_metadata?.metadata_list] *)
  metadata_list : option (list CiteLink);
  model_slug : option jsstring;
}.

(** A part of [multimodal_text]: a string, or an object with its
    [content_type] and the fields the renderers look at. *)
Inductive Part :=
| PString (s : jsstring)
| PObject (content_type : jsstring) (asset_pointer : option jsstring)
          (text : option jsstring).

Inductive Content :=
| CText (parts : option (list jsstring))
| CCode (text : jsstring)
| CExecutionOutput (text : jsstring)
| CTetherQuote (title text : option jsstring)
| CTetherBrowsingCode
| CTetherBrowsingDisplay
| CMultimodalText (parts : option (list Part))
| COther (content_type : jsstring).

Record Message := {
  msg_id : option jsstring;
  msg_author : Author;
  msg_create_time : option nat;
  msg_recipient : jsstring;
  msg_content : option Content;
  msg_metadata : option MessageMetadata;
}.

Record Node := { message : option Message }.

Record ConversationResult := {
  conv_id : jsstring;
  conv_title : jsstring;
  conversationNodes : list Node;
}.

(** An entry of the user's meta list. *)
Record ExportMeta := {
  meta_name : jsstring;
  meta_value : jsstring;
}.

(** What the placeholders of a meta value stand for: fields of the
    conversation and the strings [dateStr()], [timestamp()],
    [`${baseUrl}/c/${id}`] and [unixTimestampToISOString(_)] of the two
    times. *)
Record MetaInfo := {
  mi_title : jsstring;
  mi_date : jsstring;
  mi_timestamp : jsstring;
  mi_source : jsstring;
  mi_model : jsstring;
  mi_modelSlug : jsstring;
  mi_create_time : jsstring;
  mi_update_time : jsstring;
}.

Definition aggregateMessagesOf (m : Message) : option (list AggregateMessage) :=
  msg_metadata m ≫= aggregate_messages.

Definition isImageMessage (msg : AggregateMessage) : bool :=
  jseqb (message_type msg) (js "image").

(** [p.content_type === 'image_asset_pointer'], which is false on a
    string part. *)
Definition isImagePart (p : Part) : bool :=
  match p with
  | PString _ => false
  | PObject ct _ _ => jseqb ct (js "image_asset_pointer")
  end.

(** [message.id || `node-${nodeIndex}`] *)
Definition messageIdOf (m : Message) (nodeIndex : nat) : jsstring :=
  match msg_id m with
  | Some i => if truthy i then i else js "node-" ++ toString nodeIndex
  | None => js "node-" ++ toString nodeIndex
  end.

(* ===================================================================== *)
(** ** markdown.ts *)
(* ===================================================================== *)

Module Markdown.

(** [exportAllToMarkdown]: the names under which the documents are put
    into the archive. [names] are the results of [getFileNameWithFormat]
    for the conversations, in order. *)
Fixpoint archiveNames (names : list jsstring) (filenameMap : gmap jsstring nat)
    : list jsstring :=
  match names with
  | [] => []
  | fileName :: rest =>
      match filenameMap !! fileName with
      | Some count =>
          (slice_to_minus 3 fileName ++ js " (" ++ toString count ++ js ").md")
          :: archiveNames rest (<[fileName := count + 1]> filenameMap)
      | None => fileName :: archiveNames rest (<[fileName := 1]> filenameMap)
      end
  end.

Definition exportAllToMarkdown_fileNames {C : Type}
    (getFileNameWithFormat : jsstring → jsstring → C → jsstring)
    (fileNameFormat : jsstring) (conversations : list C) : list jsstring :=
  archiveNames ((fun c => getFileNameWithFormat fileNameFormat (js "md") c) <$> conversations) ∅.

Definition backslash : N := 92%N.
Definition dollar : N := 36%N.

(** [LatexRegex] of markdown.ts (flags [gm]). *)
Definition LatexRegex : regex :=
  Alt (Grp 1
         (Alt (Cat (Chr space) (Cat (lit [dollar; dollar]) (Cat (Plus true dot)
                 (Cat (lit [dollar; dollar]) (Chr space)))))
         (Alt (Cat (Chr space) (Cat (chr dollar) (Cat (Plus true dot)
                 (Cat (chr dollar) (Chr space)))))
         (Alt (Cat (lit [backslash; 91%N]) (Cat (Plus true dot) (lit [backslash; 93%N])))
              (Cat (lit [backslash; 40%N]) (Cat (Plus true dot) (lit [backslash; 41%N])))))))
  (Alt (Grp 2 (Cat Bol (Cat (chr dollar) (Cat Eol (Cat (Plus true anychar)
                 (Cat Bol (Cat (chr dollar) Eol)))))))
       (Grp 3 (Cat Bol (Cat (lit [dollar; dollar]) (Cat (Plus true anychar)
                 (Cat Bol (Cat (lit [dollar; dollar]) Eol))))))).

(** The images of one message, numbered from [imageIndex] on. *)
Fixpoint extractAggregate (conversationId messageId : jsstring) (author : Author)
    (create_time : option nat) (msgs : list AggregateMessage) (imageIndex : nat)
    : list (jsstring * ImageContext) :=
  match msgs with
  | [] => []
  | msg :: rest =>
      match image_url msg with
      | Some url =>
          if isImageMessage msg && truthy url then
            (url, {| conversationId := conversationId;
                     messageId := messageId;
                     imageIndex := imageIndex;
                     mimeType := js "image/png";
                     originalUrl := url;
                     contentType := ict_image_url;
                     author := Some author;
                     timestamp := create_time |})
            :: extractAggregate conversationId messageId author create_time rest (S imageIndex)
          else extractAggregate conversationId messageId author create_time rest imageIndex
      | None => extractAggregate conversationId messageId author create_time rest imageIndex
      end
  end.

Fixpoint extractParts (conversationId messageId : jsstring) (author : Author)
    (create_time : option nat) (parts : list Part) (imageIndex : nat)
    : list (jsstring * ImageContext) :=
  match parts with
  | [] => []
  | part :: rest =>
      match part with
      | PObject _ (Some asset_pointer) _ =>
          if isImagePart part && truthy asset_pointer then
            (asset_pointer, {| conversationId := conversationId;
                               messageId := messageId;
                               imageIndex := imageIndex;
                               mimeType := js "image/png";
                               originalUrl := asset_pointer;
                               contentType := ict_multimodal_text;
                               author := Some author;
                               timestamp := create_time |})
            :: extractParts conversationId messageId author create_time rest (S imageIndex)
          else extractParts conversationId messageId author create_time rest imageIndex
      | _ => extractParts conversationId messageId author create_time rest imageIndex
      end
  end.

(** The body of the [forEach] over the nodes. *)
Definition extractNode (conversationId : jsstring) (nodeIndex : nat) (node : Node)
    : list (jsstring * ImageContext) :=
  match message node with
  | None => []
  | Some message =>
      match msg_content message with
      | None => []
      | Some content =>
          let mid := messageIdOf message nodeIndex in
          match content, aggregateMessagesOf message with
          | CExecutionOutput _, Some msgs =>
              extractAggregate conversationId mid (msg_author message)
                (msg_create_time message) msgs 0
          | CMultimodalText (Some parts), _ =>
              extractParts conversationId mid (msg_author message)
                (msg_create_time message) parts 0
          | _, _ => []
          end
      end
  end.

Definition extractImagesFromConversation (conversation : ConversationResult)
    : list (jsstring * ImageContext) :=
  mjoin (imap (extractNode (conv_id conversation)) (conversationNodes conversation)).

Definition transformAuthor (author : Author) : jsstring :=
  if jseqb (role author) (js "assistant") then js "ChatGPT"
  else if jseqb (role author) (js "user") then js "You"
  else if jseqb (role author) (js "tool") then
    js "Plugin" ++ (if truthy_opt (name author)
                    then js " (" ++ default [] (name author) ++ js ")" else [])
  else role author.

(** [/【(\d+)†\((.+?)\)】/g] *)
Definition footNoteMarkRegex : regex :=
  Cat (chr LENTICULAR_L) (Cat (Grp 1 (Plus true digit)) (Cat (chr DAGGER)
    (Cat (chr 40%N) (Cat (Grp 2 (Plus false dot)) (Cat (chr 41%N) (chr LENTICULAR_R)))))).

(** [cite.metadata?.extra?.cited_message_idx], a Number. *)
Definition citedIdx (cite : Citation) : option N :=
  match cite_metadata cite with
  | Some cm => match cm_extra cm with
               | Some extra => toDouble <$> cited_message_idx extra
               | None => None
               end
  | None => None
  end.

(** [citation.metadata?.title] *)
Definition citeTitleOf (cite : Citation) : option jsstring :=
  match cite_metadata cite with
  | Some cm => cm_title cm
  | None => None
  end.

(** [metadata?.citations?.find(cite => cite.metadata?.extra?.cited_message_idx === +citeIndex)] *)
Definition findCitation (metadata : option MessageMetadata) (citeIndex : jsstring)
    : option Citation :=
  match metadata with
  | Some md =>
      match citations md with
      | Some cites =>
          List.find (fun cite => bool_decide (citedIdx cite = Some (numberOf citeIndex))) cites
      | None => None
      end
  | None => None
  end.

Definition citeIndexOf (caps : captures) : jsstring := default [] (capture 1 caps).

(** The string [output] of [transformFootNotes]. *)
Definition footNotes_output (input : jsstring) (metadata : option MessageMetadata)
    : jsstring :=
  replace footNoteMarkRegex
    (fun _ m caps =>
       match findCitation metadata (citeIndexOf caps) with
       | Some _ => js "[^" ++ citeIndexOf caps ++ js "]"
       | None => m
       end) input.

(** The array [citationList] of [transformFootNotes]: what the callback
    pushed, in the order of the matches. *)
Definition footNotes_citationList (input : jsstring) (metadata : option MessageMetadata)
    : list Citation :=
  omap (fun p => match p with
                 | Hit _ caps => findCitation metadata (citeIndexOf caps)
                 | Keep _ => None
                 end)
       (pieces footNoteMarkRegex input).

Definition citationLine (citation : Citation) : jsstring :=
  let citeIndex := default 1%N (citedIdx citation) in
  let citeTitle := default (js "No title") (citeTitleOf citation) in
  js "[^" ++ numberToString citeIndex ++ js "]: " ++ citeTitle.

Definition transformFootNotes (input : jsstring) (metadata : option MessageMetadata)
    : jsstring :=
  let citationText := join [LF] (citationLine <$> footNotes_citationList input metadata) in
  footNotes_output input metadata ++ [LF; LF] ++ citationText.

Definition countImagesInMessage (message : Message) : nat :=
  match msg_content message with
  | None => 0
  | Some content =>
      match content, aggregateMessagesOf message with
      | CExecutionOutput _, Some msgs => length (filter (fun m => isImageMessage m) msgs)
      | CMultimodalText (Some parts), _ => length (filter (fun p => isImagePart p) parts)
      | _, _ => 0
      end
  end.

(** [processedImages[globalIndex]] turned into an image reference, or
    the positional placeholder. Both image-bearing branches of
    [transformContent] contain this code. *)
Definition imageRef (processedImages : list ProcessedImage) (globalIndex : nat)
    : jsstring :=
  match processedImages !! globalIndex with
  | Some processedImage =>
      if truthy (content processedImage)
      then js "![image](" ++ content processedImage ++ js ")"
      else js "[IMAGE_" ++ toString globalIndex ++ js "]"
  | None => js "[IMAGE_" ++ toString globalIndex ++ js "]"
  end.

Definition fence (label text : jsstring) : jsstring :=
  label ++ js ":" ++ [LF] ++ js "```" ++ [LF] ++ text ++ [LF] ++ js "```".

Definition transformPart (postProcess : jsstring → jsstring)
    (processedImages : list ProcessedImage) (imageStartIndex : nat)
    (parts : list Part) (partIndex : nat) (part : Part) : option jsstring :=
  match part with
  | PString s => Some (postProcess s)
  | PObject ct _ text =>
      if jseqb ct (js "image_asset_pointer") then
        let imageIndexInMessage := length (filter (fun p => isImagePart p) (take partIndex parts)) in
        let globalImageIndex := imageStartIndex + imageIndexInMessage in
        Some (imageRef processedImages globalImageIndex)
      else if jseqb ct (js "audio_transcription") then
        Some (js "[audio] " ++ default (js "undefined") text)
      else if jseqb ct (js "audio_asset_pointer") then None
      else if jseqb ct (js "real_time_user_audio_video_asset_pointer") then None
      else Some (postProcess (js "[Unsupported multimodal content]"))
  end.

Definition transformContent (content : Content) (metadata : option MessageMetadata)
    (postProcess : jsstring → jsstring) (processedImages : list ProcessedImage)
    (imageStartIndex : nat) : jsstring :=
  match content with
  | CText parts => postProcess (match parts with Some ps => join [LF] ps | None => [] end)
  | CCode text => fence (js "Code") text
  | CExecutionOutput text =>
      match metadata ≫= aggregate_messages with
      | Some msgs =>
          match filter (fun m => isImageMessage m) msgs with
          | [] => postProcess (fence (js "Result") text)
          | imageMessages =>
              let imageContent :=
                join [LF; LF]
                  (imap (fun index _ => imageRef processedImages (imageStartIndex + index))
                        imageMessages) in
              postProcess (fence (js "Result") text
                           ++ (if truthy imageContent then [LF; LF] ++ imageContent else []))
          end
      | None => postProcess (fence (js "Result") text)
      end
  | CTetherQuote title text =>
      postProcess (js "> " ++ (if truthy_opt title then default [] title
                               else if truthy_opt text then default [] text else []))
  | CTetherBrowsingCode => postProcess []
  | CTetherBrowsingDisplay =>
      match metadata ≫= metadata_list with
      | Some (l :: ls) =>
          postProcess (join [LF]
            ((fun x => js "> [" ++ link_title x ++ js "](" ++ link_url x ++ js ")")
               <$> (l :: ls)))
      | _ => postProcess []
      end
  | CMultimodalText parts =>
      let rendered :=
        match parts with
        | Some ps => imap (transformPart postProcess processedImages imageStartIndex ps) ps
        | None => []
        end in
      join [LF] (omap (fun x : option jsstring => x) rendered)
  | COther _ => postProcess (js "[Unsupported Content]")
  end.

(** [/^\\\[(.+)\\\]$/gm], a display formula on a line of its own. *)
Definition displayLineRegex : regex :=
  Cat Bol (Cat (lit [backslash; 91%N]) (Cat (Grp 1 (Plus true dot))
    (Cat (lit [backslash; 93%N]) Eol))).

Definition constant (s : jsstring) : nat → jsstring → captures → jsstring :=
  fun _ _ _ => s.

(** The chain of [replace] calls that turns bracket delimiters into
    dollars. *)
Definition normalizeMath (input : jsstring) : jsstring :=
  replace (lit [backslash; 41%N]) (constant [dollar])
    (replace (lit [backslash; 40%N]) (constant [dollar])
      (replace (lit [backslash; 93%N]) (constant [dollar])
        (replace (lit [backslash; 91%N]) (constant [dollar])
          (replace displayLineRegex
             (fun _ _ caps => [dollar; dollar] ++ default [] (capture 1 caps)
                              ++ [dollar; dollar])
             input)))).

(** The token that stands for the [index]-th formula. *)
Definition sentinel (index : nat) : jsstring :=
  [SENTINEL] ++ toString index ++ [SENTINEL].

(** The pattern of the tokens, with the number captured. *)
Definition sentinelRegex : regex :=
  Cat (chr SENTINEL) (Cat (Grp 1 (Plus true digit)) (chr SENTINEL)).

Definition codeFenceRegex : regex := lit (js "```").

(** [transformed.replace(sentinelRegex, (_, index) => matches[+index])];
    an index out of range prints as [undefined]. *)
Definition restoreMath (matches : list jsstring) (transformed : jsstring) : jsstring :=
  replace sentinelRegex
    (fun _ _ caps => default (js "undefined")
                       (matches !! toNumber (default [] (capture 1 caps))))
    transformed.

(** The second post step of an assistant message. [roundTrip] is
    [toMarkdown(fromMarkdown(_))] of [../utils/markdown]. *)
Definition reformat (roundTrip : jsstring → jsstring) (input : jsstring) : jsstring :=
  let input := normalizeMath input in
  let matches := matchAll LatexRegex input in
  let isCodeBlock := test codeFenceRegex input in
  let protect := negb isCodeBlock && negb (bool_decide (matches = [])) in
  let input := if protect
               then replace LatexRegex (fun index _ _ => sentinel index) input
               else input in
  let transformed := roundTrip input in
  if protect then restoreMath matches transformed else transformed.

Definition postSteps (roundTrip : jsstring → jsstring) (message : Message)
    : list (jsstring → jsstring) :=
  if jseqb (role (msg_author message)) (js "assistant")
  then [fun input => transformFootNotes input (msg_metadata message); reformat roundTrip]
  else [].

Definition postProcess (roundTrip : jsstring → jsstring) (message : Message)
    (input : jsstring) : jsstring :=
  fold_left (fun acc fn => fn acc) (postSteps roundTrip message) input.

Definition isMultimodalText (c : Content) : bool :=
  match c with CMultimodalText _ => true | _ => false end.

Definition isExecutionOutput (c : Content) : bool :=
  match c with CExecutionOutput _ => true | _ => false end.

(** The three [continue] tests at the head of the rendering loop, for a
    message that has content. *)
Definition skipped (message : Message) (content : Content) : bool :=
  negb (jseqb (msg_recipient message) (js "all"))
  || (jseqb (role (msg_author message)) (js "tool")
      && negb (isMultimodalText content)
      && negb (isExecutionOutput content
               && match aggregateMessagesOf message with
                  | Some msgs => existsb isImageMessage msgs
                  | None => false
                  end)).

(** The [for] loop over the nodes: [body] builds the entry of one
    rendered message from the message, its content and the running
    [imageIndex]. *)
Fixpoint renderLoop {A} (body : Message → Content → nat → A) (nodes : list Node)
    (imageIndex : nat) : list A :=
  match nodes with
  | [] => []
  | node :: rest =>
      match message node with
      | None => renderLoop body rest imageIndex
      | Some message =>
          match msg_content message with
          | None => renderLoop body rest imageIndex
          | Some content =>
              if skipped message content then renderLoop body rest imageIndex
              else body message content imageIndex
                   :: renderLoop body rest (imageIndex + countImagesInMessage message)
          end
      end
  end.

(** The entry pushed on [content] for one message. [timestampHtml] is
    the time element built from the message and the user's settings. *)
Definition messageEntry (roundTrip : jsstring → jsstring)
    (timestampHtml : Message → jsstring) (processedImages : list ProcessedImage)
    (message : Message) (content : Content) (imageIndex : nat) : jsstring :=
  let author := transformAuthor (msg_author message) in
  let messageContent :=
    transformContent content (msg_metadata message) (postProcess roundTrip message)
      processedImages imageIndex in
  js "#### " ++ author ++ js ":" ++ [LF] ++ timestampHtml message ++ messageContent.

(** [conversationToMarkdown], from the extraction of the images on.
    [frontMatter] is the block built from the caller's meta list. *)
Definition conversationToMarkdown (env : Env) (currentStrategy : ImageHandlingStrategy)
    (roundTrip : jsstring → jsstring) (timestampHtml : Message → jsstring)
    (frontMatter : jsstring) (sched : list nat) (conversation : ConversationResult)
    : option (Outcome (jsstring * list ExportFile * option ExportMetadata)) :=
  let images := extractImagesFromConversation conversation in
  let assemble (imageResult : option Handler.ImagesResult) :=
    let processedImages := default [] (Handler.processedImages <$> imageResult) in
    let exportFiles := default [] (imageResult ≫= Handler.res_files) in
    let imageMetadata := imageResult ≫= Handler.res_metadata in
    let content :=
      renderLoop (messageEntry roundTrip timestampHtml processedImages)
        (conversationNodes conversation) 0 in
    let markdown := frontMatter ++ js "# " ++ conv_title conversation
                    ++ [LF; LF] ++ join [LF; LF] content in
    (markdown, exportFiles, imageMetadata) in
  match images with
  | [] => Some (Ok (assemble None))
  | _ =>
      match Handler.processConversationImages env currentStrategy images
              Handler.markdown sched with
      | None => None
      | Some (Throw e) => Some (Throw e)
      | Some (Ok imageResult) => Some (Ok (assemble (Some imageResult)))
      end
  end.

(** The chain of [replace] calls on a meta value. *)
Definition metaValue (info : MetaInfo) (value : jsstring) : jsstring :=
  StringReplace.replaceString (js "{update_time}") (mi_update_time info)
    (StringReplace.replaceString (js "{create_time}") (mi_create_time info)
      (StringReplace.replaceString (js "{model_name}") (mi_modelSlug info)
        (StringReplace.replaceString (js "{model}") (mi_model info)
          (StringReplace.replaceString (js "{source}") (mi_source info)
            (StringReplace.replaceString (js "{timestamp}") (mi_timestamp info)
              (StringReplace.replaceString (js "{date}") (mi_date info)
                (StringReplace.replaceString (js "{title}") (mi_title info) value))))))).

(** [_metaList]: the lines of the entries that have a name. *)
Definition metaLines (info : MetaInfo) (metaList : option (list ExportMeta))
    : list jsstring :=
  match metaList with
  | Some entries =>
      (fun x => meta_name x ++ js ": " ++ metaValue info (meta_value x))
        <$> filter (fun x => truthy (meta_name x) = true) entries
  | None => []
  end.

Definition frontMatterOf (info : MetaInfo) (metaList : option (list ExportMeta))
    : jsstring :=
  match metaLines info metaList with
  | [] => []
  | lines => js "---" ++ [LF] ++ join [LF] lines ++ [LF] ++ js "---" ++ [LF; LF]
  end.

End Markdown.

(* ===================================================================== *)
(** ** html.ts *)
(* ===================================================================== *)

Module Html.

Definition DQUOTE : N := 34%N.
Definition backslash : N := 92%N.
Definition dollar : N := 36%N.

(** [exportAllToHtml]: the names under which the documents are put into
    the archive. *)
Fixpoint archiveNames (names : list jsstring) (filenameMap : gmap jsstring nat)
    : list jsstring :=
  match names with
  | [] => []
  | fileName :: rest =>
      match filenameMap !! fileName with
      | Some count =>
          (slice_to_minus 5 fileName ++ js " (" ++ toString count ++ js ").html")
          :: archiveNames rest (<[fileName := count + 1]> filenameMap)
      | None => fileName :: archiveNames rest (<[fileName := 1]> filenameMap)
      end
  end.

Definition exportAllToHtml_fileNames {C : Type}
    (getFileNameWithFormat : jsstring → jsstring → C → jsstring)
    (fileNameFormat : jsstring) (conversations : list C) : list jsstring :=
  archiveNames ((fun c => getFileNameWithFormat fileNameFormat (js "html") c) <$> conversations) ∅.

(** [LatexRegex] of html.ts (flags [gm]): the lazy variant; its last
    alternative ends in three literal dollars. *)
Definition LatexRegex : regex :=
  Alt (Grp 1
         (Alt (Cat (Chr space) (Cat (lit [dollar; dollar]) (Cat (Plus false dot)
                 (Cat (lit [dollar; dollar]) (Chr space)))))
         (Alt (Cat (Chr space) (Cat (chr dollar) (Cat (Plus false dot)
                 (Cat (chr dollar) (Chr space)))))
         (Alt (Cat (lit [backslash; 91%N]) (Cat (Plus false dot) (lit [backslash; 93%N])))
              (Cat (lit [backslash; 40%N]) (Cat (Plus false dot) (lit [backslash; 41%N])))))))
  (Alt (Grp 2 (Cat Bol (Cat (chr dollar) (Cat Eol (Cat (Plus false anychar)
                 (Cat Bol (Cat (chr dollar) Eol)))))))
       (Grp 3 (Cat Bol (Cat (lit [dollar; dollar]) (Cat (Plus false anychar)
                 (Cat Bol (lit [dollar; dollar; dollar]))))))).

Definition transformAuthor (author : Author) : jsstring :=
  if jseqb (role author) (js "assistant") then js "ChatGPT"
  else if jseqb (role author) (js "user") then js "You"
  else if jseqb (role author) (js "tool") then
    js "Plugin" ++ (if truthy_opt (name author)
                    then js " (" ++ default [] (name author) ++ js ")" else [])
  else role author.

(** The same pattern as in markdown.ts. *)
Definition footNoteMarkRegex : regex :=
  Cat (chr LENTICULAR_L) (Cat (Grp 1 (Plus true digit)) (Cat (chr DAGGER)
    (Cat (chr 40%N) (Cat (Grp 2 (Plus false dot)) (Cat (chr 41%N) (chr LENTICULAR_R)))))).

Definition findCitation (metadata : option MessageMetadata) (citeIndex : jsstring)
    : option Citation :=
  match metadata with
  | Some md =>
      match citations md with
      | Some cites =>
          List.find (fun cite => bool_decide (Markdown.citedIdx cite = Some (numberOf citeIndex)))
                    cites
      | None => None
      end
  | None => None
  end.

Definition transformFootNotes (input : jsstring) (metadata : option MessageMetadata)
    : jsstring :=
  replace footNoteMarkRegex
    (fun _ m caps =>
       match findCitation metadata (default [] (capture 1 caps)) with
       | Some _ => []
       | None => m
       end) input.

Definition constant (s : jsstring) : nat → jsstring → captures → jsstring :=
  fun _ _ _ => s.

Definition escapeHtml (html : jsstring) : jsstring :=
  replace (chr 39%N) (constant (js "&#039;"))
    (replace (chr DQUOTE) (constant (js "&quot;"))
      (replace (chr 62%N) (constant (js "&gt;"))
        (replace (chr 60%N) (constant (js "&lt;"))
          (replace (chr 38%N) (constant (js "&amp;")) html)))).

Fixpoint extractAggregate (conversationId messageId : jsstring) (author : Author)
    (create_time : option nat) (msgs : list AggregateMessage) (imageIndex : nat)
    : list (jsstring * ImageContext) :=
  match msgs with
  | [] => []
  | msg :: rest =>
      match image_url msg with
      | Some url =>
          if isImageMessage msg && truthy url then
            (url, {| conversationId := conversationId;
                     messageId := messageId;
                     imageIndex := imageIndex;
                     mimeType := js "image/png";
                     originalUrl := url;
                     contentType := ict_image_url;
                     author := Some author;
                     timestamp := create_time |})
            :: extractAggregate conversationId messageId author create_time rest (S imageIndex)
          else extractAggregate conversationId messageId author create_time rest imageIndex
      | None => extractAggregate conversationId messageId author create_time rest imageIndex
      end
  end.

(** Here the test on a part is [typeof part === 'object' &&
    'content_type' in part && 'asset_pointer' in part &&
    part.content_type === 'image_asset_pointer']. *)
Fixpoint extractParts (conversationId messageId : jsstring) (author : Author)
    (create_time : option nat) (parts : list Part) (imageIndex : nat)
    : list (jsstring * ImageContext) :=
  match parts with
  | [] => []
  | part :: rest =>
      match part with
      | PObject _ (Some asset_pointer) _ =>
          if isImagePart part then
            (asset_pointer, {| conversationId := conversationId;
                               messageId := messageId;
                               imageIndex := imageIndex;
                               mimeType := js "image/png";
                               originalUrl := asset_pointer;
                               contentType := ict_multimodal_text;
                               author := Some author;
                               timestamp := create_time |})
            :: extractParts conversationId messageId author create_time rest (S imageIndex)
          else extractParts conversationId messageId author create_time rest imageIndex
      | _ => extractParts conversationId messageId author create_time rest imageIndex
      end
  end.

Definition extractNode (conversationId : jsstring) (nodeIndex : nat) (node : Node)
    : list (jsstring * ImageContext) :=
  match message node with
  | None => []
  | Some message =>
      match msg_content message with
      | None => []
      | Some content =>
          let mid := messageIdOf message nodeIndex in
          match content, aggregateMessagesOf message with
          | CExecutionOutput _, Some msgs =>
              extractAggregate conversationId mid (msg_author message)
                (msg_create_time message) msgs 0
          | CMultimodalText (Some parts), _ =>
              extractParts conversationId mid (msg_author message)
                (msg_create_time message) parts 0
          | _, _ => []
          end
      end
  end.

Definition extractImagesFromConversation (conversation : ConversationResult)
    : list (jsstring * ImageContext) :=
  mjoin (imap (extractNode (conv_id conversation)) (conversationNodes conversation)).

Definition countImagesInMessage (message : Message) : nat :=
  match msg_content message with
  | None => 0
  | Some content =>
      match content, aggregateMessagesOf message with
      | CExecutionOutput _, Some msgs => length (filter (fun m => isImageMessage m) msgs)
      | CMultimodalText (Some parts), _ => length (filter (fun p => isImagePart p) parts)
      | _, _ => 0
      end
  end.

Definition imageRef (processedImages : list ProcessedImage) (globalIndex : nat)
    : jsstring :=
  match processedImages !! globalIndex with
  | Some processedImage =>
      if truthy (content processedImage)
      then js "<img src=" ++ [DQUOTE] ++ content processedImage ++ [DQUOTE] ++ js " />"
      else js "[IMAGE_" ++ toString globalIndex ++ js "]"
  | None => js "[IMAGE_" ++ toString globalIndex ++ js "]"
  end.

Definition fence (label text : jsstring) : jsstring :=
  label ++ js ":" ++ [LF] ++ js "```" ++ [LF] ++ text ++ [LF] ++ js "```".

Definition transformPart (postProcess : jsstring → jsstring)
    (processedImages : list ProcessedImage) (imageStartIndex : nat)
    (parts : list Part) (partIndex : nat) (part : Part) : option jsstring :=
  match part with
  | PString s => Some (postProcess s)
  | PObject ct _ text =>
      if jseqb ct (js "image_asset_pointer") then
        let imageIndexInMessage := length (filter (fun p => isImagePart p) (take partIndex parts)) in
        let globalImageIndex := imageStartIndex + imageIndexInMessage in
        Some (imageRef processedImages globalImageIndex)
      else if jseqb ct (js "audio_transcription") then
        Some (js "<div style=" ++ [DQUOTE] ++ js "font-style: italic; opacity: 0.65;"
              ++ [DQUOTE] ++ js ">" ++ [DQUOTE] ++ default (js "undefined") text
              ++ [DQUOTE] ++ js "</div>")
      else if jseqb ct (js "audio_asset_pointer") then None
      else if jseqb ct (js "real_time_user_audio_video_asset_pointer") then None
      else Some (postProcess (js "[Unsupported multimodal content]"))
  end.

Definition transformContent (content : Content) (metadata : option MessageMetadata)
    (postProcess : jsstring → jsstring) (processedImages : list ProcessedImage)
    (imageStartIndex : nat) : jsstring :=
  match content with
  | CText parts => postProcess (match parts with Some ps => join [LF] ps | None => [] end)
  | CCode text => fence (js "Code") text
  | CExecutionOutput text =>
      match metadata ≫= aggregate_messages with
      | Some msgs =>
          match filter (fun m => isImageMessage m) msgs with
          | [] => postProcess (fence (js "Result") text)
          | imageMessages =>
              let imageContent :=
                join [LF; LF]
                  (imap (fun index _ => imageRef processedImages (imageStartIndex + index))
                        imageMessages) in
              postProcess (fence (js "Result") text
                           ++ (if truthy imageContent then [LF; LF] ++ imageContent else []))
          end
      | None => postProcess (fence (js "Result") text)
      end
  | CTetherQuote title text =>
      postProcess (js "> " ++ (if truthy_opt title then default [] title
                               else if truthy_opt text then default [] text else []))
  | CTetherBrowsingCode => postProcess []
  | CTetherBrowsingDisplay =>
      match metadata ≫= metadata_list with
      | Some (l :: ls) =>
          postProcess (join [LF]
            ((fun x => js "> [" ++ link_title x ++ js "](" ++ link_url x ++ js ")")
               <$> (l :: ls)))
      | _ => postProcess []
      end
  | CMultimodalText parts =>
      let rendered :=
        match parts with
        | Some ps => imap (transformPart postProcess processedImages imageStartIndex ps) ps
        | None => []
        end in
      join [LF] (omap (fun x : option jsstring => x) rendered)
  | COther ct => postProcess (js "[Unsupported Content: " ++ ct ++ js " ]")
  end.

(** The [replace] chain of html.ts; each of its replacement patterns
    expands to the same text as in markdown.ts. *)
Definition normalizeMath (input : jsstring) : jsstring :=
  replace (lit [backslash; 41%N]) (constant [dollar])
    (replace (lit [backslash; 40%N]) (constant [dollar])
      (replace (lit [backslash; 93%N]) (constant [dollar])
        (replace (lit [backslash; 91%N]) (constant [dollar])
          (replace Markdown.displayLineRegex
             (fun _ _ caps => [dollar; dollar] ++ default [] (capture 1 caps)
                              ++ [dollar; dollar])
             input)))).

(** The second post step of an assistant message. [roundTrip] is
    [toHtml(fromMarkdown(_))] of [../utils/markdown]. *)
Definition reformat (roundTrip : jsstring → jsstring) (input : jsstring) : jsstring :=
  let matches := matchAll LatexRegex input in
  let isCodeBlock := test Markdown.codeFenceRegex input in
  let protect := negb isCodeBlock && negb (bool_decide (matches = [])) in
  let input := if protect
               then normalizeMath (replace LatexRegex (fun index _ _ => Markdown.sentinel index) input)
               else input in
  let transformed := roundTrip input in
  if protect then Markdown.restoreMath matches transformed else transformed.

Definition postSteps (roundTrip : jsstring → jsstring) (message : Message)
    : list (jsstring → jsstring) :=
  (if jseqb (role (msg_author message)) (js "assistant")
   then [fun input => transformFootNotes input (msg_metadata message); reformat roundTrip]
   else [])
  ++ (if jseqb (role (msg_author message)) (js "user")
      then [fun input => js "<p class=" ++ [DQUOTE] ++ js "no-katex" ++ [DQUOTE] ++ js ">"
                         ++ escapeHtml input ++ js "</p>"]
      else []).

Definition postProcess (roundTrip : jsstring → jsstring) (message : Message)
    (input : jsstring) : jsstring :=
  fold_left (fun acc fn => fn acc) (postSteps roundTrip message) input.

(** The [for] loop over the nodes; its three [continue] tests are the
    ones of markdown.ts. *)
Fixpoint renderLoop {A} (body : Message → Content → nat → A) (nodes : list Node)
    (imageIndex : nat) : list A :=
  match nodes with
  | [] => []
  | node :: rest =>
      match message node with
      | None => renderLoop body rest imageIndex
      | Some message =>
          match msg_content message with
          | None => renderLoop body rest imageIndex
          | Some content =>
              if Markdown.skipped message content then renderLoop body rest imageIndex
              else body message content imageIndex
                   :: renderLoop body rest (imageIndex + countImagesInMessage message)
          end
      end
  end.

(** The message content placed in the item of one message; the markup
    around it (avatar, wrapper elements, time) comes from [item]. *)
Definition messageContentOf (roundTrip : jsstring → jsstring)
    (processedImages : list ProcessedImage)
    (message : Message) (content : Content) (imageIndex : nat) : jsstring :=
  transformContent content (msg_metadata message) (postProcess roundTrip message)
    processedImages imageIndex.

(** The chain of html.ts; its sixth pattern is [{mode_name}]. *)
Definition metaValue (info : MetaInfo) (value : jsstring) : jsstring :=
  StringReplace.replaceString (js "{update_time}") (mi_update_time info)
    (StringReplace.replaceString (js "{create_time}") (mi_create_time info)
      (StringReplace.replaceString (js "{mode_name}") (mi_modelSlug info)
        (StringReplace.replaceString (js "{model}") (mi_model info)
          (StringReplace.replaceString (js "{source}") (mi_source info)
            (StringReplace.replaceString (js "{timestamp}") (mi_timestamp info)
              (StringReplace.replaceString (js "{date}") (mi_date info)
                (StringReplace.replaceString (js "{title}") (mi_title info) value))))))).

(** [_metaList]: key and value of the entries that have a name. *)
Definition metaPairs (info : MetaInfo) (metaList : option (list ExportMeta))
    : list (jsstring * jsstring) :=
  match metaList with
  | Some entries =>
      (fun x => (meta_name x, metaValue info (meta_value x)))
        <$> filter (fun x => truthy (meta_name x) = true) entries
  | None => []
  end.

End Html.

(* ===================================================================== *)
(** ** Predicates used in the statements *)
(* ===================================================================== *)

(** The canvas hands out data URLs whose payload [atob] decodes. *)
Definition decodable (env : Env) : Prop :=
  ∀ url img d payload,
    env_loadImage env url = Some img →
    env_canvas env img = DataURL d →
    split 44 d !! 1 = Some payload →
    is_Some (env_atob env payload).

(** Processing an image fails: the strategy throws (the handler's
    [catch] takes over), or a fetching strategy cannot load the image
    or finds no payload in what the canvas returns. *)
Definition processingFails (env : Env) (strategy : ImageHandlingStrategy)
    (url : jsstring) (context : ImageContext) : Prop :=
  (∃ e, Strategies.processImage env strategy url context = Throw e)
  ∨ (strategy ≠ text_marker
     ∧ ∃ e, (base64Data ← ImageUtils.getBase64FromImageUrl env url;
             ImageUtils.getFileSizeFromBase64 base64Data) = Throw e).

(** The image the callback of [processConversationImages] resolves to
    (the callback never rejects, see [processOne_total]). *)
Definition resolved (env : Env) (strategy : ImageHandlingStrategy)
    (image : jsstring * ImageContext) : ProcessedImage :=
  match Handler.processOne env strategy image with
  | Ok p => p
  | Throw _ => Strategies.failedImage [] [] [] image.2
  end.

(** How often [n] occurs in [l]. *)
Definition occurrences (n : jsstring) (l : list jsstring) : nat :=
  length (filter (λ x, x = n) l).

(** The archive name of a document whose computed name was seen [k]
    times before; [cut] is the length of the extension with its dot. *)
Definition numbered (cut : nat) (ext : jsstring) (fileName : jsstring) (k : nat)
    : jsstring :=
  match k with
  | 0 => fileName
  | _ => slice_to_minus cut fileName ++ js " (" ++ toString k ++ js ")." ++ ext
  end.

(** The map of [exportAllTo...] after the names [seen]. *)
Definition counts (m : gmap jsstring nat) (seen : list jsstring) : Prop :=
  ∀ n, m !! n = match occurrences n seen with 0 => None | k => Some k end.

(** The unit before the position reached after reading [m]. *)
Definition after (prev : option N) (m : jsstring) : option N :=
  match last m with Some c => Some c | None => prev end.

(** No [^] or [$] in the pattern. *)
Fixpoint anchorFree (r : regex) : bool :=
  match r with
  | Bol | Eol => false
  | Cat r1 r2 | Alt r1 r2 => anchorFree r1 && anchorFree r2
  | Grp _ r1 => anchorFree r1
  | _ => true
  end.

(** The stretches of a text between the matches of a scan. *)
Fixpoint proseOf (ps : list piece) : list jsstring :=
  match ps with
  | [] => [[]]
  | Keep c :: ps' =>
      match proseOf ps' with
      | q :: qs => (c :: q) :: qs
      | [] => [[c]]
      end
  | Hit _ _ :: ps' => [] :: proseOf ps'
  end.

(** The matches of a scan. *)
Definition hitsOf (ps : list piece) : list jsstring :=
  omap (λ p, match p with Hit m _ => Some m | Keep _ => None end) ps.

(** [prose] with the strings of [fill] put in between. *)
Fixpoint weave (prose fill : list jsstring) : jsstring :=
  match prose, fill with
  | p :: prose', f :: fill' => p ++ f ++ weave prose' fill'
  | p :: _, [] => p
  | [], _ => []
  end.

(** The two renderers, for statements that hold of both. *)
Inductive Renderer := ToMarkdown | ToHtml.

Definition reformatOf (r : Renderer) : (jsstring → jsstring) → jsstring → jsstring :=
  match r with ToMarkdown => Markdown.reformat | ToHtml => Html.reformat end.

Definition latexRegexOf (r : Renderer) : regex :=
  match r with ToMarkdown => Markdown.LatexRegex | ToHtml => Html.LatexRegex end.

(** The text the formula pattern and the fence test are run on: in
    markdown.ts the delimiters are changed first. *)
Definition scannedText (r : Renderer) (input : jsstring) : jsstring :=
  match r with ToMarkdown => Markdown.normalizeMath input | ToHtml => input end.

(** The matched formula spans. *)
Definition spansOf (r : Renderer) (input : jsstring) : list jsstring :=
  matchAll (latexRegexOf r) (scannedText r input).

(** The prose around the spans. *)
Definition proseAround (r : Renderer) (input : jsstring) : list jsstring :=
  proseOf (pieces (latexRegexOf r) (scannedText r input)).

(** The tokens [╬0╬] ... [╬(n-1)╬]. *)
Definition tokens (n : nat) : list jsstring := Markdown.sentinel <$> seq 0 n.

(** What the round trip is given when the formulas are protected: in
    html.ts the delimiters are changed after the tokens are in. *)
Definition protectedText (r : Renderer) (input : jsstring) : jsstring :=
  let guarded := weave (proseAround r input) (tokens (length (spansOf r input))) in
  match r with ToMarkdown => guarded | ToHtml => Html.normalizeMath guarded end.

(** The citation marker whose index is written [digits], with the
    label [label]. *)
Definition markerOf (digits label : jsstring) : jsstring :=
  [LENTICULAR_L] ++ digits ++ [DAGGER; 40%N] ++ label ++ [41%N; LENTICULAR_R].

(** What the pattern reads as an index: one decimal digit or more. *)
Definition digitString (digits : jsstring) : Prop :=
  digits ≠ [] ∧ Forall (λ c, is_digit c = true) digits.

(** The citation marker for source [n] with the label [label]. *)
Definition marker (n : nat) (label : jsstring) : jsstring :=
  [LENTICULAR_L] ++ toString n ++ [DAGGER; 40%N] ++ label ++ [41%N; LENTICULAR_R].

(** What a label must look like for the pattern to read it as one: not
    empty, on one line, without the closing bracket. *)
Definition labelOk (label : jsstring) : Prop :=
  label ≠ [] ∧ Forall (λ c, dot c = true) label ∧ LENTICULAR_R ∉ label.

(** The number of images the extractor lists for one node. *)
Definition extractedCount (node : Node) : nat :=
  length (Markdown.extractNode [] 0 node).

(** The start index the specification asks for: each message with
    content is paired with the number of images extracted from the
    nodes before it. *)
Fixpoint expectedStarts (nodes : list Node) (before : nat) : list (Message * nat) :=
  match nodes with
  | [] => []
  | node :: rest =>
      match message node with
      | Some m =>
          match msg_content m with
          | Some _ => (m, before) :: expectedStarts rest (before + extractedCount node)
          | None => expectedStarts rest (before + extractedCount node)
          end
      | None => expectedStarts rest (before + extractedCount node)
      end
  end.

(** Every message with content is rendered, and counts as many images
    as the extractor lists for it. *)
Definition inStep (nodes : list Node) : Prop :=
  ∀ node m c,
    node ∈ nodes → message node = Some m → msg_content m = Some c →
    Markdown.skipped m c = false
    ∧ Markdown.countImagesInMessage m = extractedCount node.

(** Every image part of the conversation carries a non-empty pointer. *)
Definition pointersPresent (conversation : ConversationResult) : Prop :=
  ∀ node m parts ct ap text,
    node ∈ conversationNodes conversation →
    message node = Some m →
    msg_content m = Some (CMultimodalText (Some parts)) →
    PObject ct (Some ap) text ∈ parts →
    ct = js "image_asset_pointer" → ap ≠ [].

(** What [escapeHtml] makes of one unit. *)
Definition escapeUnit (c : N) : jsstring :=
  if N.eqb c 38 then js "&amp;"
  else if N.eqb c 60 then js "&lt;"
  else if N.eqb c 62 then js "&gt;"
  else if N.eqb c 34 then js "&quot;"
  else if N.eqb c 39 then js "&#039;"
  else [c].

(** The units that open or close markup or an attribute value. *)
Definition htmlSpecial (c : N) : bool :=
  N.eqb c 60 || N.eqb c 62 || N.eqb c 34 || N.eqb c 39.

(** A unit [sanitizeFileName] lets through. *)
Definition fileSafe (c : N) : bool :=
  negb (ImageUtils.unsafeChar c) && negb (space c).

(** Lower-casing brings in no unsafe unit and no white space. *)
Definition lowerCaseKeepsSafe (env : Env) : Prop :=
  ∀ s, Forall (λ c, fileSafe c = true) s →
       Forall (λ c, fileSafe c = true) (env_toLowerCase env s).

(** A MIME type as a data URI can carry it: not empty, no semicolon. *)
Definition mimeOk (m : jsstring) : Prop := m ≠ [] ∧ (59%N ∉ m).

(** What the file strategy leaves in a processed image: no file name,
    or a payload, a file name, metadata and the path as content. *)
Definition fileShaped (p : ProcessedImage) : Prop :=
  fileName p = None
  ∨ ∃ od fn md, originalData p = Some od ∧ truthy od = true ∧ fileName p = Some fn
                ∧ metadata p = Some md ∧ content p = ImageUtils.createImageRelativePath fn.

(** The paragraph html.ts wraps the text of the user in. *)
Definition noKatex (body : jsstring) : jsstring :=
  js "<p class=" ++ [Html.DQUOTE] ++ js "no-katex" ++ [Html.DQUOTE] ++ js ">"
  ++ body ++ js "</p>".

(** The number of images the extractor lists for the nodes [before]
    a node: the start index the node should be rendered with. *)
Definition extractedBefore (before : list Node) : nat :=
  sum_list (extractedCount <$> before).

(** What the handler makes of the images of a conversation, in the
    order of the extraction. *)
Definition processedFor (env : Env) (strategy : ImageHandlingStrategy)
    (conversation : ConversationResult) : list ProcessedImage :=
  resolved env strategy <$> Markdown.extractImagesFromConversation conversation.

(** What the extractors promise of a listed pair, for a conversation
    with the id [cid]. *)
Definition wellFormedPair (cid : jsstring) (x : jsstring * ImageContext) : Prop :=
  originalUrl x.2 = x.1 ∧ conversationId x.2 = cid ∧ mimeType x.2 = js "image/png"
  ∧ is_Some (author x.2).

(** The message of a node and its content, when the rendering loop
    does not pass it over. *)
Definition visible (node : Node) : option (Message * Content) :=
  match message node with
  | Some m =>
      match msg_content m with
      | Some c => if Markdown.skipped m c then None else Some (m, c)
      | None => None
      end
  | None => None
  end.

(** A text without dollar and backslash: no formula delimiter. *)
Definition mathFree (s : jsstring) : Prop :=
  (Markdown.dollar ∉ s) ∧ (Markdown.backslash ∉ s).


(** A text that holds no opening brace (no placeholder can start in
    it) and no dollar (nothing for [replace] to expand). *)
Definition plainValue (s : jsstring) : Prop := (123%N ∉ s) ∧ (36%N ∉ s).

Definition plainInfo (info : MetaInfo) : Prop :=
  plainValue (mi_title info) ∧ plainValue (mi_date info)
  ∧ plainValue (mi_timestamp info) ∧ plainValue (mi_source info)
  ∧ plainValue (mi_model info) ∧ plainValue (mi_modelSlug info)
  ∧ plainValue (mi_create_time info) ∧ plainValue (mi_update_time info).

(** The text [[IMAGE_], with which every placeholder starts, does not
    occur in [s]. *)
Definition placeholderFree (s : jsstring) : Prop :=
  StringReplace.splitAt (js "[IMAGE_") s = None.

(* ===================================================================== *)
(** ** Sample inputs *)
(* ===================================================================== *)

Module Sample.

Definition lowerUnit (c : N) : N :=
  if (65 <=? c)%N && (c <=? 90)%N then (c + 32)%N else c.

(** An environment in which images under [https://] load and draw,
    and everything else fails to load. [btoa] refuses units above 255;
    the codecs are otherwise stand-ins. *)
Definition env : Env := {|
  env_loadImage := fun url => if startsWith (js "https://") url then Some (length url) else None;
  env_canvas := fun _ => DataURL (js "data:image/png;base64,iVBORw0KGgo=");
  env_btoa := fun s => if forallb (fun c => (c <=? 255)%N) s then Some s else None;
  env_atob := fun s => Some s;
  env_toLowerCase := fun s => lowerUnit <$> s;
  env_Date_now := 1700;
  env_toISOString := js "2024-01-01T00:00:00.000Z";
  env_random := js "k3j9x0q1z";
  env_customMarker := None;
|}.

Definition user : Author := {| role := js "user"; name := None |}.
Definition assistant : Author := {| role := js "assistant"; name := None |}.

Definition imagePart (pointer : jsstring) : Part :=
  PObject (js "image_asset_pointer") (Some pointer) None.

Definition upload (mid : jsstring) (recipient : jsstring) (parts : list Part) : Node :=
  {| message := Some {| msg_id := Some mid;
                        msg_author := user;
                        msg_create_time := Some 17;
                        msg_recipient := recipient;
                        msg_content := Some (CMultimodalText (Some parts));
                        msg_metadata := None |} |}.

Definition conversation (nodes : list Node) : ConversationResult :=
  {| conv_id := js "c0"; conv_title := js "Chat"; conversationNodes := nodes |}.

(** Two uploads, one image each. *)
Definition twoUploads : ConversationResult :=
  conversation [upload (js "m1") (js "all") [imagePart (js "https://files/a.png")];
                upload (js "m2") (js "all") [imagePart (js "https://files/b.png")]].

(** The first message is addressed to a tool and carries an image. *)
Definition routed : ConversationResult :=
  conversation [upload (js "m1") (js "browser") [imagePart (js "https://files/a.png")];
                upload (js "m2") (js "all") [imagePart (js "https://files/b.png")]].

(** An image part whose pointer is the empty string. *)
Definition emptyPointer : ConversationResult :=
  conversation [upload (js "m1") (js "all") [imagePart []]].

(** The second image does not load. *)
Definition images : list (jsstring * ImageContext) :=
  Markdown.extractImagesFromConversation
    (conversation [upload (js "m1") (js "all")
                     [imagePart (js "https://files/a.png"); imagePart (js "file-service://gone")]]).

(** Two processed images that can be told apart. *)
Definition pa : ProcessedImage :=
  {| id := js "a"; content := js "A.png"; originalData := None;
     metadata := None; fileName := None |}.
Definition pb : ProcessedImage :=
  {| id := js "b"; content := js "B.png"; originalData := None;
     metadata := None; fileName := None |}.

Definition messagesOf (c : ConversationResult) : list Message :=
  omap message (conversationNodes c).

(** A fenced block with a display formula inside. *)
Definition fenced : jsstring :=
  js "```" ++ [LF] ++ js "\[x\]" ++ [LF] ++ js "```".

(** Prose that already holds the sentinel character. *)
Definition clash : jsstring := [SENTINEL] ++ js "1 $x$ 2" ++ [SENTINEL] ++ [LF; LF].

Definition inlineFormula : jsstring := js "The result is \(x^2\) ok".

(** One citation: source 3, titled SourceName. *)
Definition sourceName : option MessageMetadata :=
  Some {| aggregate_messages := None;
          citations := Some [{| cite_metadata :=
                                  Some {| cm_title := Some (js "SourceName");
                                          cm_extra := Some {| cited_message_idx := Some 3%N |} |} |}];
          metadata_list := None;
          model_slug := None |}.

(** The citation of source [idx] with the title [title]. *)
Definition citationOf (idx : N) (title : jsstring) : Citation :=
  {| cite_metadata := Some {| cm_title := Some title;
                              cm_extra := Some {| cited_message_idx := Some idx |} |} |}.

(** One citation of a source beyond the integers that every Number
    tells apart: source [2^53]. *)
Definition farSource : option MessageMetadata :=
  Some {| aggregate_messages := None;
          citations := Some [citationOf 9007199254740992 (js "SourceName")];
          metadata_list := None;
          model_slug := None |}.

(** What a settled [processConversationImages] exports: the file names
    and contents of the processed images and the paths of the files. *)
Definition exported (o : option (Outcome Handler.ImagesResult))
    : option (list (option jsstring) * list jsstring * option (list jsstring)) :=
  match o with
  | Some (Ok r) =>
      Some (fileName <$> Handler.processedImages r,
            content <$> Handler.processedImages r,
            (λ files : list ExportFile, path <$> files) <$> Handler.res_files r)
  | _ => None
  end.

(** A stand-in for [getFileNameWithFormat]: format, title, extension. *)
Definition nameOf (fmt ext title : jsstring) : jsstring := fmt ++ title ++ js "." ++ ext.

(** An upload of the user, first image of message m1. *)
Definition uploadContext : ImageContext :=
  {| conversationId := js "c0"; messageId := js "m1"; imageIndex := 0;
     mimeType := js "image/png"; originalUrl := js "https://files/a.png";
     contentType := ict_multimodal_text; author := Some user;
     timestamp := Some 17 |}.

(** The same message, eighth image. *)
Definition uploadContext7 : ImageContext :=
  {| conversationId := js "c0"; messageId := js "m1"; imageIndex := 7;
     mimeType := js "image/png"; originalUrl := js "https://files/h.png";
     contentType := ict_multimodal_text; author := Some user;
     timestamp := Some 17 |}.

(** The first node of [twoUploads]; the second message and its parts. *)
Definition firstUpload : Node :=
  upload (js "m1") (js "all") [imagePart (js "https://files/a.png")].

Definition parts2 : list Part := [imagePart (js "https://files/b.png")].

Definition m2 : Message :=
  {| msg_id := Some (js "m2");
     msg_author := user;
     msg_create_time := Some 17;
     msg_recipient := js "all";
     msg_content := Some (CMultimodalText (Some parts2));
     msg_metadata := None |}.

(** A tool message with the output of a run and one plot. *)
Definition plot : AggregateMessage :=
  {| message_type := js "image"; image_url := Some (js "https://files/plot.png") |}.

Definition stdout : AggregateMessage :=
  {| message_type := js "stdout"; image_url := None |}.

Definition pythonRun : Message :=
  {| msg_id := Some (js "m3");
     msg_author := {| role := js "tool"; name := Some (js "python") |};
     msg_create_time := Some 18;
     msg_recipient := js "all";
     msg_content := Some (CExecutionOutput (js "done"));
     msg_metadata := Some {| aggregate_messages := Some [stdout; plot];
                             citations := None;
                             metadata_list := None;
                             model_slug := None |} |}.

(** An upload followed by the run. *)
Definition withPlot : ConversationResult :=
  conversation [firstUpload; {| message := Some pythonRun |}].

(** What the placeholders of the meta list stand for. *)
Definition metaInfo : MetaInfo :=
  {| mi_title := js "Chat"; mi_date := js "2024-01-01";
     mi_timestamp := js "1704067200"; mi_source := js "https://chatgpt.com/c/c0";
     mi_model := js "GPT-4"; mi_modelSlug := js "gpt-4";
     mi_create_time := js "2024-01-01T00:00:00.000Z";
     mi_update_time := js "2024-01-02T00:00:00.000Z" |}.

(** As [routed], and the image of the second message does not load. *)
Definition routedGone : ConversationResult :=
  conversation [upload (js "m1") (js "browser") [imagePart (js "https://files/a.png")];
                upload (js "m2") (js "all") [imagePart (js "file-service://gone")]].

(** As [env], with an [atob] that refuses what it is given. *)
Definition undecodable : Env := {|
  env_loadImage := env_loadImage env;
  env_canvas := env_canvas env;
  env_btoa := env_btoa env;
  env_atob := fun _ => None;
  env_toLowerCase := env_toLowerCase env;
  env_Date_now := env_Date_now env;
  env_toISOString := env_toISOString env;
  env_random := env_random env;
  env_customMarker := env_customMarker env;
|}.



End Sample.

(* ===================================================================== *)
(** * Properties *)
(* ===================================================================== *)

Import ImageUtils Strategies Handler.

(** Closes a decidable closed goal by evaluation. *)
Ltac by_computation :=
  lazymatch goal with
  | |- ?P => refine (bool_decide_eq_true_1 P _); vm_compute; reflexivity
  end.

(* --------------------------------------------------------------------- *)
(** ** Promise.all keeps the order of the promises *)
(* --------------------------------------------------------------------- *)
Section PromiseAllFacts.
Context {A : Type}.
Implicit Types (vs : list A) (sched : list nat) (values : list (option A)).

Lemma settle_fills vs sched values :
  NoDup sched →
  sched ≠ [] →
  length values = length vs →
  (∀ i, i ∈ sched → i < length vs ∧ values !! i = Some None) →
  (∀ i, i < length vs → i ∉ sched → values !! i = Some (vs !! i)) →
  settle (Ok <$> vs) sched values (length sched) = Some (Ok vs).
Proof.
  intros Hnd. revert values.
  induction Hnd as [|i sched Hi Hnd IH]; intros values Hne Hlen Hin Hout; [done|].
  destruct (Hin i) as [Hlt Hslot]; [left|].
  destruct (lookup_lt_is_Some_2 vs i Hlt) as [v Hv].
  cbn [settle]. rewrite list_lookup_fmap, Hv, Hslot. cbn.
  assert (Hfilled : ∀ j, j < length vs → j ∉ sched →
            <[i:=Some v]> values !! j = Some (vs !! j)).
  { intros j Hj Hnj. destruct (decide (i = j)) as [->|Hij].
    - rewrite list_lookup_insert_eq by lia. by rewrite Hv.
    - rewrite list_lookup_insert_ne by done. apply Hout; [done|].
      rewrite elem_of_cons. intros [?|?]; congruence. }
  destruct sched as [|i' sched'].
  - cbn. replace (<[i:=Some v]> values) with (Some <$> vs).
    { rewrite (mapM_fmap_Some (λ x : option A, x) Some vs) by done. done. }
    apply list_eq. intros j. rewrite list_lookup_fmap.
    destruct (decide (j < length vs)) as [Hj|Hj].
    + rewrite Hfilled; [|done|apply not_elem_of_nil].
      destruct (lookup_lt_is_Some_2 vs j Hj) as [x ->]. done.
    + rewrite !lookup_ge_None_2; [done| |lia].
      rewrite length_insert. lia.
  - cbn [length]. cbn [Nat.sub].
    change (settle (Ok <$> vs) (i' :: sched') (<[i:=Some v]> values) (length (i' :: sched')) = Some (Ok vs)).
    apply IH; [done| by rewrite length_insert | |done].
    intros j Hj. destruct (Hin j) as [? ?]; [by right|]. split; [done|].
    rewrite list_lookup_insert_ne; [done|]. intros ->. done.
Qed.

(** Whatever the order in which the promises settle, [Promise.all]
    delivers the values in the order of the promises. *)
Lemma Promise_all_fulfilled vs sched :
  sched ≡ₚ seq 0 (length vs) →
  Promise_all (Ok <$> vs) sched = Some (Ok vs).
Proof.
  intros Hperm. unfold Promise_all.
  destruct vs as [|v vs'] eqn:Evs; [done|]. rewrite <- Evs in *.
  assert (Hl : length vs = length sched) by (by rewrite Hperm, length_seq).
  replace (Ok <$> vs) with (Ok v :: (Ok <$> vs')) at 1 by (by rewrite Evs).
  cbv iota. rewrite length_fmap. rewrite Hl at 2.
  apply settle_fills.
  - rewrite Hperm. apply NoDup_seq.
  - intros ->. rewrite Evs in Hl. done.
  - by rewrite length_replicate.
  - intros i Hi. rewrite Hperm, elem_of_seq in Hi. split; [lia|].
    apply lookup_replicate_2. lia.
  - intros i Hi Hn. exfalso. apply Hn. rewrite Hperm, elem_of_seq. lia.
Qed.
End PromiseAllFacts.

(* --------------------------------------------------------------------- *)
(** ** The image handler *)
(* --------------------------------------------------------------------- *)
Section HandlerFacts.
Context (env : Env) (strategy : ImageHandlingStrategy).

Lemma processOne_total image : ∃ p, processOne env strategy image = Ok p.
Proof.
  destruct image as [url context]. unfold processOne, try_catch.
  destruct (processImage env strategy url context); eauto.
Qed.

Lemma processOne_resolved image :
  processOne env strategy image = Ok (resolved env strategy image).
Proof. unfold resolved. destruct (processOne_total image) as [p ->]. done. Qed.

Lemma processOne_fmap (images : list (jsstring * ImageContext)) :
  processOne env strategy <$> images = Ok <$> (resolved env strategy <$> images).
Proof.
  rewrite <- list_fmap_compose. apply list_fmap_ext. intros _ image _.
  apply processOne_resolved.
Qed.

Lemma failed_content url context :
  processingFails env strategy url context →
  content (resolved env strategy (url, context)) = FAILED.
Proof.
  unfold resolved, processOne, try_catch, processingFails.
  intros [[e He]|[Hs [e He]]].
  - rewrite He. done.
  - destruct strategy; [|done|]; cbn [processImage];
      unfold EmbedBase64_processImage, SeparateFiles_processImage, try_catch;
      (destruct (generateImageId env context) as [id|]; cbn; [|done]);
      (destruct (getBase64FromImageUrl env url) as [d|]; cbn in *; [|done]);
      (destruct (getFileSizeFromBase64 d); cbn in *; [done|done]).
Qed.
End HandlerFacts.

Section HandlerResult.
Context (env : Env) (strategy : ImageHandlingStrategy).

(** A payload kept by the file strategy decodes. *)
Lemma separate_payload image od :
  decodable env →
  originalData (resolved env separate_files image) = Some od →
  ∃ payload, split 44 od !! 1 = Some payload ∧ is_Some (env_atob env payload).
Proof.
  intros Hdec. destruct image as [url context].
  unfold resolved, processOne, try_catch, processImage, SeparateFiles_processImage,
    try_catch, getBase64FromImageUrl, getBase64FromImg, getFileSizeFromBase64.
  destruct (generateImageId env context) as [id|]; cbn; [|done].
  destruct (env_loadImage env url) as [img|] eqn:Hload; cbn; [|done].
  destruct (env_canvas env img) as [| |d] eqn:Hcanvas; cbn; [done|done|].
  destruct (split 44 d !! 1) as [payload|] eqn:Hsplit; cbn; [|done].
  intros [= <-]. exists payload. split; [done|]. by eapply Hdec.
Qed.

Lemma collectFiles_ok (ps : list ProcessedImage) :
  Forall (λ p, ∀ od, originalData p = Some od →
               ∃ payload, split 44 od !! 1 = Some payload
                          ∧ is_Some (env_atob env payload)) ps →
  ∃ files, collectFiles env ps = Ok files.
Proof.
  induction 1 as [|p ps Hp _ [files IH]]; [by eexists|].
  cbn [collectFiles]. rewrite IH.
  destruct (originalData p) as [od|]; [|by eexists].
  destruct (fileName p) as [fn|]; [|by eexists].
  destruct (metadata p) as [md|]; [|by eexists].
  destruct (truthy od && truthy fn); [|by eexists].
  destruct (Hp od eq_refl) as (payload & Hpay & [bytes Hbytes]).
  unfold base64ToBlob. rewrite Hpay. cbn. rewrite Hbytes. cbn. by eexists.
Qed.

Lemma generateContent_ok (images : list (jsstring * ImageContext)) format :
  (strategy = separate_files → decodable env) →
  ∃ out, generateContentFromImages env strategy (resolved env strategy <$> images) format
         = Ok out.
Proof.
  intros Hdec. unfold generateContentFromImages.
  destruct (decide (strategy = separate_files)) as [->|]; [|by eexists].
  destruct (collectFiles_ok (resolved env separate_files <$> images)) as [files ->].
  - apply Forall_fmap, Forall_forall. intros image _ od. apply separate_payload. auto.
  - by eexists.
Qed.

(** The handler resolves, and with the images in the order of its
    input. *)
Lemma processConversationImages_resolves images format sched :
  sched ≡ₚ seq 0 (length images) →
  (strategy = separate_files → decodable env) →
  ∃ r, processConversationImages env strategy images format sched = Some (Ok r)
       ∧ processedImages r = resolved env strategy <$> images.
Proof.
  intros Hperm Hdec. unfold processConversationImages.
  rewrite processOne_fmap, Promise_all_fulfilled by (by rewrite length_fmap).
  cbn. destruct (generateContent_ok images format Hdec) as [[content files] ->].
  cbn. eexists. split; [done|]. done.
Qed.
End HandlerResult.

(** C1. For every list of extracted [(url, context)] pairs (in particular
    the one extracted from a conversation), every strategy and every
    order in which the per-image promises settle,
    [processConversationImages] resolves with a list [processedImages]
    of the same length as its input, whose i-th entry is what the
    callback made of the i-th pair. For the file strategy the payloads
    the canvas hands out are taken to decode. *)
Theorem processed_images_follow_extraction_order
    (env : Env) (strategy : ImageHandlingStrategy)
    (images : list (jsstring * ImageContext)) (format : Format) (sched : list nat) :
  sched ≡ₚ seq 0 (length images) →
  (strategy = separate_files → decodable env) →
  ∃ r, processConversationImages env strategy images format sched = Some (Ok r)
       ∧ length (processedImages r) = length images
       ∧ ∀ i, Ok <$> processedImages r !! i = processOne env strategy <$> images !! i.
Proof.
  intros Hperm Hdec.
  destruct (processConversationImages_resolves env strategy images format sched Hperm Hdec)
    as (r & Hr & Himgs).
  exists r. split; [done|]. rewrite Himgs. split; [by rewrite length_fmap|].
  intros i. rewrite list_lookup_fmap.
  destruct (images !! i) as [image|]; cbn; [|done].
  by rewrite processOne_resolved.
Qed.

Lemma processed_images_follow_extraction_order_witness :
  ∃ r, processConversationImages Sample.env separate_files Sample.images markdown [1; 0]
       = Some (Ok r)
       ∧ length (processedImages r) = length Sample.images
       ∧ ∀ i, Ok <$> processedImages r !! i
              = processOne Sample.env separate_files <$> Sample.images !! i.
Proof.
  apply processed_images_follow_extraction_order.
  - change (seq 0 (length Sample.images)) with [0; 1]. apply perm_swap.
  - intros _ url img d payload _ _ _. by eexists.
Defined.

(** A failed image in the handler. When processing the image at index
    [i] fails (the image does not load, the canvas is tainted or
    returns no payload, or the strategy throws) and, for the file
    strategy, the payloads decode, [processConversationImages] still
    resolves with a list as long as its input; the entry at [i] has the
    content [[Image Processing Failed]]; every entry, before and after
    [i], is the result for the pair at the same index; and a reference
    to global index [i] shows the failure marker. Which index a message
    is rendered with is the matter of the next theorem. *)
Theorem failed_image_keeps_its_place
    (env : Env) (strategy : ImageHandlingStrategy)
    (images : list (jsstring * ImageContext)) (format : Format) (sched : list nat)
    (i : nat) (url : jsstring) (context : ImageContext) :
  sched ≡ₚ seq 0 (length images) →
  (strategy = separate_files → decodable env) →
  images !! i = Some (url, context) →
  processingFails env strategy url context →
  ∃ r, processConversationImages env strategy images format sched = Some (Ok r)
       ∧ length (processedImages r) = length images
       ∧ (∃ p, processedImages r !! i = Some p
               ∧ content p = js "[Image Processing Failed]")
       ∧ (∀ j, Ok <$> processedImages r !! j = processOne env strategy <$> images !! j)
       ∧ Markdown.imageRef (processedImages r) i = js "![image]([Image Processing Failed])"
       ∧ Html.imageRef (processedImages r) i
         = js "<img src=" ++ [Html.DQUOTE] ++ js "[Image Processing Failed]"
           ++ [Html.DQUOTE] ++ js " />".
Proof.
  intros Hperm Hdec Hi Hfail.
  destruct (processConversationImages_resolves env strategy images format sched Hperm Hdec)
    as (r & Hr & Himgs).
  assert (Hp : processedImages r !! i = Some (resolved env strategy (url, context))).
  { by rewrite Himgs, list_lookup_fmap, Hi. }
  pose proof (failed_content env strategy url context Hfail) as Hc.
  exists r. split; [done|]. split; [by rewrite Himgs, length_fmap|].
  split; [eauto|]. split.
  { intros j. rewrite Himgs, list_lookup_fmap.
    destruct (images !! j) as [image|]; cbn; [|done].
    by rewrite processOne_resolved. }
  unfold Markdown.imageRef, Html.imageRef. rewrite Hp, Hc. done.
Qed.

Lemma failed_image_keeps_its_place_witness :
  ∃ r, processConversationImages Sample.env separate_files Sample.images markdown [1; 0]
       = Some (Ok r)
       ∧ length (processedImages r) = length Sample.images
       ∧ (∃ p, processedImages r !! 1 = Some p
               ∧ content p = js "[Image Processing Failed]")
       ∧ (∀ j, Ok <$> processedImages r !! j
               = processOne Sample.env separate_files <$> Sample.images !! j)
       ∧ Markdown.imageRef (processedImages r) 1 = js "![image]([Image Processing Failed])"
       ∧ Html.imageRef (processedImages r) 1
         = js "<img src=" ++ [Html.DQUOTE] ++ js "[Image Processing Failed]"
           ++ [Html.DQUOTE] ++ js " />".
Proof.
  eapply (failed_image_keeps_its_place Sample.env separate_files Sample.images markdown
            [1; 0] 1).
  - change (seq 0 (length Sample.images)) with [0; 1]. apply perm_swap.
  - intros _ url img d payload _ _ _. by eexists.
  - vm_compute. reflexivity.
  - right. split; [done|]. eexists. vm_compute. reflexivity.
Defined.

(** C4. The failure of one image is not always shown at its place, and
    can abort the batch. In [Sample.routedGone] the first message is
    addressed to a tool and carries an image that loads; the image of
    the second message does not load. The handler resolves with two
    images, the second with the content [[Image Processing Failed]].
    The loop skips the first message without counting its image, so
    the second message is rendered with start index 0: in both
    renderers it shows the image of the first message, and the Markdown
    document holds no failure marker at all. Under the file strategy a
    payload that [atob] refuses is not caught for the one image:
    [base64ToBlob] runs after the per-image [try], and both the batch
    and the export reject. *)
Theorem failure_marker_misses_its_place :
  messageId ∘ snd <$> Markdown.extractImagesFromConversation Sample.routedGone
  = [js "m1"; js "m2"]
  ∧ Sample.exported
      (processConversationImages Sample.env embed_base64
         (Markdown.extractImagesFromConversation Sample.routedGone) markdown [1; 0])
    = Some ([None; None],
            [js "data:image/png;base64,iVBORw0KGgo="; js "[Image Processing Failed]"],
            None)
  ∧ Markdown.renderLoop (λ m _ imageStartIndex, (msg_id m, imageStartIndex))
      (conversationNodes Sample.routedGone) 0
    = [(Some (js "m2"), 0)]
  ∧ Markdown.conversationToMarkdown Sample.env embed_base64 (λ s, s) (λ _, []) []
      [1; 0] Sample.routedGone
    = Some (Ok (js "# Chat" ++ [LF; LF] ++ js "#### You:" ++ [LF]
                ++ js "![image](data:image/png;base64,iVBORw0KGgo=)", [], None))
  ∧ Html.renderLoop
      (λ m c imageStartIndex,
         Html.transformContent c (msg_metadata m) (Html.postProcess (λ s, s) m)
           (processedFor Sample.env embed_base64 Sample.routedGone) imageStartIndex)
      (conversationNodes Sample.routedGone) 0
    = [js "<img src=" ++ [Html.DQUOTE] ++ js "data:image/png;base64,iVBORw0KGgo="
       ++ [Html.DQUOTE] ++ js " />"]
  ∧ processConversationImages Sample.undecodable separate_files Sample.images markdown [1; 0]
    = Some (Throw InvalidCharacterError)
  ∧ Markdown.conversationToMarkdown Sample.undecodable separate_files (λ s, s) (λ _, []) []
      [1; 0] Sample.twoUploads
    = Some (Throw InvalidCharacterError).
Proof. repeat split; vm_compute; reflexivity. Qed.

(* --------------------------------------------------------------------- *)
(** ** Extraction and the running image index *)
(* --------------------------------------------------------------------- *)

(** C2. The running counter of the renderer is not kept in step with
    the extraction. In [Sample.routed] the first message is addressed
    to a tool and carries an image: the extraction lists two images
    (of [m1] and of [m2]), the loop skips [m1] without counting its
    image, so [m2] is rendered with start index 0 and shows the image
    processed for [m1]. In [Sample.emptyPointer] the message counts one
    image and the extraction lists none. *)
Theorem start_index_drifts :
  (messageId ∘ snd <$> Markdown.extractImagesFromConversation Sample.routed
     = [js "m1"; js "m2"]
   ∧ Markdown.renderLoop (λ m _ imageStartIndex, (msg_id m, imageStartIndex))
       (conversationNodes Sample.routed) 0
     = [(Some (js "m2"), 0)]
   ∧ Markdown.renderLoop (Markdown.messageEntry (λ s, s) (λ _, []) [Sample.pa; Sample.pb])
       (conversationNodes Sample.routed) 0
     = [js "#### You:" ++ [LF] ++ js "![image](A.png)"])
  ∧ (Markdown.extractImagesFromConversation Sample.emptyPointer = []
     ∧ Markdown.countImagesInMessage <$> Sample.messagesOf Sample.emptyPointer = [1]).
Proof. repeat split; vm_compute; reflexivity. Qed.

Lemma extractAggregate_length cid mid a t cid' mid' a' t' msgs : ∀ i i',
  length (Markdown.extractAggregate cid mid a t msgs i)
  = length (Markdown.extractAggregate cid' mid' a' t' msgs i').
Proof.
  induction msgs as [|msg msgs IH]; intros i i'; [done|].
  cbn [Markdown.extractAggregate].
  destruct (image_url msg) as [url|]; [|apply IH].
  destruct (isImageMessage msg && truthy url); [|apply IH].
  cbn [length]. f_equal. apply IH.
Qed.

Lemma extractParts_length cid mid a t cid' mid' a' t' parts : ∀ i i',
  length (Markdown.extractParts cid mid a t parts i)
  = length (Markdown.extractParts cid' mid' a' t' parts i').
Proof.
  induction parts as [|part parts IH]; intros i i'; [done|].
  cbn [Markdown.extractParts].
  destruct part as [s|ct [ap|] text]; [apply IH| |apply IH].
  destruct (isImagePart (PObject ct (Some ap) text) && truthy ap); [|apply IH].
  cbn [length]. f_equal. apply IH.
Qed.

Lemma extractNode_length cid k node :
  length (Markdown.extractNode cid k node) = extractedCount node.
Proof.
  unfold extractedCount, Markdown.extractNode.
  destruct (message node) as [m|]; [|done].
  destruct (msg_content m) as [c|]; [|done].
  destruct c as [| | | | | |[parts|]|]; try done;
    try (destruct (aggregateMessagesOf m); [apply extractAggregate_length|done]).
  apply extractParts_length.
Qed.

(** The extractor lists, in all, what it lists node by node. *)
Lemma extractImages_length conversation :
  length (Markdown.extractImagesFromConversation conversation)
  = sum_list (extractedCount <$> conversationNodes conversation).
Proof.
  unfold Markdown.extractImagesFromConversation.
  assert (H : ∀ (nodes : list Node) (g : nat → Node → list (jsstring * ImageContext)),
            (∀ k node, length (g k node) = extractedCount node) →
            length (mjoin (imap g nodes)) = sum_list (extractedCount <$> nodes)).
  { induction nodes as [|node nodes IH]; intros g Hg; [done|].
    cbn. rewrite length_app, Hg. f_equal. apply IH. intros k n. apply Hg. }
  apply H. intros k node. apply extractNode_length.
Qed.

(** Where the loop and the extractor are in step, every rendered
    message starts at the number of images extracted before it. *)
Lemma start_index_in_step nodes : ∀ start,
  inStep nodes →
  Markdown.renderLoop (λ m _ imageStartIndex, (m, imageStartIndex)) nodes start
  = expectedStarts nodes start.
Proof.
  induction nodes as [|node nodes IH]; intros start Hstep; [done|].
  assert (Hrest : inStep nodes).
  { intros n m c Hn. apply Hstep. by right. }
  cbn [Markdown.renderLoop expectedStarts].
  destruct (message node) as [m|] eqn:Hm.
  - destruct (msg_content m) as [c|] eqn:Hc.
    + destruct (Hstep node m c) as [-> ->]; [by left|done|done|]. by rewrite IH.
    + assert (extractedCount node = 0) as ->.
      { unfold extractedCount, Markdown.extractNode. by rewrite Hm, Hc. }
      rewrite Nat.add_0_r. by apply IH.
  - assert (extractedCount node = 0) as ->.
    { unfold extractedCount, Markdown.extractNode. by rewrite Hm. }
    rewrite Nat.add_0_r. by apply IH.
Qed.

(** C3. The two extractors differ on an image part whose pointer is the
    empty string: the one of markdown.ts tests the pointer for
    truthiness and leaves the part out, the one of html.ts tests that
    the field is there and lists it. *)
Theorem extractors_differ_on_empty_pointer :
  Markdown.extractImagesFromConversation Sample.emptyPointer = []
  ∧ fst <$> Html.extractImagesFromConversation Sample.emptyPointer = [[]].
Proof. split; vm_compute; reflexivity. Qed.

Lemma extractAggregate_same cid mid a t msgs i :
  Html.extractAggregate cid mid a t msgs i = Markdown.extractAggregate cid mid a t msgs i.
Proof. revert i. induction msgs as [|msg msgs IH]; intros i; cbn; [done|]. by rewrite !IH. Qed.

Lemma extractParts_same cid mid a t parts i :
  (∀ ct ap text, PObject ct (Some ap) text ∈ parts → ct = js "image_asset_pointer" → ap ≠ []) →
  Html.extractParts cid mid a t parts i = Markdown.extractParts cid mid a t parts i.
Proof.
  revert i. induction parts as [|part parts IH]; intros i Hp; [done|].
  assert (Hrest : ∀ j, Html.extractParts cid mid a t parts j
                       = Markdown.extractParts cid mid a t parts j).
  { intros j. apply IH. intros ct ap text Hin. apply (Hp ct ap text). by right. }
  cbn. destruct part as [s|ct [ap|] text]; [done| |done].
  unfold isImagePart, jseqb. case_bool_decide as Hct; cbn; [|done].
  assert (truthy ap = true) as ->.
  { specialize (Hp ct ap text (list_elem_of_here _ _) Hct). by destruct ap. }
  by rewrite Hrest.
Qed.

Lemma extractors_agree conversation :
  pointersPresent conversation →
  Html.extractImagesFromConversation conversation
  = Markdown.extractImagesFromConversation conversation.
Proof.
  intros Hp. unfold Html.extractImagesFromConversation, Markdown.extractImagesFromConversation.
  f_equal. apply imap_ext. intros i node Hnode.
  unfold Html.extractNode, Markdown.extractNode.
  destruct (message node) as [m|] eqn:Hm; [|done].
  destruct (msg_content m) as [c|] eqn:Hc; [|done].
  destruct c as [| | | | | |[parts|]|]; try done;
    try (destruct (aggregateMessagesOf m); [apply extractAggregate_same|done]).
  apply extractParts_same. intros ct ap text Hin Hct.
  eapply Hp; eauto. by eapply list_elem_of_lookup_2.
Qed.

(* --------------------------------------------------------------------- *)
(** ** Which content is post-processed *)
(* --------------------------------------------------------------------- *)

(** Against C8 as stated. With a post-processing step that returns [#]
    whatever it is given, the fragments of a quote, of a link list and
    of an execution output come out as [#] in both renderers: they are
    run through [postProcess]. *)
Lemma quotes_and_results_are_post_processed :
  Markdown.transformContent (CTetherQuote (Some (js "Title")) None) None (λ _, js "#") [] 0
    = js "#"
  ∧ Html.transformContent (CTetherQuote (Some (js "Title")) None) None (λ _, js "#") [] 0
    = js "#"
  ∧ Markdown.transformContent CTetherBrowsingDisplay None (λ _, js "#") [] 0 = js "#"
  ∧ Html.transformContent CTetherBrowsingDisplay None (λ _, js "#") [] 0 = js "#"
  ∧ Markdown.transformContent (CExecutionOutput (js "42")) None (λ _, js "#") [] 0 = js "#"
  ∧ Html.transformContent (CExecutionOutput (js "42")) None (λ _, js "#") [] 0 = js "#"
  ∧ Markdown.transformContent (CTetherQuote (Some (js "Title")) None) None (λ s, s) [] 0
    = js "> Title".
Proof. repeat split; vm_compute; reflexivity. Qed.

(** C8, as the code has it. Only the fragment of [code] content is
    built without [postProcess]; the block quote of [tether_quote], the
    link list of [tether_browsing_display] and the fenced output of
    [execution_output] (with its image references) are handed to
    [postProcess], in both renderers. *)
Theorem only_code_bypasses_postProcess
    (postProcess : jsstring → jsstring) (metadata : option MessageMetadata)
    (processedImages : list ProcessedImage) (imageStartIndex : nat) :
  (∀ text,
     Markdown.transformContent (CCode text) metadata postProcess processedImages imageStartIndex
       = js "Code:" ++ [LF] ++ js "```" ++ [LF] ++ text ++ [LF] ++ js "```"
     ∧ Html.transformContent (CCode text) metadata postProcess processedImages imageStartIndex
       = js "Code:" ++ [LF] ++ js "```" ++ [LF] ++ text ++ [LF] ++ js "```")
  ∧ (∀ title text, ∃ quote,
       Markdown.transformContent (CTetherQuote title text) metadata postProcess
         processedImages imageStartIndex = postProcess (js "> " ++ quote)
       ∧ Html.transformContent (CTetherQuote title text) metadata postProcess
         processedImages imageStartIndex = postProcess (js "> " ++ quote))
  ∧ (∃ links,
       Markdown.transformContent CTetherBrowsingDisplay metadata postProcess
         processedImages imageStartIndex = postProcess links
       ∧ Html.transformContent CTetherBrowsingDisplay metadata postProcess
         processedImages imageStartIndex = postProcess links)
  ∧ (∀ text, ∃ imagesMd imagesHtml,
       Markdown.transformContent (CExecutionOutput text) metadata postProcess
         processedImages imageStartIndex
         = postProcess (js "Result:" ++ [LF] ++ js "```" ++ [LF] ++ text ++ [LF] ++ js "```"
                        ++ imagesMd)
       ∧ Html.transformContent (CExecutionOutput text) metadata postProcess
         processedImages imageStartIndex
         = postProcess (js "Result:" ++ [LF] ++ js "```" ++ [LF] ++ text ++ [LF] ++ js "```"
                        ++ imagesHtml)).
Proof.
  split; [|split; [|split]].
  - intros text. split; reflexivity.
  - intros title text. eexists. split; reflexivity.
  - cbn. destruct (metadata ≫= metadata_list) as [[|l ls]|]; eexists; split; reflexivity.
  - intros text. cbn [Markdown.transformContent Html.transformContent].
    assert (Hplain : ∀ label, Markdown.fence label text
              = label ++ js ":" ++ [LF] ++ js "```" ++ [LF] ++ text ++ [LF] ++ js "```" ++ [])
      by (intros; unfold Markdown.fence; by rewrite app_nil_r).
    destruct (metadata ≫= aggregate_messages) as [msgs|].
    + destruct (filter _ msgs) as [|m ms].
      * exists [], []. split; apply (f_equal postProcess), Hplain.
      * eexists _, _. unfold Markdown.fence, Html.fence.
        split; apply (f_equal postProcess); rewrite <- !app_assoc; reflexivity.
    + exists [], []. split; apply (f_equal postProcess), Hplain.
Qed.

(* --------------------------------------------------------------------- *)
(** ** File names in a batch export *)
(* --------------------------------------------------------------------- *)

Lemma uint_digits_inj u u' : uint_digits u = uint_digits u' → u = u'.
Proof.
  revert u'. induction u; intros []; cbn; intros H; try discriminate; try done;
    injection H as H; f_equal; auto.
Qed.

Lemma toString_inj n m : toString n = toString m → n = m.
Proof.
  unfold toString. intros H%uint_digits_inj.
  rewrite <- (Unsigned.of_to n), <- (Unsigned.of_to m). by rewrite H.
Qed.

Lemma occurrences_snoc n l x :
  occurrences n (l ++ [x]) = occurrences n l + (if decide (x = n) then 1 else 0).
Proof.
  unfold occurrences. rewrite filter_app, length_app. f_equal.
  rewrite filter_cons. destruct (decide (x = n)); done.
Qed.

Lemma counts_step_md m seen fileName :
  counts m seen →
  counts (match m !! fileName with
          | Some count => <[fileName := count + 1]> m
          | None => <[fileName := 1]> m
          end) (seen ++ [fileName]).
Proof.
  intros Hm n. rewrite occurrences_snoc. specialize (Hm fileName) as Hf.
  destruct (decide (fileName = n)) as [->|Hne].
  - destruct (m !! n) as [count|]; rewrite lookup_insert_eq;
      destruct (occurrences n seen); simplify_eq; try done.
  - replace (occurrences n seen + 0) with (occurrences n seen) by lia.
    destruct (m !! fileName); rewrite lookup_insert_ne by done; apply Hm.
Qed.

Lemma archiveNames_md_lookup names : ∀ m seen i fileName,
  counts m seen →
  names !! i = Some fileName →
  Markdown.archiveNames names m !! i
  = Some (numbered 3 (js "md") fileName (occurrences fileName (seen ++ take i names))).
Proof.
  induction names as [|n0 names IH]; intros m seen i fileName Hm Hi; [done|].
  pose proof (counts_step_md m seen n0 Hm) as Hstep.
  destruct i as [|i]; cbn in Hi.
  - injection Hi as ->. cbn [take]. rewrite app_nil_r.
    cbn [Markdown.archiveNames]. rewrite (Hm fileName).
    destruct (occurrences fileName seen); done.
  - cbn [take]. rewrite (cons_middle n0), app_assoc.
    cbn [Markdown.archiveNames].
    destruct (m !! n0); cbn [lookup list_lookup]; by apply IH.
Qed.

Lemma archiveNames_html_lookup names : ∀ m seen i fileName,
  counts m seen →
  names !! i = Some fileName →
  Html.archiveNames names m !! i
  = Some (numbered 5 (js "html") fileName (occurrences fileName (seen ++ take i names))).
Proof.
  induction names as [|n0 names IH]; intros m seen i fileName Hm Hi; [done|].
  pose proof (counts_step_md m seen n0 Hm) as Hstep.
  destruct i as [|i]; cbn in Hi.
  - injection Hi as ->. cbn [take]. rewrite app_nil_r.
    cbn [Html.archiveNames]. rewrite (Hm fileName).
    destruct (occurrences fileName seen); done.
  - cbn [take]. rewrite (cons_middle n0), app_assoc.
    cbn [Html.archiveNames].
    destruct (m !! n0); cbn [lookup list_lookup]; by apply IH.
Qed.

Lemma counts_empty : counts ∅ [].
Proof. intros n. by rewrite lookup_empty. Qed.

Lemma numbered_md base k :
  numbered 3 (js "md") (base ++ js ".md") k
  = match k with
    | 0 => base ++ js ".md"
    | S k' => base ++ js " (" ++ toString (S k') ++ js ").md"
    end.
Proof.
  destruct k as [|k']; [reflexivity|]. unfold numbered, slice_to_minus.
  rewrite length_app. change (length (js ".md")) with 3.
  replace (length base + 3 - 3) with (length base) by lia.
  rewrite take_app_length. reflexivity.
Qed.

Lemma numbered_html base k :
  numbered 5 (js "html") (base ++ js ".html") k
  = match k with
    | 0 => base ++ js ".html"
    | S k' => base ++ js " (" ++ toString (S k') ++ js ").html"
    end.
Proof.
  destruct k as [|k']; [reflexivity|]. unfold numbered, slice_to_minus.
  rewrite length_app. change (length (js ".html")) with 5.
  replace (length base + 5 - 5) with (length base) by lia.
  rewrite take_app_length. reflexivity.
Qed.

Lemma numbered_md_inj base k k' :
  k ≠ k' →
  numbered 3 (js "md") (base ++ js ".md") k ≠ numbered 3 (js "md") (base ++ js ".md") k'.
Proof.
  intros Hne. rewrite !numbered_md.
  destruct k, k'; try done; intros H%app_inv_head; try discriminate.
  change (js ").md") with (js ")" ++ js ".md") in H.
  apply app_inv_head, app_inv_tail, toString_inj in H. done.
Qed.

Lemma numbered_html_inj base k k' :
  k ≠ k' →
  numbered 5 (js "html") (base ++ js ".html") k
  ≠ numbered 5 (js "html") (base ++ js ".html") k'.
Proof.
  intros Hne. rewrite !numbered_html.
  destruct k, k'; try done; intros H%app_inv_head; try discriminate.
  apply app_inv_head, app_inv_tail, toString_inj in H. done.
Qed.

Lemma occurrences_lt fileName (names : list jsstring) i j :
  i < j → names !! i = Some fileName →
  occurrences fileName (take i names) < occurrences fileName (take j names).
Proof.
  intros Hij Hi. unfold occurrences.
  rewrite <- (take_drop i (take j names)), take_take, Nat.min_l by lia.
  rewrite filter_app, length_app.
  rewrite skipn_firstn_comm.
  rewrite (drop_S names fileName i Hi).
  destruct (j - i) as [|d] eqn:E; [lia|]. cbn [take]. rewrite filter_cons.
  rewrite decide_True by done. cbn. lia.
Qed.

(** C9. In a batch export, a conversation whose computed file name
    [base.md] (or [base.html]) was computed [k] times before gets the
    name itself when [k = 0] and [base (k).md] otherwise: the second
    gets [(1)], the third [(2)], and so on. Two conversations with the
    same computed name never get the same archive name. *)
Theorem archive_names_are_counted {C : Type}
    (getFileNameWithFormat : jsstring → jsstring → C → jsstring)
    (fileNameFormat : jsstring) (conversations : list C)
    (i : nat) (conversation : C) (base : jsstring) :
  conversations !! i = Some conversation →
  getFileNameWithFormat fileNameFormat (js "md") conversation = base ++ js ".md" →
  getFileNameWithFormat fileNameFormat (js "html") conversation = base ++ js ".html" →
  let md := (λ c, getFileNameWithFormat fileNameFormat (js "md") c) <$> conversations in
  let html := (λ c, getFileNameWithFormat fileNameFormat (js "html") c) <$> conversations in
  Markdown.exportAllToMarkdown_fileNames getFileNameWithFormat fileNameFormat conversations !! i
    = Some (match occurrences (base ++ js ".md") (take i md) with
            | 0 => base ++ js ".md"
            | k => base ++ js " (" ++ toString k ++ js ").md"
            end)
  ∧ Html.exportAllToHtml_fileNames getFileNameWithFormat fileNameFormat conversations !! i
    = Some (match occurrences (base ++ js ".html") (take i html) with
            | 0 => base ++ js ".html"
            | k => base ++ js " (" ++ toString k ++ js ").html"
            end)
  ∧ ∀ j, j < i →
      md !! j = Some (base ++ js ".md") →
      html !! j = Some (base ++ js ".html") →
      Markdown.exportAllToMarkdown_fileNames getFileNameWithFormat fileNameFormat conversations !! j
        ≠ Markdown.exportAllToMarkdown_fileNames getFileNameWithFormat fileNameFormat conversations !! i
      ∧ Html.exportAllToHtml_fileNames getFileNameWithFormat fileNameFormat conversations !! j
        ≠ Html.exportAllToHtml_fileNames getFileNameWithFormat fileNameFormat conversations !! i.
Proof.
  intros Hi Hmd Hhtml md html.
  assert (Hmi : md !! i = Some (base ++ js ".md")).
  { unfold md. by rewrite list_lookup_fmap, Hi, <- Hmd. }
  assert (Hhi : html !! i = Some (base ++ js ".html")).
  { unfold html. by rewrite list_lookup_fmap, Hi, <- Hhtml. }
  unfold Markdown.exportAllToMarkdown_fileNames, Html.exportAllToHtml_fileNames.
  fold md html.
  rewrite (archiveNames_md_lookup md ∅ [] i _ counts_empty Hmi).
  rewrite (archiveNames_html_lookup html ∅ [] i _ counts_empty Hhi).
  cbn [app].
  split; [|split].
  - f_equal. apply numbered_md.
  - f_equal. apply numbered_html.
  - intros j Hj Hmj Hhj.
    rewrite (archiveNames_md_lookup md ∅ [] j _ counts_empty Hmj).
    rewrite (archiveNames_html_lookup html ∅ [] j _ counts_empty Hhj).
    cbn [app].
    pose proof (occurrences_lt _ md j i Hj Hmj) as Lmd.
    pose proof (occurrences_lt _ html j i Hj Hhj) as Lhtml.
    split; intros H'; apply (inj Some) in H'; revert H'.
    + apply numbered_md_inj. lia.
    + apply numbered_html_inj. lia.
Qed.

Lemma archive_names_are_counted_witness :
  Markdown.exportAllToMarkdown_fileNames Sample.nameOf (js "ChatGPT-") [js "a"; js "a"; js "b"; js "a"] !! 3
  = Some (js "ChatGPT-a (2).md").
Proof.
  pose proof (archive_names_are_counted Sample.nameOf (js "ChatGPT-") [js "a"; js "a"; js "b"; js "a"]
                3 (js "a") (js "ChatGPT-a") eq_refl eq_refl eq_refl) as [H _].
  exact H.
Defined.

(* --------------------------------------------------------------------- *)
(** ** File names of extracted images *)
(* --------------------------------------------------------------------- *)

(** C10. The file name of the file strategy is a function of the
    author, the index of the image in its message and the extension:
    neither the message id nor the global index enters. Two images with
    the same author, the same index in their message and the same MIME
    type therefore get one file name and one path [images/<fileName>].
    [Sample.twoUploads] is such a conversation: its two images sit in
    the messages [m1] and [m2], both uploaded by the user and both
    first in their message, and both export files have the path
    [images/user-upload-000.png]. *)
Theorem separate_files_names_collide :
  (∀ env c1 c2 extension,
     author c1 = author c2 → imageIndex c1 = imageIndex c2 →
     generateImageFileName env c1 extension = generateImageFileName env c2 extension)
  ∧ (∀ env url1 c1 url2 c2 p1 p2 f1 f2,
       author c1 = author c2 → imageIndex c1 = imageIndex c2 →
       getMimeType env url1 = getMimeType env url2 →
       SeparateFiles_processImage env url1 c1 = Ok p1 →
       SeparateFiles_processImage env url2 c2 = Ok p2 →
       fileName p1 = Some f1 → fileName p2 = Some f2 →
       f1 = f2 ∧ content p1 = js "images/" ++ f1 ∧ content p2 = js "images/" ++ f1)
  ∧ ((λ x, (x.1, messageId x.2, author x.2, imageIndex x.2))
       <$> Markdown.extractImagesFromConversation Sample.twoUploads
     = [(js "https://files/a.png", js "m1", Some Sample.user, 0);
        (js "https://files/b.png", js "m2", Some Sample.user, 0)]
     ∧ Sample.exported
         (processConversationImages Sample.env separate_files
            (Markdown.extractImagesFromConversation Sample.twoUploads) markdown [0; 1])
       = Some ([Some (js "user-upload-000.png"); Some (js "user-upload-000.png")],
               [js "images/user-upload-000.png"; js "images/user-upload-000.png"],
               Some [js "images/user-upload-000.png"; js "images/user-upload-000.png"])).
Proof.
  split; [|split].
  - intros env c1 c2 extension Ha Hi. unfold generateImageFileName. by rewrite Ha, Hi.
  - intros env url1 c1 url2 c2 p1 p2 f1 f2 Ha Hi Hm.
    unfold SeparateFiles_processImage, try_catch.
    destruct (generateImageId env c1) as [id1|]; cbn; [|done].
    destruct (generateImageId env c2) as [id2|]; cbn; [|done].
    destruct (getBase64FromImageUrl env url1) as [d1|]; cbn;
      [destruct (getFileSizeFromBase64 d1); cbn|];
      (destruct (getBase64FromImageUrl env url2) as [d2|]; cbn;
       [destruct (getFileSizeFromBase64 d2); cbn|]);
      intros [= <-] [= <-]; cbn; try done.
    intros [= <-] [= <-]. unfold generateImageFileName, createImageRelativePath.
    by rewrite Ha, Hi, Hm.
  - split; vm_compute; reflexivity.
Qed.

(* --------------------------------------------------------------------- *)
(** ** The matcher *)
(* --------------------------------------------------------------------- *)

Section RegexFacts.

Lemma after_cons prev c m : after prev (c :: m) = after (Some c) m.
Proof.
  unfold after. destruct m as [|c' m]; [done|].
  change (last (c :: c' :: m)) with (last (c' :: m)).
  destruct (last (c' :: m)) eqn:E; [done|]. by apply last_None in E.
Qed.

Lemma after_nil prev : after prev [] = prev.
Proof. done. Qed.

Lemma after_app prev m1 m2 : after prev (m1 ++ m2) = after (after prev m1) m2.
Proof.
  revert prev. induction m1 as [|c m1 IH]; intros prev; [done|].
  cbn [app]. by rewrite !after_cons, IH.
Qed.

(** *** One step of the matcher *)

Lemma run_chr_hit {R} c prev s caps (k : @kont R) :
  run (chr c) prev (c :: s) caps k = k (Some c) s caps.
Proof. cbn. by rewrite N.eqb_refl. Qed.

Lemma run_chr_miss {R} c c' prev s caps (k : @kont R) :
  c ≠ c' → run (chr c) prev (c' :: s) caps k = None.
Proof. intros Hne. cbn. by apply N.eqb_neq in Hne as ->. Qed.

Lemma run_chr_nil {R} c prev caps (k : @kont R) :
  run (chr c) prev [] caps k = None.
Proof. done. Qed.

(** A greedy repetition followed by something that accepts after the
    longest run of [p] stops there. *)
Lemma more_greedy {R} p (k : @kont R) caps ds : ∀ prev rest res,
  Forall (λ c, p c = true) ds →
  k (after prev ds) rest caps = Some res →
  match rest with [] => True | c :: _ => p c = false end →
  more true p k caps prev (ds ++ rest) = Some res.
Proof.
  induction ds as [|d ds IH]; intros prev rest res Hds Hk Hrest.
  - cbn [app]. destruct rest as [|c rest]; [done|]. cbn. by rewrite Hrest.
  - apply Forall_cons in Hds as [Hd Hds]. cbn [app more]. rewrite Hd.
    rewrite after_cons in Hk.
    by rewrite (IH (Some d) rest res Hds Hk Hrest).
Qed.

(** A lazy repetition stops at the first place where what follows
    accepts. *)
Lemma more_lazy {R} p (k : @kont R) caps l : ∀ prev rest res,
  Forall (λ c, p c = true) l →
  (∀ l1 l2, l = l1 ++ l2 → l2 ≠ [] → k (after prev l1) (l2 ++ rest) caps = None) →
  k (after prev l) rest caps = Some res →
  more false p k caps prev (l ++ rest) = Some res.
Proof.
  induction l as [|c l IH]; intros prev rest res Hl Hfail Hk.
  - cbn [app]. rewrite after_nil in Hk. destruct rest as [|c rest]; [done|]. cbn.
    rewrite Hk. by destruct (p c).
  - apply Forall_cons in Hl as [Hc Hl]. cbn [app more]. rewrite Hc.
    pose proof (Hfail [] (c :: l) eq_refl) as H0. rewrite after_nil in H0.
    cbn [app] in H0. rewrite H0 by done.
    rewrite after_cons in Hk. apply IH; [done| |done].
    intros l1 l2 -> Hl2. rewrite <- (after_cons prev).
    by apply (Hfail (c :: l1) l2).
Qed.

(** *** Patterns without anchors do not look behind *)

Lemma more_prev {R} g p (k k' : @kont R) caps s : ∀ prev prev',
  (∀ q q' t cs, k q t cs = k' q' t cs) →
  more g p k caps prev s = more g p k' caps prev' s.
Proof.
  induction s as [|c s IH]; intros prev prev' Hk; cbn; [apply Hk|].
  destruct (p c); [|apply Hk].
  rewrite (IH (Some c) (Some c) Hk), (Hk prev prev'). done.
Qed.

Lemma run_prev {R} r : ∀ prev prev' s caps (k k' : @kont R),
  anchorFree r = true →
  (∀ q q' t cs, k q t cs = k' q' t cs) →
  run r prev s caps k = run r prev' s caps k'.
Proof.
  induction r as [|p| | |r1 IH1 r2 IH2|r1 IH1 r2 IH2|g p|n r1 IH1];
    intros prev prev' s caps k k' Hr Hk; cbn in *.
  - apply Hk.
  - destruct s as [|c s]; [done|]. destruct (p c); [apply Hk|done].
  - done.
  - done.
  - apply andb_prop in Hr as [H1 H2]. apply IH1; [done|].
    intros. by apply IH2.
  - apply andb_prop in Hr as [H1 H2].
    rewrite (IH1 prev prev' s caps k k' H1 Hk), (IH2 prev prev' s caps k k' H2 Hk). done.
  - destruct s as [|c s]; [done|]. destruct (p c); [|done]. by apply more_prev.
  - apply IH1; [done|]. intros. apply Hk.
Qed.

Lemma exec_here_prev r prev prev' s :
  anchorFree r = true → exec_here r prev s = exec_here r prev' s.
Proof. intros Hr. unfold exec_here. by apply run_prev. Qed.

Lemma scan_prev r s : ∀ prev prev' skip,
  anchorFree r = true → scan r prev s skip = scan r prev' s skip.
Proof.
  intros prev prev' skip Hr. revert prev prev' skip.
  induction s as [|c s IH]; intros prev prev' skip; cbn [scan].
  - by rewrite (exec_here_prev r prev prev').
  - destruct skip; [|done]. by rewrite (exec_here_prev r prev prev').
Qed.

(** *** The scan *)

Lemma scan_skip r m : ∀ prev rest,
  scan r prev (m ++ rest) (length m) = scan r (after prev m) rest 0.
Proof.
  induction m as [|c m IH]; intros prev rest; [done|].
  cbn [app length scan]. by rewrite IH, after_cons.
Qed.

Lemma scan_keeps r pre : ∀ prev rest,
  (∀ q c s, c ∈ pre → exec_here r q (c :: s) = None) →
  scan r prev (pre ++ rest) 0 = (Keep <$> pre) ++ scan r (after prev pre) rest 0.
Proof.
  induction pre as [|c pre IH]; intros prev rest Hpre; [done|].
  cbn [app scan fmap list_fmap]. rewrite Hpre by left.
  rewrite IH, after_cons; [done|]. intros q c' s Hc'. apply Hpre. by right.
Qed.

Lemma scan_hit r m prev rest caps :
  m ≠ [] →
  exec_here r prev (m ++ rest) = Some (length m, caps) →
  scan r prev (m ++ rest) 0 = Hit m caps :: scan r (after prev m) rest 0.
Proof.
  destruct m as [|c m]; [done|]. intros _ Hexec.
  cbn [app scan] in *. rewrite Hexec. cbn [length].
  rewrite scan_skip, after_cons. f_equal.
  change (c :: m ++ rest) with ((c :: m) ++ rest).
  by rewrite (take_app_length (c :: m)).
Qed.

(** *** Rendering *)

Lemma render_app fn ps1 : ∀ idx ps2,
  Forall (λ p, match p with Keep _ => True | Hit _ _ => False end) ps1 →
  render fn idx (ps1 ++ ps2)
  = omap (λ p, match p with Keep c => Some c | Hit _ _ => None end) ps1
    ++ render fn idx ps2.
Proof.
  induction ps1 as [|[c|m caps] ps1 IH]; intros idx ps2 H; [done| |].
  - apply Forall_cons in H as [_ H]. cbn. by rewrite IH.
  - by apply Forall_cons in H as [[] _].
Qed.

Lemma render_keeps fn idx (pre : jsstring) ps :
  render fn idx ((Keep <$> pre) ++ ps) = pre ++ render fn idx ps.
Proof. induction pre as [|c pre IH]; [done|]. cbn. by rewrite IH. Qed.

Lemma render_idx fn ps : ∀ i j,
  (∀ a b m caps, fn a m caps = fn b m caps) →
  render fn i ps = render fn j ps.
Proof.
  induction ps as [|[c|m caps] ps IH]; intros i j Hfn; [done| |].
  - cbn. by rewrite (IH i j).
  - cbn. by rewrite (Hfn i j), (IH (S i) (S j)).
Qed.
End RegexFacts.

(** *** Decimal numerals *)

Lemma uint_digits_digit u : Forall (λ c, is_digit c = true) (uint_digits u).
Proof. induction u; cbn; constructor; done. Qed.

Lemma toString_digit n : Forall (λ c, digit c = true) (toString n).
Proof. apply uint_digits_digit. Qed.

Lemma toString_nonempty n : toString n ≠ [].
Proof.
  unfold toString. intros H.
  assert (Hu : Nat.to_uint n = Decimal.Nil) by (by destruct (Nat.to_uint n)).
  pose proof (Unsigned.of_to n) as Hn. rewrite Hu in Hn. cbn in Hn. subst n. done.
Qed.

Lemma toNumber_acc u : ∀ acc,
  fold_left (λ acc c, 10 * acc + N.to_nat (c - 48)%N) (uint_digits u) acc
  = Nat.of_uint_acc u acc.
Proof.
  induction u; intros acc; cbn [uint_digits fold_left Nat.of_uint_acc]; [done|..];
    rewrite IHu; f_equal; rewrite Nat.tail_mul_spec; cbn; lia.
Qed.

Lemma toNumber_toString n : toNumber (toString n) = n.
Proof. unfold toNumber, toString. rewrite toNumber_acc. apply Unsigned.of_to. Qed.

(* --------------------------------------------------------------------- *)
(** ** Foot notes *)
(* --------------------------------------------------------------------- *)

Lemma footNote_exec prev digits label post :
  digitString digits → labelOk label →
  exec_here Markdown.footNoteMarkRegex prev (markerOf digits label ++ post)
  = Some (length (markerOf digits label), [(2, label); (1, digits)]).
Proof.
  intros [Hd Hdig] (Hne & Hdot & Hclose).
  unfold exec_here, Markdown.footNoteMarkRegex, markerOf.
  destruct digits as [|d ds]; [done|].
  apply Forall_cons in Hdig as [Hd0 Hds].
  destruct label as [|c l]; [done|]. apply Forall_cons in Hdot as [Hc Hl].
  rewrite <- !app_assoc. cbn [app].
  cbn [run]. rewrite run_chr_hit. cbn [run]. unfold digit. rewrite Hd0.
  apply more_greedy; [exact Hds| |done].
  cbv beta. rewrite run_chr_hit, run_chr_hit. rewrite Hc.
  apply more_lazy; [exact Hl| |].
  - intros l1 l2 -> Hl2. destruct l2 as [|c2 l2]; [done|].
    cbn [app]. destruct (decide (c2 = 41%N)) as [->|Hc2].
    + rewrite run_chr_hit. destruct l2 as [|c3 l2]; cbn [app].
      * by rewrite run_chr_miss.
      * rewrite run_chr_miss; [done|]. intros <-. apply Hclose.
        right. apply elem_of_app. right. right. left.
    + by rewrite run_chr_miss.
  - cbv beta. rewrite run_chr_hit, run_chr_hit. f_equal. f_equal.
    + cbn [length]. rewrite !length_app. cbn [length]. rewrite !length_app. cbn [length]. lia.
    + f_equal; f_equal.
      * cbn [length]. rewrite !length_app. cbn [length].
        replace (_ - _) with (length (c :: l)) by (cbn [length]; lia).
        change (c :: l ++ ?x) with ((c :: l) ++ x). by rewrite take_app_length.
      * f_equal. cbn [length]. rewrite !length_app. cbn [length]. rewrite !length_app. cbn [length].
        replace (_ - _) with (length (d :: ds)) by (cbn [length]; lia).
        change (d :: ds ++ ?x) with ((d :: ds) ++ x). by rewrite take_app_length.
Qed.

Lemma markerOf_nonempty digits label : markerOf digits label ≠ [].
Proof. done. Qed.

Lemma footNote_miss q c s :
  c ≠ LENTICULAR_L → exec_here Markdown.footNoteMarkRegex q (c :: s) = None.
Proof.
  intros Hc. unfold exec_here, Markdown.footNoteMarkRegex. cbn [run].
  by rewrite run_chr_miss.
Qed.

Lemma footNote_plain (s : jsstring) prev :
  LENTICULAR_L ∉ s → scan Markdown.footNoteMarkRegex prev s 0 = Keep <$> s.
Proof.
  intros Hs. rewrite <- (app_nil_r s) at 1. rewrite scan_keeps.
  - cbn. by rewrite app_nil_r.
  - intros q c t Hc. apply footNote_miss. by intros ->.
Qed.

Lemma footNote_pieces pre digits label post :
  LENTICULAR_L ∉ pre → digitString digits → labelOk label →
  pieces Markdown.footNoteMarkRegex (pre ++ markerOf digits label ++ post)
  = (Keep <$> pre) ++ Hit (markerOf digits label) [(2, label); (1, digits)]
                      :: pieces Markdown.footNoteMarkRegex post.
Proof.
  intros Hpre Hdigits Hlabel. unfold pieces. rewrite scan_keeps.
  - f_equal. rewrite (scan_hit _ _ _ _ [(2, label); (1, digits)]).
    + f_equal. by apply scan_prev.
    + apply markerOf_nonempty.
    + by apply footNote_exec.
  - intros q c t Hc. apply footNote_miss. by intros ->.
Qed.

Lemma omap_keeps {A} (f : piece → option A) (s : jsstring) :
  (∀ c, f (Keep c) = None) → omap f (Keep <$> s) = [].
Proof. intros Hf. induction s as [|c s IH]; [done|]. cbn. by rewrite Hf. Qed.

Section FootNotes.
Context (metadata : option MessageMetadata).
Context (pre post label digits : jsstring).

Lemma footNotes_output_marker :
  LENTICULAR_L ∉ pre → digitString digits → labelOk label →
  Markdown.footNotes_output (pre ++ markerOf digits label ++ post) metadata
  = pre ++ match Markdown.findCitation metadata digits with
           | Some _ => js "[^" ++ digits ++ js "]"
           | None => markerOf digits label
           end ++ Markdown.footNotes_output post metadata.
Proof.
  intros Hpre Hdigits Hlabel. unfold Markdown.footNotes_output, replace.
  rewrite footNote_pieces, render_keeps by done. cbn [render]. f_equal. f_equal.
  by apply render_idx.
Qed.

Lemma footNotes_citationList_marker :
  LENTICULAR_L ∉ pre → digitString digits → labelOk label →
  Markdown.footNotes_citationList (pre ++ markerOf digits label ++ post) metadata
  = match Markdown.findCitation metadata digits with
    | Some citation => [citation]
    | None => []
    end ++ Markdown.footNotes_citationList post metadata.
Proof.
  intros Hpre Hdigits Hlabel. unfold Markdown.footNotes_citationList.
  rewrite footNote_pieces, omap_app, omap_keeps by done.
  cbn. unfold Markdown.citeIndexOf. cbn.
  by destruct (Markdown.findCitation metadata digits).
Qed.

Lemma html_transformFootNotes_marker :
  LENTICULAR_L ∉ pre → digitString digits → labelOk label →
  Html.transformFootNotes (pre ++ markerOf digits label ++ post) metadata
  = pre ++ match Html.findCitation metadata digits with
           | Some _ => []
           | None => markerOf digits label
           end ++ Html.transformFootNotes post metadata.
Proof.
  intros Hpre Hdigits Hlabel. unfold Html.transformFootNotes, replace.
  change Html.footNoteMarkRegex with Markdown.footNoteMarkRegex.
  rewrite footNote_pieces, render_keeps by done. cbn [render]. f_equal. f_equal.
  by apply render_idx.
Qed.
End FootNotes.

Lemma findCitation_idx metadata citeIndex citation :
  Markdown.findCitation metadata citeIndex = Some citation →
  Markdown.citedIdx citation = Some (numberOf citeIndex).
Proof.
  unfold Markdown.findCitation. destruct metadata as [md|]; [|done].
  destruct (citations md) as [cites|]; [|done].
  intros H%find_some. destruct H as [_ H]. by apply bool_decide_eq_true in H.
Qed.

Lemma findCitation_listed metadata citeIndex citation :
  Markdown.findCitation metadata citeIndex = Some citation →
  citation ∈ default [] (metadata ≫= citations).
Proof.
  unfold Markdown.findCitation. destruct metadata as [md|]; [|done].
  cbn. destruct (citations md) as [cites|]; [|done].
  intros H%find_some. destruct H as [H _]. by apply list_elem_of_In.
Qed.

Lemma footNotes_output_plain s metadata :
  LENTICULAR_L ∉ s → Markdown.footNotes_output s metadata = s.
Proof.
  intros Hs. unfold Markdown.footNotes_output, replace, pieces.
  rewrite footNote_plain by done. rewrite <- (app_nil_r (Keep <$> s)), render_keeps.
  cbn. apply app_nil_r.
Qed.

Lemma footNotes_citationList_plain s metadata :
  LENTICULAR_L ∉ s → Markdown.footNotes_citationList s metadata = [].
Proof.
  intros Hs. unfold Markdown.footNotes_citationList, pieces.
  rewrite footNote_plain by done. by apply omap_keeps.
Qed.

Lemma html_transformFootNotes_plain s metadata :
  LENTICULAR_L ∉ s → Html.transformFootNotes s metadata = s.
Proof.
  intros Hs. unfold Html.transformFootNotes, replace, pieces.
  change Html.footNoteMarkRegex with Markdown.footNoteMarkRegex.
  rewrite footNote_plain by done. rewrite <- (app_nil_r (Keep <$> s)), render_keeps.
  cbn. apply app_nil_r.
Qed.

Lemma findCitation_found metadata citation digits :
  citation ∈ default [] (metadata ≫= citations) →
  Markdown.citedIdx citation = Some (numberOf digits) →
  is_Some (Markdown.findCitation metadata digits).
Proof.
  unfold Markdown.findCitation. destruct metadata as [md|]; [|by intros ?%elem_of_nil].
  cbn. destruct (citations md) as [cites|]; [|by intros ?%elem_of_nil].
  cbn. intros Hin Hidx.
  destruct (find _ cites) eqn:E; [by eexists|].
  apply list_elem_of_In in Hin. eapply find_none in E; [|exact Hin].
  cbv beta in E. by rewrite bool_decide_eq_true_2 in E.
Qed.

(** *** Numerals and Numbers *)

Lemma integerOf_acc u : ∀ acc,
  fold_left (λ acc c, (10 * acc + (c - 48))%N) (uint_digits u) (N.pos acc)
  = N.pos (Pos.of_uint_acc u acc).
Proof.
  induction u; intros acc; cbn [uint_digits fold_left Pos.of_uint_acc]; [done|..];
    rewrite <- IHu; f_equal; lia.
Qed.

Lemma integerOf_uint u : integerOf (uint_digits u) = N.of_uint u.
Proof.
  unfold integerOf, N.of_uint.
  induction u; cbn [uint_digits fold_left Pos.of_uint]; [done|exact IHu|..];
    by rewrite <- integerOf_acc.
Qed.

Lemma integerOf_decimal n : integerOf (decimal n) = n.
Proof. unfold decimal. rewrite integerOf_uint. apply DecimalN.Unsigned.of_to. Qed.

Lemma decimal_digitString n : digitString (decimal n).
Proof.
  split; [|apply uint_digits_digit].
  unfold decimal. intros H.
  assert (Hu : N.to_uint n = Decimal.Nil) by (by destruct (N.to_uint n)).
  pose proof (DecimalN.Unsigned.of_to n) as Hn. rewrite Hu in Hn. cbn in Hn. subst n. done.
Qed.

Lemma toDouble_safe n : (n < 2 ^ 53)%N → toDouble n = n.
Proof. intros H. unfold toDouble. by rewrite (proj2 (N.ltb_lt _ _) H). Qed.

Lemma numberToString_safe n : (n < 2 ^ 53)%N → numberToString n = decimal n.
Proof. intros H. unfold numberToString. by rewrite (proj2 (N.ltb_lt _ _) H). Qed.

(** C7. Take an assistant text [pre ++ marker ++ post] where [marker]
    is a citation marker with the index written [digits] and a
    well-formed label, and [pre] holds no opening bracket of a marker.
    A citation matches when its [cited_message_idx], a Number, is the
    Number that [digits] reads as: if the metadata lists such a
    citation the lookup finds one, and what it finds is such a citation
    of the list. Then the Markdown output has [[^digits]], the digits as
    written, in the place of the marker and, after a blank line, the
    definition line [[^N]: <title>] where [N] is that Number as
    JavaScript prints it (first among the lines of the citations found
    in [post]); the HTML output drops the marker and adds nothing. If no
    citation matches, the marker stays as it is in both outputs. When
    [digits] is the decimal numeral of an integer [n] below [2^53], the
    Number is [n] and it is printed as [digits], so that both labels
    are [n]. *)
Theorem citation_markers_become_footnotes
    (metadata : option MessageMetadata) (pre post label digits : jsstring) :
  LENTICULAR_L ∉ pre →
  digitString digits →
  labelOk label →
  (∀ citation,
     citation ∈ default [] (metadata ≫= citations) →
     Markdown.citedIdx citation = Some (numberOf digits) →
     is_Some (Markdown.findCitation metadata digits))
  ∧ Html.findCitation metadata digits = Markdown.findCitation metadata digits
  ∧ match Markdown.findCitation metadata digits with
    | Some citation =>
        citation ∈ default [] (metadata ≫= citations)
        ∧ Markdown.citedIdx citation = Some (numberOf digits)
        ∧ Markdown.transformFootNotes (pre ++ markerOf digits label ++ post) metadata
          = pre ++ js "[^" ++ digits ++ js "]"
            ++ Markdown.footNotes_output post metadata ++ [LF; LF]
            ++ join [LF]
                 ((js "[^" ++ numberToString (numberOf digits) ++ js "]: "
                   ++ default (js "No title") (Markdown.citeTitleOf citation))
                  :: (Markdown.citationLine
                        <$> Markdown.footNotes_citationList post metadata))
        ∧ Html.transformFootNotes (pre ++ markerOf digits label ++ post) metadata
          = pre ++ Html.transformFootNotes post metadata
        ∧ (LENTICULAR_L ∉ post →
           Markdown.transformFootNotes (pre ++ markerOf digits label ++ post) metadata
           = pre ++ js "[^" ++ digits ++ js "]" ++ post ++ [LF; LF]
             ++ js "[^" ++ numberToString (numberOf digits) ++ js "]: "
             ++ default (js "No title") (Markdown.citeTitleOf citation)
           ∧ Html.transformFootNotes (pre ++ markerOf digits label ++ post) metadata
             = pre ++ post)
    | None =>
        Markdown.transformFootNotes (pre ++ markerOf digits label ++ post) metadata
        = pre ++ markerOf digits label ++ Markdown.transformFootNotes post metadata
        ∧ Html.transformFootNotes (pre ++ markerOf digits label ++ post) metadata
          = pre ++ markerOf digits label ++ Html.transformFootNotes post metadata
    end
  ∧ (∀ n, (n < 2 ^ 53)%N → digits = decimal n →
       numberOf digits = n ∧ numberToString (numberOf digits) = digits).
Proof.
  intros Hpre Hdigits Hlabel.
  split; [intros; by eapply findCitation_found|]. split; [done|].
  split; [|intros n Hn ->; unfold numberOf;
           by rewrite integerOf_decimal, toDouble_safe, numberToString_safe].
  pose proof (footNotes_output_marker metadata pre post label digits Hpre Hdigits Hlabel)
    as Hout.
  pose proof (footNotes_citationList_marker metadata pre post label digits Hpre Hdigits Hlabel)
    as Hlist.
  pose proof (html_transformFootNotes_marker metadata pre post label digits Hpre Hdigits Hlabel)
    as Hhtml.
  change Html.findCitation with Markdown.findCitation in Hhtml.
  destruct (Markdown.findCitation metadata digits) as [citation|] eqn:Hfind.
  - pose proof (findCitation_idx _ _ _ Hfind) as Hidx.
    assert (Hmd : Markdown.transformFootNotes (pre ++ markerOf digits label ++ post) metadata
      = pre ++ js "[^" ++ digits ++ js "]"
        ++ Markdown.footNotes_output post metadata ++ [LF; LF]
        ++ join [LF]
             ((js "[^" ++ numberToString (numberOf digits) ++ js "]: "
               ++ default (js "No title") (Markdown.citeTitleOf citation))
              :: (Markdown.citationLine
                    <$> Markdown.footNotes_citationList post metadata))).
    { unfold Markdown.transformFootNotes. rewrite Hout, Hlist.
      cbn [app fmap list_fmap]. unfold Markdown.citationLine at 1. rewrite Hidx.
      cbn [default]. unfold Datatypes.id. by rewrite <- !app_assoc. }
    split; [by eapply findCitation_listed|].
    split; [done|]. split; [done|]. split; [done|].
    intros Hpost. rewrite Hmd, Hhtml.
    rewrite footNotes_output_plain, footNotes_citationList_plain,
      html_transformFootNotes_plain by done.
    cbn [app fmap list_fmap join]. done.
  - split; [|done].
    unfold Markdown.transformFootNotes. rewrite Hout, Hlist.
    cbn [app]. by rewrite <- !app_assoc.
Qed.

Lemma citation_markers_become_footnotes_witness :
  Markdown.transformFootNotes (js "Evidence " ++ markerOf (js "3") (js "SourceName"))
    Sample.sourceName
    = js "Evidence [^3]" ++ [LF; LF] ++ js "[^3]: SourceName"
  ∧ Html.transformFootNotes (js "Evidence " ++ markerOf (js "3") (js "SourceName"))
      Sample.sourceName
    = js "Evidence ".
Proof.
  assert (Hpre : LENTICULAR_L ∉ js "Evidence ") by by_computation.
  assert (Hdigits : digitString (js "3")).
  { split; [done|]. by_computation. }
  assert (Hlabel : labelOk (js "SourceName")).
  { split; [done|]. split; by_computation. }
  destruct (citation_markers_become_footnotes Sample.sourceName (js "Evidence ") []
              (js "SourceName") (js "3") Hpre Hdigits Hlabel) as (_ & _ & H & _).
  change (Markdown.findCitation Sample.sourceName (js "3"))
    with (head (default [] (Sample.sourceName ≫= citations))) in H.
  cbn [Sample.sourceName mbind option_bind citations default head] in H.
  destruct H as (_ & _ & _ & _ & H). rewrite !app_nil_r in H. apply H. by_computation.
Defined.

(** Against C7 as stated. The label of the reference is the text of the
    marker and the label of the definition is the printed Number, and
    the lookup compares Numbers. With a leading zero, marker [03] and a
    citation of source 3, the reference is [[^03]] and the definition
    [[^3]]. Beyond [2^53], marker [9007199254740993] reads as the
    Number 9007199254740992: the citation of that source is found
    although the index differs from the one written, the marker is
    rewritten (dropped in HTML), and the two labels differ. *)
Lemma labels_differ_off_the_canonical_numerals :
  Markdown.transformFootNotes (js "Evidence " ++ markerOf (js "03") (js "SourceName"))
    Sample.sourceName
  = js "Evidence [^03]" ++ [LF; LF] ++ js "[^3]: SourceName"
  ∧ Html.transformFootNotes (js "Evidence " ++ markerOf (js "03") (js "SourceName"))
      Sample.sourceName
    = js "Evidence "
  ∧ integerOf (js "9007199254740993") = 9007199254740993%N
  ∧ numberOf (js "9007199254740993") = 9007199254740992%N
  ∧ Markdown.citedIdx <$> default [] (Sample.farSource ≫= citations)
    = [Some 9007199254740992%N]
  ∧ Markdown.transformFootNotes
      (js "Evidence " ++ markerOf (js "9007199254740993") (js "SourceName"))
      Sample.farSource
    = js "Evidence [^9007199254740993]" ++ [LF; LF] ++ js "[^9007199254740992]: SourceName"
  ∧ Html.transformFootNotes
      (js "Evidence " ++ markerOf (js "9007199254740993") (js "SourceName"))
      Sample.farSource
    = js "Evidence ".
Proof. repeat split; by_computation. Qed.

(* --------------------------------------------------------------------- *)
(** ** Reformatting and the math sentinels *)
(* --------------------------------------------------------------------- *)

(** Against C6 as stated. With a code fence in the text the round trip
    still runs: a round trip that appends a line break, or one that
    returns some other text, shows in the result; in the Markdown
    renderer the bracket delimiters inside the fence are rewritten as
    well. *)
Lemma fenced_text_is_still_round_tripped :
  test Markdown.codeFenceRegex Sample.fenced = true
  ∧ Markdown.reformat (λ s, s ++ [LF]) Sample.fenced
    = js "```" ++ [LF] ++ js "$$x$$" ++ [LF] ++ js "```" ++ [LF]
  ∧ Html.reformat (λ s, s ++ [LF]) Sample.fenced = Sample.fenced ++ [LF]
  ∧ Markdown.reformat (λ _, js "<changed>") Sample.fenced = js "<changed>"
  ∧ Html.reformat (λ _, js "<changed>") Sample.fenced = js "<changed>".
Proof. repeat split; vm_compute; reflexivity. Qed.

(** C6, as the code has it. For a text with a code fence only the
    substitution of the sentinels (and their restoration) is skipped:
    the result is the round trip of the text, in either renderer; in
    the Markdown renderer the text is the one after the change of
    delimiters, on which the fence test is made too. *)
Theorem fence_skips_only_the_math_protection
    (renderer : Renderer) (roundTrip : jsstring → jsstring) (input : jsstring) :
  test Markdown.codeFenceRegex (scannedText renderer input) = true →
  reformatOf renderer roundTrip input = roundTrip (scannedText renderer input).
Proof.
  intros Hfence. destruct renderer; cbn [reformatOf scannedText] in *;
    unfold Markdown.reformat, Html.reformat; by rewrite Hfence.
Qed.

Lemma fence_skips_only_the_math_protection_witness :
  reformatOf ToMarkdown (λ s, s) Sample.fenced = scannedText ToMarkdown Sample.fenced
  ∧ reformatOf ToHtml (λ s, s) Sample.fenced = scannedText ToHtml Sample.fenced.
Proof.
  split.
  - apply (fence_skips_only_the_math_protection ToMarkdown (λ s, s) Sample.fenced).
    vm_compute. reflexivity.
  - apply (fence_skips_only_the_math_protection ToHtml (λ s, s) Sample.fenced).
    vm_compute. reflexivity.
Defined.

Lemma proseOf_length ps : length (proseOf ps) = S (length (hitsOf ps)).
Proof.
  induction ps as [|[c|m caps] ps IH]; [done| |].
  - cbn. destruct (proseOf ps); cbn in *; [done|]. done.
  - cbn. by rewrite IH.
Qed.

Lemma weave_cons_char c q qs fill : weave ((c :: q) :: qs) fill = c :: weave (q :: qs) fill.
Proof. by destruct fill. Qed.

Lemma render_sentinels ps : ∀ idx,
  render (λ index _ _, Markdown.sentinel index) idx ps
  = weave (proseOf ps) (Markdown.sentinel <$> seq idx (length (hitsOf ps))).
Proof.
  induction ps as [|[c|m caps] ps IH]; intros idx; [done| |].
  - cbn [render proseOf hitsOf omap]. rewrite IH.
    pose proof (proseOf_length ps) as Hlen.
    destruct (proseOf ps) as [|q qs]; [done|]. by rewrite weave_cons_char.
  - cbn [render proseOf hitsOf omap length seq fmap list_fmap weave]. by rewrite IH.
Qed.

Lemma weave_hits ps :
  render (λ _ m _, m) 0 ps = weave (proseOf ps) (hitsOf ps).
Proof.
  generalize 0. induction ps as [|[c|m caps] ps IH]; intros idx; [done| |].
  - cbn [render proseOf hitsOf omap]. rewrite IH.
    pose proof (proseOf_length ps) as Hlen.
    destruct (proseOf ps) as [|q qs]; [done|]. by rewrite weave_cons_char.
  - cbn [render proseOf hitsOf omap weave]. by rewrite IH.
Qed.

(** Putting the matches back where they were gives the text. *)
Lemma scan_reassemble r s : ∀ prev skip,
  render (λ _ m _, m) 0 (scan r prev s skip) = drop skip s.
Proof.
  induction s as [|c s IH]; intros prev skip.
  - cbn [scan]. destruct skip; [|done]. by destruct (exec_here r prev []) as [[? ?]|].
  - cbn [scan]. destruct skip as [|k]; [|apply IH].
    destruct (exec_here r prev (c :: s)) as [[[|n] caps]|].
    + cbn [render app]. erewrite render_idx by done. by rewrite IH.
    + cbn [render]. erewrite render_idx by done. rewrite IH.
      change (take (S n) (c :: s)) with (c :: take n s). cbn [app drop].
      by rewrite take_drop.
    + cbn [render]. by rewrite IH.
Qed.

Lemma text_is_prose_and_matches r s :
  s = weave (proseOf (pieces r s)) (matchAll r s).
Proof.
  unfold matchAll. fold (hitsOf (pieces r s)). rewrite <- weave_hits.
  unfold pieces. by rewrite scan_reassemble.
Qed.

Lemma protected_is_prose_and_sentinels r s :
  replace r (λ index _ _, Markdown.sentinel index) s
  = weave (proseOf (pieces r s)) (Markdown.sentinel <$> seq 0 (length (matchAll r s))).
Proof. unfold replace. by rewrite render_sentinels. Qed.

(** *** Restoring the formulas *)

Lemma sentinel_exec prev i rest :
  exec_here Markdown.sentinelRegex prev (Markdown.sentinel i ++ rest)
  = Some (length (Markdown.sentinel i), [(1, toString i)]).
Proof.
  unfold exec_here, Markdown.sentinelRegex, Markdown.sentinel.
  pose proof (toString_nonempty i) as Hd. pose proof (toString_digit i) as Hdig.
  destruct (toString i) as [|d ds]; [done|]. apply Forall_cons in Hdig as [Hd0 Hds].
  rewrite <- !app_assoc. cbn [app run]. rewrite run_chr_hit. cbn [run]. rewrite Hd0.
  apply more_greedy; [exact Hds| |done].
  cbv beta. rewrite run_chr_hit. f_equal. f_equal.
  - cbn [length]. rewrite !length_app. cbn [length]. lia.
  - f_equal. f_equal. cbn [length]. rewrite !length_app. cbn [length].
    replace (_ - _) with (length (d :: ds)) by (cbn [length]; lia).
    change (d :: ds ++ ?x) with ((d :: ds) ++ x). by rewrite take_app_length.
Qed.

Lemma sentinel_miss q c s :
  c ≠ SENTINEL → exec_here Markdown.sentinelRegex q (c :: s) = None.
Proof.
  intros Hc. unfold exec_here, Markdown.sentinelRegex. cbn [run].
  by rewrite run_chr_miss.
Qed.

Lemma sentinel_plain (s : jsstring) prev :
  SENTINEL ∉ s → scan Markdown.sentinelRegex prev s 0 = Keep <$> s.
Proof.
  intros Hs. rewrite <- (app_nil_r s) at 1. rewrite scan_keeps.
  - cbn. by rewrite app_nil_r.
  - intros q c t Hc. apply sentinel_miss. by intros ->.
Qed.

Lemma restore_weave (matches : list jsstring) fn :
  fn = (λ (_ : nat) (_ : jsstring) caps,
          default (js "undefined") (matches !! toNumber (default [] (capture 1 caps)))) →
  ∀ spans k prose prev idx,
    drop k matches = spans →
    length prose = S (length spans) →
    Forall (λ q, SENTINEL ∉ q) prose →
    render fn idx (scan Markdown.sentinelRegex prev
                     (weave prose (Markdown.sentinel <$> seq k (length spans))) 0)
    = weave prose spans.
Proof.
  intros Hfn. induction spans as [|m spans IH]; intros k prose prev idx Hdrop Hlen Hfree.
  - destruct prose as [|p [|? ?]]; try done. cbn [length seq fmap list_fmap weave].
    apply Forall_cons in Hfree as [Hp _]. rewrite sentinel_plain by done.
    rewrite <- (app_nil_r (Keep <$> p)), render_keeps. cbn. apply app_nil_r.
  - destruct prose as [|p prose]; [done|]. apply Forall_cons in Hfree as [Hp Hfree].
    cbn [length seq fmap list_fmap weave].
    rewrite scan_keeps by (intros q c t Hc; apply sentinel_miss; by intros ->).
    rewrite render_keeps. f_equal.
    rewrite (scan_hit _ _ _ _ [(1, toString k)]); [|done|apply sentinel_exec].
    cbn [render]. f_equal.
    + rewrite Hfn. cbv beta.
      change (capture 1 [(1, toString k)]) with (Some (toString k)).
      cbn [default]. unfold Datatypes.id. rewrite toNumber_toString.
      assert (matches !! k = Some m) as ->; [|done].
      rewrite <- (Nat.add_0_r k), <- lookup_drop, Hdrop. done.
    + apply IH; [|by injection Hlen|done].
      replace (S k) with (k + 1) by lia. by rewrite <- drop_drop, Hdrop.
Qed.

Lemma restoreMath_weave matches prose :
  length prose = S (length matches) →
  Forall (λ q, SENTINEL ∉ q) prose →
  Markdown.restoreMath matches
    (weave prose (Markdown.sentinel <$> seq 0 (length matches)))
  = weave prose matches.
Proof.
  intros Hlen Hfree. unfold Markdown.restoreMath, replace, pieces.
  by apply (restore_weave matches _ eq_refl matches 0).
Qed.

(** A text whose prose already holds sentinel-like tokens: with the
    identity as round trip the formula is lost from both outputs. *)
Lemma sentinel_clash_loses_the_formula :
  spansOf ToMarkdown Sample.clash = [js " $x$ "]
  ∧ spansOf ToHtml Sample.clash = [js " $x$ "]
  ∧ test Markdown.codeFenceRegex (scannedText ToMarkdown Sample.clash) = false
  ∧ test Markdown.codeFenceRegex (scannedText ToHtml Sample.clash) = false
  ∧ Markdown.reformat (λ s, s) Sample.clash = js "undefined0undefined" ++ [LF; LF]
  ∧ Html.reformat (λ s, s) Sample.clash = js "undefined0undefined" ++ [LF; LF].
Proof. repeat split; vm_compute; reflexivity. Qed.

(** Where the pattern matches. In either renderer, let the scanned text
    have no code fence and at least one match of the formula pattern.
    The text is its prose with the matched spans in between, and the
    round trip is given the prose with the tokens [╬0╬], [╬1╬], ... in
    their places. If the round trip returns these tokens in order,
    separated by prose free of the sentinel character, then the output
    is that prose with the matched spans, character for character, in
    the places of the tokens. *)
Theorem math_spans_survive_the_round_trip
    (renderer : Renderer) (roundTrip : jsstring → jsstring)
    (input : jsstring) (prose : list jsstring) :
  test Markdown.codeFenceRegex (scannedText renderer input) = false →
  spansOf renderer input ≠ [] →
  length prose = S (length (spansOf renderer input)) →
  Forall (λ q, SENTINEL ∉ q) prose →
  roundTrip (protectedText renderer input)
    = weave prose (tokens (length (spansOf renderer input))) →
  scannedText renderer input = weave (proseAround renderer input) (spansOf renderer input)
  ∧ reformatOf renderer roundTrip input = weave prose (spansOf renderer input).
Proof.
  intros Hfence Hspans Hlen Hfree Hrt.
  split; [apply text_is_prose_and_matches|].
  unfold protectedText, proseAround, spansOf, tokens in *.
  destruct renderer; cbn [reformatOf scannedText latexRegexOf] in *;
    unfold Markdown.reformat, Html.reformat;
    rewrite Hfence, bool_decide_eq_false_2 by done; cbn [negb andb];
    rewrite protected_is_prose_and_sentinels, Hrt; by apply restoreMath_weave.
Qed.

Lemma math_spans_survive_the_round_trip_witness :
  (scannedText ToMarkdown Sample.inlineFormula
     = weave (proseAround ToMarkdown Sample.inlineFormula)
         (spansOf ToMarkdown Sample.inlineFormula)
   ∧ reformatOf ToMarkdown (λ s, s) Sample.inlineFormula
     = weave [js "The result is"; js "ok"] (spansOf ToMarkdown Sample.inlineFormula))
  ∧ (scannedText ToHtml Sample.inlineFormula
     = weave (proseAround ToHtml Sample.inlineFormula) (spansOf ToHtml Sample.inlineFormula)
     ∧ reformatOf ToHtml (λ s, s) Sample.inlineFormula
       = weave [js "The result is "; js " ok"] (spansOf ToHtml Sample.inlineFormula)).
Proof.
  split.
  - apply (math_spans_survive_the_round_trip ToMarkdown (λ s, s) Sample.inlineFormula
             [js "The result is"; js "ok"]).
    + vm_compute. reflexivity.
    + by vm_compute.
    + vm_compute. reflexivity.
    + by_computation.
    + vm_compute. reflexivity.
  - apply (math_spans_survive_the_round_trip ToHtml (λ s, s) Sample.inlineFormula
             [js "The result is "; js " ok"]).
    + vm_compute. reflexivity.
    + by vm_compute.
    + vm_compute. reflexivity.
    + by_computation.
    + vm_compute. reflexivity.
Defined.

(** The example of the specification followed by a word, with the
    identity as round trip: the Markdown renderer shows the formula
    with dollar delimiters, the HTML renderer as it was written. *)
Lemma reformat_inline_formula :
  Markdown.reformat (λ s, s) Sample.inlineFormula = js "The result is $x^2$ ok"
  ∧ Html.reformat (λ s, s) Sample.inlineFormula = js "The result is \(x^2\) ok".
Proof. split; vm_compute; reflexivity. Qed.


(* ===================================================================== *)
(** * Further properties of the code *)
(* ===================================================================== *)

(* --------------------------------------------------------------------- *)
(** ** Replacing single units *)
(* --------------------------------------------------------------------- *)

Lemma exec_here_Chr p prev c s :
  exec_here (Chr p) prev (c :: s) = if p c then Some (1, []) else None.
Proof.
  unfold exec_here. cbn [run]. destruct (p c); [|done].
  do 2 f_equal. cbn [length]. lia.
Qed.

Lemma scan_Chr p fn (s : jsstring) : ∀ prev idx,
  (∀ a b m caps, fn a m caps = fn b m caps) →
  render fn idx (scan (Chr p) prev s 0)
  = s ≫= (λ c, if p c then fn 0 [c] [] else [c]).
Proof.
  induction s as [|c s IH]; intros prev idx Hfn; [done|].
  cbn [scan]. rewrite exec_here_Chr. cbn [mbind list_bind].
  change (mbind ?f s) with (s ≫= f). destruct (p c).
  - cbn [render take]. rewrite (Hfn idx 0), IH by done. done.
  - cbn [render]. rewrite IH by done. done.
Qed.

Lemma replace_Chr p fn (s : jsstring) :
  (∀ a b m caps, fn a m caps = fn b m caps) →
  replace (Chr p) fn s = s ≫= (λ c, if p c then fn 0 [c] [] else [c]).
Proof. intros. unfold replace, pieces. by apply scan_Chr. Qed.

(* --------------------------------------------------------------------- *)
(** ** Replacing runs of units *)
(* --------------------------------------------------------------------- *)

(** A repetition followed by nothing else stops somewhere in its
    input. *)
Lemma more_final {R} g p (f : jsstring → captures → R) caps s : ∀ prev,
  ∃ rest, length rest ≤ length s
          ∧ more g p (λ _ s' caps', Some (f s' caps')) caps prev s = Some (f rest caps).
Proof.
  induction s as [|c s IH]; intros prev; cbn [more].
  - by exists [].
  - destruct (p c); [|by exists (c :: s)].
    destruct g.
    + destruct (IH (Some c)) as (rest & Hlen & ->). exists rest. split; [cbn; lia|done].
    + by exists (c :: s).
Qed.

Lemma exec_here_Plus g p prev c s :
  exec_here (Plus g p) prev (c :: s)
  = if p c then exec_here (Plus g p) prev (c :: s) else None.
Proof. unfold exec_here. cbn [run]. by destruct (p c). Qed.

Lemma exec_here_Plus_hit g p prev c s :
  p c = true → ∃ n, exec_here (Plus g p) prev (c :: s) = Some (S n, []).
Proof.
  intros Hc. unfold exec_here. cbn [run]. rewrite Hc.
  destruct (more_final g p (λ s' caps', (length (c :: s) - length s', caps')) [] s (Some c))
    as (rest & Hlen & ->).
  exists (length s - length rest). do 2 f_equal. cbn [length]. lia.
Qed.

(** The units a scan for runs of [p] leaves in place are not in [p]. *)
Lemma scan_Plus_keeps (I : N → Prop) g p (s : jsstring) : ∀ prev skip,
  Forall I s →
  Forall (λ pc, match pc with Keep c => I c ∧ p c = false | Hit _ _ => True end)
         (scan (Plus g p) prev s skip).
Proof.
  induction s as [|c s IH]; intros prev skip Hs.
  - destruct skip; cbn; constructor.
  - apply Forall_cons in Hs as [Hc Hs]. cbn [scan]. destruct skip as [|k]; [|by apply IH].
    destruct (p c) eqn:Hp.
    + destruct (exec_here_Plus_hit g p prev c s Hp) as [n ->].
      constructor; [done|]. by apply IH.
    + rewrite exec_here_Plus, Hp. constructor; [done|]. by apply IH.
Qed.

Lemma render_constant_Forall (Q : N → Prop) rep ps : ∀ idx,
  Forall Q rep →
  Forall (λ pc, match pc with Keep c => Q c | Hit _ _ => True end) ps →
  Forall Q (render (λ _ _ _, rep) idx ps).
Proof.
  intros idx Hrep Hps. revert idx.
  induction Hps as [|[c|m caps] ps Hp _ IH]; intros idx; cbn [render]; [done| |].
  - by constructor.
  - apply Forall_app. split; [done|apply IH].
Qed.

(* --------------------------------------------------------------------- *)
(** ** escapeHtml *)
(* --------------------------------------------------------------------- *)

Lemma escapeHtml_bind (s : jsstring) : Html.escapeHtml s = s ≫= escapeUnit.
Proof.
  unfold Html.escapeHtml, chr. rewrite !replace_Chr by done.
  unfold Html.constant, Html.DQUOTE.
  induction s as [|c s IH]; [done|].
  cbn [mbind list_bind]. rewrite !bind_app.
  change (mbind ?f s) with (s ≫= f) in *. rewrite IH. f_equal.
  unfold escapeUnit. rewrite !(N.eqb_sym c).
  destruct (N.eqb_spec 38 c) as [<-|H1]; [reflexivity|].
  cbn [mbind list_bind app].
  destruct (N.eqb_spec 60 c) as [<-|H2]; [reflexivity|].
  cbn [mbind list_bind app].
  destruct (N.eqb_spec 62 c) as [<-|H3]; [reflexivity|].
  cbn [mbind list_bind app].
  destruct (N.eqb_spec 34 c) as [<-|H4]; [reflexivity|].
  cbn [mbind list_bind app].
  destruct (N.eqb_spec 39 c) as [<-|H5]; [reflexivity|].
  reflexivity.
Qed.

Lemma escapeUnit_safe c : Forall (λ x, htmlSpecial x = false) (escapeUnit c).
Proof.
  unfold escapeUnit.
  destruct (N.eqb_spec c 38); [by repeat constructor|].
  destruct (N.eqb_spec c 60); [by repeat constructor|].
  destruct (N.eqb_spec c 62); [by repeat constructor|].
  destruct (N.eqb_spec c 34); [by repeat constructor|].
  destruct (N.eqb_spec c 39); [by repeat constructor|].
  constructor; [|done]. unfold htmlSpecial.
  by repeat (apply orb_false_intro; [|by apply N.eqb_neq]); apply N.eqb_neq.
Qed.

(** X1. [escapeHtml] of html.ts works unit by unit: each of the five
    special units (ampersand, less-than, greater-than, double quote,
    apostrophe) becomes its entity and every other unit stays; the
    ampersand of an entity written by one of the five passes is not
    escaped again by a later pass. The result holds no angle bracket
    and no quote, and a text without the five units comes back as it
    is. *)
Theorem escapeHtml_escapes_each_unit_once (html : jsstring) :
  Html.escapeHtml html = html ≫= escapeUnit
  ∧ Forall (λ c, htmlSpecial c = false) (Html.escapeHtml html)
  ∧ (Forall (λ c, htmlSpecial c = false ∧ c ≠ 38%N) html → Html.escapeHtml html = html).
Proof.
  rewrite escapeHtml_bind. split; [done|]. split.
  - induction html as [|c s IH]; [done|]. cbn [mbind list_bind]. apply Forall_app.
    split; [apply escapeUnit_safe|done].
  - induction 1 as [|c s [Hc Hamp] _ IH]; [done|]. cbn [mbind list_bind].
    change (mbind escapeUnit s) with (s ≫= escapeUnit). rewrite IH.
    unfold escapeUnit, htmlSpecial in *.
    apply N.eqb_neq in Hamp. rewrite Hamp.
    repeat (apply orb_false_elim in Hc as [Hc ?]).
    by repeat match goal with H : N.eqb _ _ = false |- _ => rewrite H; clear H end.
Qed.

(* --------------------------------------------------------------------- *)
(** ** sanitizeFileName *)
(* --------------------------------------------------------------------- *)

Lemma underscore_safe : Forall (λ c, fileSafe c = true) (js "_").
Proof. by repeat constructor. Qed.

Lemma dash_safe : Forall (λ c, fileSafe c = true) (js "-").
Proof. by repeat constructor. Qed.

Lemma replace_unsafe (s : jsstring) :
  Forall (λ c, unsafeChar c = false)
         (replace (Chr unsafeChar) (λ _ _ _, js "_") s).
Proof.
  rewrite replace_Chr by done.
  induction s as [|c s IH]; [done|]. cbn [mbind list_bind]. apply Forall_app.
  split; [|done]. destruct (unsafeChar c) eqn:E; by repeat constructor.
Qed.

Lemma sanitizeFileName_safe_units env (fileName : jsstring) :
  lowerCaseKeepsSafe env →
  Forall (λ c, unsafeChar c = false ∧ space c = false) (sanitizeFileName env fileName).
Proof.
  intros Hlower. unfold sanitizeFileName.
  eapply Forall_impl; [apply Hlower|].
  - unfold replace, pieces. apply render_constant_Forall; [apply dash_safe|].
    eapply Forall_impl; [apply (scan_Plus_keeps (λ c, unsafeChar c = false))|].
    + apply replace_unsafe.
    + intros [c|m caps]; [|done]. intros [Hu Hs]. unfold fileSafe. by rewrite Hu, Hs.
  - intros c Hc. unfold fileSafe in Hc. apply andb_prop in Hc as [H1 H2].
    by apply negb_true_iff in H1, H2.
Qed.

Lemma replace_unsafe_id (s : jsstring) :
  Forall (λ c, fileSafe c = true) s →
  replace (Chr unsafeChar) (λ _ _ _, js "_") s = s.
Proof.
  intros Hsafe. rewrite replace_Chr by done.
  induction Hsafe as [|c s Hc _ IH]; [done|].
  cbn [mbind list_bind]. change (mbind ?f s) with (s ≫= f). rewrite IH.
  unfold fileSafe in Hc. apply andb_prop in Hc as [H1 _].
  apply negb_true_iff in H1. by rewrite H1.
Qed.

Lemma replace_space_id fn (s : jsstring) :
  Forall (λ c, fileSafe c = true) s →
  replace (Plus true space) fn s = s.
Proof.
  intros Hsafe. unfold replace, pieces.
  assert (Hs : ∀ prev, scan (Plus true space) prev s 0 = Keep <$> s).
  { induction Hsafe as [|c s Hc _ IH]; intros prev; [done|].
    cbn [scan]. rewrite exec_here_Plus.
    unfold fileSafe in Hc. apply andb_prop in Hc as [_ H2].
    apply negb_true_iff in H2. rewrite H2. cbn [fmap list_fmap]. f_equal. apply IH. }
  rewrite Hs, <- (app_nil_r (Keep <$> s)), render_keeps. apply app_nil_r.
Qed.

(** X2. [sanitizeFileName] returns a name without the units it
    replaces (less-than, greater-than, colon, double quote, slash,
    backslash, bar, question mark, star) and without white space,
    provided lower-casing brings in none of them; and a name that holds
    none of them to begin with is only lower-cased. *)
Theorem sanitizeFileName_is_safe env (fileName : jsstring) :
  lowerCaseKeepsSafe env →
  Forall (λ c, unsafeChar c = false ∧ space c = false) (sanitizeFileName env fileName)
  ∧ (Forall (λ c, fileSafe c = true) fileName →
     sanitizeFileName env fileName = env_toLowerCase env fileName).
Proof.
  intros Hlower. split; [by apply sanitizeFileName_safe_units|].
  intros Hsafe. unfold sanitizeFileName.
  by rewrite replace_unsafe_id, replace_space_id.
Qed.

Lemma sample_lowerCaseKeepsSafe : lowerCaseKeepsSafe Sample.env.
Proof.
  intros s Hs. cbn. apply Forall_fmap. eapply Forall_impl; [exact Hs|].
  intros c Hc. cbn. unfold Sample.lowerUnit.
  destruct (_ && _) eqn:E; [|done].
  apply andb_prop in E as [H1 H2]. apply N.leb_le in H1, H2.
  unfold fileSafe, unsafeChar, space.
  repeat match goal with
         | |- context [N.eqb ?a ?b] => destruct (N.eqb_spec a b); [lia|]
         | |- context [N.leb ?a ?b] => destruct (N.leb_spec a b)
         end; try done; lia.
Qed.

Lemma sanitizeFileName_is_safe_witness :
  Forall (λ c, unsafeChar c = false ∧ space c = false)
         (sanitizeFileName Sample.env (js "Tool Result: a/b?.PNG"))
  ∧ (Forall (λ c, fileSafe c = true) (js "Tool Result: a/b?.PNG") →
     sanitizeFileName Sample.env (js "Tool Result: a/b?.PNG")
     = env_toLowerCase Sample.env (js "Tool Result: a/b?.PNG")).
Proof.
  apply (sanitizeFileName_is_safe Sample.env (js "Tool Result: a/b?.PNG")).
  apply sample_lowerCaseKeepsSafe.
Defined.

(* --------------------------------------------------------------------- *)
(** ** generateImageId *)
(* --------------------------------------------------------------------- *)

Lemma bind_filter (p : N → bool) (s : jsstring) :
  s ≫= (λ c, if negb (p c) then [] else [c]) = filter (λ c, p c = true) s.
Proof.
  induction s as [|c s IH]; [done|]. cbn [mbind list_bind].
  change (mbind ?f s) with (s ≫= f). rewrite IH, filter_cons.
  destruct (p c) eqn:E; cbn.
  - by rewrite decide_True.
  - by rewrite decide_False.
Qed.

(** X3. [generateImageId] returns at most 16 units, all of them ASCII
    letters or digits: the first 16 alphanumeric units of what [btoa]
    makes of the ids, the index and the time stamp. It throws only
    where [btoa] does, with its exception. *)
Theorem generateImageId_is_alphanumeric env context :
  match generateImageId env context with
  | Ok id => length id ≤ 16 ∧ Forall (λ c, alnum c = true) id
  | Throw e => e = InvalidCharacterError
  end.
Proof.
  unfold generateImageId. destruct (env_btoa env _) as [hash|]; [|done].
  unfold substring0. rewrite replace_Chr by done.
  rewrite (bind_filter alnum). split.
  - rewrite length_take. lia.
  - apply Forall_take. apply Forall_forall. intros c Hc.
    by apply list_elem_of_filter in Hc as [Hc _].
Qed.

(* --------------------------------------------------------------------- *)
(** ** The strategies *)
(* --------------------------------------------------------------------- *)

(** X4. A strategy throws only where [generateImageId] throws, and
    then the same exception: a failing load, a tainted canvas and a
    missing payload are all caught inside the strategy. In every other
    case it returns an image with the generated id whose metadata hold
    the URL it was given, the MIME type guessed from that URL and the
    time stamp of the context. *)
Theorem strategies_fail_only_on_the_id env strategy url context :
  match generateImageId env context with
  | Ok i =>
      ∃ p, processImage env strategy url context = Ok p
           ∧ id p = i
           ∧ (meta_originalUrl <$> metadata p) = Some url
           ∧ (meta_mimeType <$> metadata p) = Some (getMimeType env url)
           ∧ (meta_timestamp <$> metadata p) = Some (timestamp context)
  | Throw e => processImage env strategy url context = Throw e
  end.
Proof.
  destruct (generateImageId env context) as [i|e] eqn:Hid.
  - destruct strategy; cbn [processImage];
      unfold EmbedBase64_processImage, TextMarker_processImage, SeparateFiles_processImage;
      rewrite Hid; cbn [mbind Outcome_bind]; unfold try_catch.
    + destruct (getBase64FromImageUrl env url) as [d|]; cbn; [|by eexists].
      destruct (getFileSizeFromBase64 d); cbn; by eexists.
    + by eexists.
    + destruct (getBase64FromImageUrl env url) as [d|]; cbn; [|by eexists].
      destruct (getFileSizeFromBase64 d); cbn; by eexists.
  - destruct strategy; cbn [processImage];
      unfold EmbedBase64_processImage, TextMarker_processImage, SeparateFiles_processImage;
      by rewrite Hid.
Qed.

(* --------------------------------------------------------------------- *)
(** ** getMimeType *)
(* --------------------------------------------------------------------- *)

Lemma more_inv {R} g p (k : @kont R) caps s : ∀ prev res,
  more g p k caps prev s = Some res →
  ∃ ds rest, s = ds ++ rest ∧ Forall (λ c, p c = true) ds
             ∧ k (after prev ds) rest caps = Some res.
Proof.
  induction s as [|c s IH]; intros prev res; cbn [more].
  - intros Hk. by exists [], [].
  - destruct (p c) eqn:Hp; [|intros Hk; by exists [], (c :: s)].
    assert (Hrec : more g p k caps (Some c) s = Some res →
              ∃ ds rest, c :: s = ds ++ rest ∧ Forall (λ c, p c = true) ds
                         ∧ k (after prev ds) rest caps = Some res).
    { intros (ds & rest & -> & Hds & Hk)%IH. exists (c :: ds), rest.
      split; [done|]. split; [by constructor|]. by rewrite after_cons. }
    destruct g.
    + destruct (more true p k caps (Some c) s) eqn:E.
      * intros [= ->]. by apply Hrec.
      * intros Hk. by exists [], (c :: s).
    + destruct (k prev (c :: s) caps) eqn:E.
      * intros [= ->]. by exists [], (c :: s).
      * apply Hrec.
Qed.

Lemma dataUrl_exec prev mime rest :
  mimeOk mime →
  exec_here dataUrlRegex prev (js "data:" ++ mime ++ js ";" ++ rest)
  = Some (length (js "data:" ++ mime ++ js ";"), [(1, mime)]).
Proof.
  intros [Hne Hsemi]. unfold exec_here, dataUrlRegex.
  change (js "data:") with [100; 97; 116; 97; 58]%N. change (js ";") with [59%N].
  destruct mime as [|c mime]; [done|].
  cbn [lit app run]. rewrite !run_chr_hit. cbn [run].
  assert (Hc : negb (N.eqb c 59) = true).
  { apply negb_true_iff, N.eqb_neq. intros ->. apply Hsemi. left. }
  rewrite Hc. apply more_greedy.
  - apply Forall_forall. intros x Hx. apply negb_true_iff, N.eqb_neq.
    intros ->. apply Hsemi. by right.
  - cbv beta. rewrite run_chr_hit. f_equal. f_equal.
    + cbn [length]. rewrite !length_app. cbn [length]. lia.
    + f_equal. f_equal. cbn [length]. rewrite !length_app. cbn [length].
      replace (_ - _) with (length (c :: mime)) by (cbn [length]; lia).
      change (c :: mime ++ ?x) with ((c :: mime) ++ x). by rewrite take_app_length.
  - cbn. done.
Qed.

Lemma dataUrl_matchFirst (mime rest : jsstring) :
  mimeOk mime →
  ∃ m, matchFirst dataUrlRegex (js "data:" ++ mime ++ js ";" ++ rest)
       = Some (m, [(1, mime)]).
Proof.
  intros Hmime. unfold matchFirst, pieces.
  pose proof (dataUrl_exec None mime rest Hmime) as Hexec.
  change (js "data:") with [100; 97; 116; 97; 58]%N in *.
  cbn [app scan] in *. rewrite Hexec. cbn [length app omap head].
  rewrite length_app. cbn. by eexists.
Qed.

Lemma startsWith_data (s : jsstring) : startsWith (js "data:") (js "data:" ++ s) = true.
Proof. by vm_compute. Qed.

(** X5. [getMimeType] reads the type back from a data URI: on
    [data:<mime>;<rest>], with <mime> non-empty and without semicolon,
    it returns <mime>, whatever follows. *)
Theorem getMimeType_reads_a_data_uri env (mime rest : jsstring) :
  mimeOk mime →
  getMimeType env (js "data:" ++ mime ++ js ";" ++ rest) = mime.
Proof.
  intros Hmime. unfold getMimeType. rewrite startsWith_data.
  destruct (dataUrl_matchFirst mime rest Hmime) as [m ->].
  reflexivity.
Qed.

Lemma getMimeType_reads_a_data_uri_witness :
  getMimeType Sample.env (js "data:" ++ js "image/webp" ++ js ";" ++ js "base64,UklGRg==")
  = js "image/webp".
Proof.
  apply (getMimeType_reads_a_data_uri Sample.env (js "image/webp") (js "base64,UklGRg==")).
  split; [done|]. by_computation.
Defined.

(** Every match a scan reports comes from a match attempt. *)
Lemma scan_hits r (s : jsstring) : ∀ prev skip,
  Forall (λ pc, match pc with
                | Hit _ caps => ∃ q t n, exec_here r q t = Some (n, caps)
                | Keep _ => True
                end) (scan r prev s skip).
Proof.
  induction s as [|c s IH]; intros prev skip; cbn [scan].
  - destruct skip; [|done].
    destruct (exec_here r prev []) as [[n caps]|] eqn:E; [|done].
    constructor; [|done]. by exists prev, [], n.
  - destruct skip as [|k]; [|apply IH].
    destruct (exec_here r prev (c :: s)) as [[[|n] caps]|] eqn:E.
    + constructor; [by exists prev, (c :: s), 0|]. constructor; [done|apply IH].
    + constructor; [by exists prev, (c :: s), (S n)|]. apply IH.
    + constructor; [done|apply IH].
Qed.

Lemma run_chr_inv {R} c prev s caps (k : @kont R) res :
  run (chr c) prev s caps k = Some res →
  ∃ s', s = c :: s' ∧ k (Some c) s' caps = Some res.
Proof.
  destruct s as [|c' s]; [done|]. cbn. destruct (N.eqb_spec c c') as [<-|]; [|done].
  intros Hk. by exists s.
Qed.

Lemma dataUrl_caps prev s n caps :
  exec_here dataUrlRegex prev s = Some (n, caps) →
  ∃ g, capture 1 caps = Some g ∧ mimeOk g.
Proof.
  unfold exec_here, dataUrlRegex.
  change (js "data:") with [100; 97; 116; 97; 58]%N. cbn [lit run]. intros H.
  do 4 (apply run_chr_inv in H as (? & -> & H); cbv beta in H).
  apply run_chr_inv in H as (s & -> & H). cbv beta in H. cbn [run] in H.
  destruct s as [|c s]; [done|]. destruct (negb (N.eqb c 59)) eqn:Hc; [|done].
  apply more_inv in H as (ds & rest & Hs & Hds & Hk). cbv beta in Hk.
  apply run_chr_inv in Hk as (rest' & -> & Hk). injection Hk as <- <-.
  exists (c :: ds). split.
  - cbn [capture Nat.eqb]. f_equal. subst s. cbn [length]. rewrite length_app. cbn [length].
    replace (_ - _) with (length (c :: ds)) by (cbn [length]; lia).
    change (c :: ds ++ ?x) with ((c :: ds) ++ x). by rewrite take_app_length.
  - split; [done|]. intros Hin. apply elem_of_cons in Hin as [<-|Hin]; [done|].
    rewrite Forall_forall in Hds. by specialize (Hds _ Hin).
Qed.

Lemma getMimeType_mimeOk env url : mimeOk (getMimeType env url).
Proof.
  unfold getMimeType. destruct (startsWith _ _).
  - destruct (matchFirst dataUrlRegex url) as [[m caps]|] eqn:E.
    + unfold matchFirst, pieces in E.
      pose proof (scan_hits dataUrlRegex url None 0) as Hs.
      induction Hs as [|[c|m' caps'] ps Hp _ IH]; [done|by apply IH|].
      cbn in E. injection E as -> ->.
      destruct Hp as (q & t & n & Hexec).
      destruct (dataUrl_caps q t n caps Hexec) as (g & -> & Hg). done.
    + split; [done|by_computation].
  - repeat (match goal with |- context [if ?b then _ else _] => destruct b end;
            [split; [done|by_computation]|]).
    split; [done|by_computation].
Qed.

(** X6. When the embedding strategy succeeds its content is the data
    URI [data:<type>;base64,<payload>] with the type guessed from the
    URL of the image, and [getMimeType] applied to that content gives
    the same type again, for every URL (every type [getMimeType]
    returns is non-empty and free of semicolons). *)
Theorem embedded_data_uri_reads_back env url context p :
  EmbedBase64_processImage env url context = Ok p →
  content p ≠ FAILED →
  (∃ payload, content p = js "data:" ++ getMimeType env url ++ js ";base64," ++ payload)
  ∧ getMimeType env (content p) = getMimeType env url.
Proof.
  unfold EmbedBase64_processImage.
  destruct (generateImageId env context) as [i|]; cbn [mbind Outcome_bind]; [|done].
  unfold try_catch.
  destruct (getBase64FromImageUrl env url) as [d|]; cbn [mbind Outcome_bind].
  - destruct (getFileSizeFromBase64 d); cbn [mbind Outcome_bind].
    + intros [= <-] _. cbn [content]. split; [by eexists|].
      change (getMimeType env (js "data:" ++ getMimeType env url ++ js ";"
                ++ (js "base64," ++ default (js "undefined") (split 44 d !! 1)))
              = getMimeType env url).
      unfold getMimeType at 1. rewrite startsWith_data.
      destruct (dataUrl_matchFirst (getMimeType env url)
                  (js "base64," ++ default (js "undefined") (split 44 d !! 1))
                  (getMimeType_mimeOk env url)) as [m ->].
      reflexivity.
    + by intros [= <-] [].
  - by intros [= <-] [].
Qed.

Lemma embedded_data_uri_reads_back_witness :
  (∃ payload,
     content (resolved Sample.env embed_base64 (js "https://files/a.jpg", Sample.uploadContext))
     = js "data:" ++ getMimeType Sample.env (js "https://files/a.jpg")
       ++ js ";base64," ++ payload)
  ∧ getMimeType Sample.env
      (content (resolved Sample.env embed_base64 (js "https://files/a.jpg", Sample.uploadContext)))
    = getMimeType Sample.env (js "https://files/a.jpg").
Proof.
  apply (embedded_data_uri_reads_back Sample.env (js "https://files/a.jpg") Sample.uploadContext).
  - vm_compute. reflexivity.
  - by_computation.
Defined.

(* --------------------------------------------------------------------- *)
(** ** generateImageFileName *)
(* --------------------------------------------------------------------- *)

Lemma toNumber_zeros k (s : jsstring) :
  toNumber (replicate k 48%N ++ s) = toNumber s.
Proof.
  unfold toNumber. rewrite fold_left_app.
  replace (fold_left _ (replicate k 48%N) 0) with 0; [done|].
  induction k as [|k IH]; [done|]. cbn [replicate fold_left]. exact IH.
Qed.

Lemma padStart0_inj k n m :
  padStart0 k (toString n) = padStart0 k (toString m) → n = m.
Proof.
  intros H. apply (f_equal toNumber) in H. unfold padStart0 in H.
  by rewrite !toNumber_zeros, !toNumber_toString in H.
Qed.

(** X7. For two contexts with the same author (and one extension),
    [generateImageFileName] returns the same name exactly when the
    image indices are equal: padding the index with zeros loses
    nothing, so within one message the names differ. *)
Theorem file_names_of_one_author_differ_by_index env c1 c2 extension :
  author c1 = author c2 →
  generateImageFileName env c1 extension = generateImageFileName env c2 extension
  ↔ imageIndex c1 = imageIndex c2.
Proof.
  unfold generateImageFileName. intros ->. split; [|by intros ->].
  intros H. apply app_inv_head in H. change (js "-") with [45%N] in H.
  cbn [app] in H. injection H as H.
  apply app_inv_tail in H. by apply padStart0_inj in H.
Qed.

Lemma file_names_of_one_author_differ_by_index_witness :
  generateImageFileName Sample.env Sample.uploadContext (js "png")
  = generateImageFileName Sample.env Sample.uploadContext7 (js "png")
  ↔ imageIndex Sample.uploadContext = imageIndex Sample.uploadContext7.
Proof.
  apply (file_names_of_one_author_differ_by_index Sample.env Sample.uploadContext Sample.uploadContext7).
  reflexivity.
Defined.

(* --------------------------------------------------------------------- *)
(** ** The files and the manifest *)
(* --------------------------------------------------------------------- *)


Lemma resolved_fileShaped env image : fileShaped (resolved env separate_files image).
Proof.
  destruct image as [url context].
  unfold fileShaped, resolved, processOne, try_catch, processImage,
    SeparateFiles_processImage, try_catch, getBase64FromImageUrl, getBase64FromImg,
    getFileSizeFromBase64.
  destruct (generateImageId env context) as [i|]; cbn; [|by left].
  destruct (env_loadImage env url) as [img|]; cbn; [|by left].
  destruct (env_canvas env img) as [| |d]; cbn; [by left|by left|].
  destruct (split 44 d !! 1) as [payload|] eqn:Hsplit; cbn; [|by left].
  right. do 3 eexists. split; [done|]. split; [|done].
  by destruct d.
Qed.

Lemma collectFiles_manifest env strategy ps : ∀ files,
  Forall fileShaped ps →
  collectFiles env ps = Ok files →
  path <$> files
  = (λ e, createImageRelativePath (ei_fileName e))
      <$> images (generateExportMetadata env strategy ps)
  ∧ file_mimeType <$> files = ei_mimeType <$> images (generateExportMetadata env strategy ps).
Proof.
  unfold generateExportMetadata. cbn [images].
  induction ps as [|p ps IH]; intros files Hps.
  - by intros [= <-].
  - apply Forall_cons in Hps as [Hp Hps]. cbn [collectFiles omap list_omap].
    destruct Hp as [Hfn|(od & fn & md & Hod & Htr & Hfn & Hmd & Hc)].
    + rewrite Hfn. destruct (originalData p), (metadata p); cbv beta iota; by apply IH.
    + rewrite Hod, Hfn, Hmd, Htr. cbn [andb]. cbv beta iota.
      destruct (truthy fn); [|by apply IH].
      destruct (base64ToBlob env od _) as [blob|]; cbn [mbind Outcome_bind]; [|done].
      destruct (collectFiles env ps) as [fs|]; cbn [mbind Outcome_bind]; [|done].
      intros [= <-]. destruct (IH fs Hps eq_refl) as [IH1 IH2].
      cbn [fmap list_fmap path file_mimeType ei_fileName ei_mimeType].
      split; f_equal; done.
Qed.

(** X8. When [processConversationImages] resolves: with a strategy
    other than separate_files there are neither files nor metadata;
    files and metadata are present or absent together; and where they
    are present the manifest lists the exported files one by one, in
    order (the i-th file has the path [images/<fileName>] and the MIME
    type of the i-th manifest entry), [totalImages] counts every
    processed image, failed ones included, and the strategy recorded is
    separate_files. *)
Theorem manifest_lists_the_exported_files
    env strategy (pairs : list (jsstring * ImageContext)) format sched :
  sched ≡ₚ seq 0 (length pairs) →
  (strategy = separate_files → decodable env) →
  ∃ r, processConversationImages env strategy pairs format sched = Some (Ok r)
       ∧ (strategy ≠ separate_files → res_files r = None ∧ res_metadata r = None)
       ∧ (res_files r = None ↔ res_metadata r = None)
       ∧ (∀ files md, res_files r = Some files → res_metadata r = Some md →
            path <$> files = (λ e, createImageRelativePath (ei_fileName e)) <$> images md
            ∧ file_mimeType <$> files = ei_mimeType <$> images md
            ∧ totalImages md = length pairs
            ∧ imageHandlingStrategy md = separate_files).
Proof.
  intros Hperm Hdec. unfold processConversationImages.
  rewrite processOne_fmap, Promise_all_fulfilled by (by rewrite length_fmap).
  cbn [mbind option_bind Outcome_bind]. unfold generateContentFromImages.
  destruct (decide (strategy = separate_files)) as [->|Hs].
  - destruct (collectFiles_ok env (resolved env separate_files <$> pairs)) as [files Hfiles].
    { apply Forall_fmap, Forall_forall. intros image _ od. apply separate_payload. auto. }
    rewrite Hfiles. cbn [mbind Outcome_bind].
    eexists. split; [done|]. cbn [res_files res_metadata].
    split; [done|]. split; [by destruct files|].
    intros files' md Hf Hmd. destruct files as [|f files]; [done|].
    injection Hf as <-. injection Hmd as <-.
    destruct (collectFiles_manifest env separate_files (resolved env separate_files <$> pairs)
                (f :: files)) as [H1 H2]; [|done|].
    { apply Forall_fmap, Forall_forall. intros image _. apply resolved_fileShaped. }
    split; [done|]. split; [done|]. cbn. by rewrite length_fmap.
  - cbn [mbind Outcome_bind]. eexists. split; [done|]. cbn [res_files res_metadata].
    done.
Qed.

Lemma manifest_lists_the_exported_files_witness :
  ∃ r, processConversationImages Sample.env separate_files Sample.images markdown [1; 0]
       = Some (Ok r)
       ∧ (separate_files ≠ separate_files → res_files r = None ∧ res_metadata r = None)
       ∧ (res_files r = None ↔ res_metadata r = None)
       ∧ (∀ files md, res_files r = Some files → res_metadata r = Some md →
            path <$> files = (λ e, createImageRelativePath (ei_fileName e)) <$> images md
            ∧ file_mimeType <$> files = ei_mimeType <$> images md
            ∧ totalImages md = length Sample.images
            ∧ imageHandlingStrategy md = separate_files).
Proof.
  apply (manifest_lists_the_exported_files Sample.env separate_files Sample.images markdown
           [1; 0]).
  - change (seq 0 (length Sample.images)) with [0; 1]. apply perm_swap.
  - intros _ url img d payload _ _ _. by eexists.
Defined.

(* --------------------------------------------------------------------- *)
(** ** conversationToMarkdown *)
(* --------------------------------------------------------------------- *)



(* --------------------------------------------------------------------- *)
(** ** What the extractors list *)
(* --------------------------------------------------------------------- *)

Lemma md_extractAggregate_indexed cid mid a t msgs : ∀ i,
  let l := Markdown.extractAggregate cid mid a t msgs i in
  (λ x, imageIndex x.2) <$> l = seq i (length l)
  ∧ Forall (λ x, wellFormedPair cid x ∧ x.1 ≠ [] ∧ messageId x.2 = mid) l.
Proof.
  induction msgs as [|msg msgs IH]; intros i; [done|].
  cbn [Markdown.extractAggregate].
  destruct (image_url msg) as [url|]; [|apply IH].
  destruct (isImageMessage msg) eqn:E; cbn [andb]; [|apply IH].
  destruct url as [|u url]; cbn [truthy]; [apply IH|].
  destruct (IH (S i)) as [H1 H2]. cbv zeta in *. split.
  - cbn [fmap list_fmap length seq]. cbn [fmap] in H1. by rewrite H1.
  - constructor; [|done]. by repeat split.
Qed.

Lemma md_extractParts_indexed cid mid a t parts : ∀ i,
  let l := Markdown.extractParts cid mid a t parts i in
  (λ x, imageIndex x.2) <$> l = seq i (length l)
  ∧ Forall (λ x, wellFormedPair cid x ∧ x.1 ≠ [] ∧ messageId x.2 = mid) l.
Proof.
  induction parts as [|part parts IH]; intros i; [done|].
  cbn [Markdown.extractParts].
  destruct part as [s|ct [ap|] text]; [apply IH| |apply IH].
  destruct (isImagePart _) eqn:E; cbn [andb]; [|apply IH].
  destruct ap as [|u ap]; cbn [truthy]; [apply IH|].
  destruct (IH (S i)) as [H1 H2]. cbv zeta in *. split.
  - cbn [fmap list_fmap length seq]. cbn [fmap] in H1. by rewrite H1.
  - constructor; [|done]. by repeat split.
Qed.

Lemma html_extractParts_indexed cid mid a t parts : ∀ i,
  let l := Html.extractParts cid mid a t parts i in
  (λ x, imageIndex x.2) <$> l = seq i (length l)
  ∧ Forall (λ x, wellFormedPair cid x ∧ messageId x.2 = mid) l.
Proof.
  induction parts as [|part parts IH]; intros i; [done|].
  cbn [Html.extractParts].
  destruct part as [s|ct [ap|] text]; [apply IH| |apply IH].
  destruct (isImagePart _) eqn:E; cbn [andb]; [|apply IH].
  destruct (IH (S i)) as [H1 H2]. cbv zeta in *. split.
  - cbn [fmap list_fmap length seq]. cbn [fmap] in H1. by rewrite H1.
  - constructor; [|done]. by repeat split.
Qed.

(** X10. The pairs an extractor lists for one node are numbered 0, 1,
    2, ... within the message ([imageIndex] restarts at every node);
    each context carries the URL of its pair as [originalUrl], the id
    of the conversation, the author and the MIME type image/png
    whatever the URL; and the extractor of markdown.ts lists no empty
    URL. *)
Theorem extracted_images_are_numbered_per_message cid nodeIndex node :
  (let l := Markdown.extractNode cid nodeIndex node in
   (λ x, imageIndex x.2) <$> l = seq 0 (length l)
   ∧ Forall (λ x, wellFormedPair cid x ∧ x.1 ≠ []) l)
  ∧ (let l := Html.extractNode cid nodeIndex node in
     (λ x, imageIndex x.2) <$> l = seq 0 (length l)
     ∧ Forall (wellFormedPair cid) l).
Proof.
  unfold Markdown.extractNode, Html.extractNode.
  destruct (message node) as [m|]; [|done].
  destruct (msg_content m) as [c|]; [|done].
  destruct c as [| |text| | | |[parts|]|]; try done.
  - destruct (aggregateMessagesOf m) as [msgs|]; [|done].
    change (Html.extractAggregate cid (messageIdOf m nodeIndex) (msg_author m)
              (msg_create_time m) msgs 0)
      with (Markdown.extractAggregate cid (messageIdOf m nodeIndex) (msg_author m)
              (msg_create_time m) msgs 0).
    destruct (md_extractAggregate_indexed cid (messageIdOf m nodeIndex) (msg_author m)
                (msg_create_time m) msgs 0) as [H1 H2].
    cbv zeta in *. repeat split; try done.
    + eapply Forall_impl; [exact H2|]. by intros x (? & ? & ?).
    + eapply Forall_impl; [exact H2|]. by intros x (? & ? & ?).
  - destruct (md_extractParts_indexed cid (messageIdOf m nodeIndex) (msg_author m)
                (msg_create_time m) parts 0) as [H1 H2].
    destruct (html_extractParts_indexed cid (messageIdOf m nodeIndex) (msg_author m)
                (msg_create_time m) parts 0) as [H3 H4].
    cbv zeta in *. repeat split; try done.
    + eapply Forall_impl; [exact H2|]. by intros x (? & ? & ?).
    + eapply Forall_impl; [exact H4|]. by intros x (? & ?).
Qed.

(* --------------------------------------------------------------------- *)
(** ** The rendering loop *)
(* --------------------------------------------------------------------- *)

Lemma renderLoop_same {A} (body : Message → Content → nat → A) nodes : ∀ start,
  Html.renderLoop body nodes start = Markdown.renderLoop body nodes start.
Proof.
  induction nodes as [|node nodes IH]; intros start; [done|].
  cbn [Html.renderLoop Markdown.renderLoop].
  destruct (message node) as [m|]; [|apply IH].
  destruct (msg_content m) as [c|]; [|apply IH].
  destruct (Markdown.skipped m c); [apply IH|]. by rewrite IH.
Qed.

Lemma renderLoop_visible nodes : ∀ start,
  Markdown.renderLoop (λ m c _, (m, c)) nodes start = omap visible nodes.
Proof.
  induction nodes as [|node nodes IH]; intros start; [done|].
  cbn [Markdown.renderLoop omap list_omap]. unfold visible at 1.
  destruct (message node) as [m|]; [|apply IH].
  destruct (msg_content m) as [c|]; [|apply IH].
  destruct (Markdown.skipped m c); [apply IH|]. f_equal. apply IH.
Qed.

(** X11. The loops of the two renderers walk the nodes alike, for
    every body and start index. The messages they render are the
    visible ones, in the order of the nodes: each is addressed to
    [all], and a message of a tool is rendered only if it is
    multimodal text or an execution output. *)
Theorem rendered_messages_are_the_visible_ones
    {A} (body : Message → Content → nat → A) nodes start :
  Html.renderLoop body nodes start = Markdown.renderLoop body nodes start
  ∧ Markdown.renderLoop (λ m c _, (m, c)) nodes start = omap visible nodes
  ∧ Forall (λ x, msg_recipient x.1 = js "all"
                 ∧ (role (msg_author x.1) = js "tool" →
                    Markdown.isMultimodalText x.2 = true
                    ∨ Markdown.isExecutionOutput x.2 = true))
           (omap visible nodes).
Proof.
  split; [apply renderLoop_same|]. split; [apply renderLoop_visible|].
  apply Forall_forall. intros [m c] Hin.
  apply list_elem_of_omap in Hin as (node & _ & Hv). unfold visible in Hv.
  destruct (message node) as [m'|]; [|done].
  destruct (msg_content m') as [c'|]; [|done].
  destruct (Markdown.skipped m' c') eqn:Hs; [done|]. injection Hv as -> ->.
  unfold Markdown.skipped in Hs. apply orb_false_elim in Hs as [Hr Ht].
  apply negb_false_iff in Hr. unfold jseqb in Hr. apply bool_decide_eq_true in Hr.
  split; [done|]. cbn [fst snd]. intros Hrole.
  unfold jseqb in Ht. rewrite (bool_decide_eq_true_2 _ Hrole) in Ht. cbn [andb] in Ht.
  destruct (Markdown.isMultimodalText c); [by left|]. cbn [negb andb] in Ht.
  destruct (Markdown.isExecutionOutput c); [by right|]. done.
Qed.

(* --------------------------------------------------------------------- *)
(** ** The counter and the extractor *)
(* --------------------------------------------------------------------- *)

Lemma extractAggregate_le cid mid a t msgs : ∀ i,
  length (Markdown.extractAggregate cid mid a t msgs i)
  ≤ length (filter (λ m, isImageMessage m) msgs).
Proof.
  induction msgs as [|msg msgs IH]; intros i; [done|].
  cbn [Markdown.extractAggregate]. rewrite filter_cons.
  specialize (IH i) as IH0. specialize (IH (S i)) as IH1.
  destruct (isImageMessage msg) eqn:E.
  - rewrite decide_True by done.
    destruct (image_url msg) as [url|]; [|cbn [length]; lia].
    cbn [andb]. destruct (truthy url); cbn [length]; lia.
  - rewrite decide_False by (intros []).
    destruct (image_url msg) as [url|]; done.
Qed.

Lemma md_extractParts_le cid mid a t parts : ∀ i,
  length (Markdown.extractParts cid mid a t parts i)
  ≤ length (filter (λ p, isImagePart p) parts).
Proof.
  induction parts as [|part parts IH]; intros i; [done|].
  cbn [Markdown.extractParts]. rewrite filter_cons.
  specialize (IH i) as IH0. specialize (IH (S i)) as IH1.
  destruct (isImagePart part) eqn:E.
  - rewrite decide_True by done.
    destruct part as [s|ct [ap|] text]; [cbn [length]; lia| |cbn [length]; lia].
    cbn [andb]. destruct (truthy ap); cbn [length]; lia.
  - rewrite decide_False by (intros []).
    by destruct part as [s|ct [ap|] text].
Qed.

Lemma html_extractParts_le cid mid a t parts : ∀ i,
  length (Html.extractParts cid mid a t parts i)
  ≤ length (filter (λ p, isImagePart p) parts).
Proof.
  induction parts as [|part parts IH]; intros i; [done|].
  cbn [Html.extractParts]. rewrite filter_cons.
  specialize (IH i) as IH0. specialize (IH (S i)) as IH1.
  destruct (isImagePart part) eqn:E.
  - rewrite decide_True by done.
    destruct part as [s|ct [ap|] text]; [cbn [length]; lia| |cbn [length]; lia].
    cbn [length]; lia.
  - rewrite decide_False by (intros []).
    by destruct part as [s|ct [ap|] text].
Qed.

(** X12. For every node, [countImagesInMessage] counts at least as
    many images as the extractor of the same renderer lists for the
    node: over rendered messages the running index can run ahead of
    the extraction, never fall behind it. *)
Theorem counter_never_undercounts cid nodeIndex node :
  length (Markdown.extractNode cid nodeIndex node)
  ≤ default 0 (Markdown.countImagesInMessage <$> message node)
  ∧ length (Html.extractNode cid nodeIndex node)
    ≤ default 0 (Html.countImagesInMessage <$> message node).
Proof.
  unfold Markdown.extractNode, Html.extractNode, Markdown.countImagesInMessage,
    Html.countImagesInMessage.
  destruct (message node) as [m|]; [|done]. cbn [fmap option_fmap option_map default].
  destruct (msg_content m) as [c|]; [|done].
  destruct c as [| |text| | | |[parts|]|]; try done.
  - destruct (aggregateMessagesOf m) as [msgs|]; [|done].
    split; apply extractAggregate_le.
  - split; [apply md_extractParts_le|apply html_extractParts_le].
Qed.

(* --------------------------------------------------------------------- *)
(** ** In step, every image part shows its own image *)
(* --------------------------------------------------------------------- *)

Lemma inStep_app l1 l2 : inStep (l1 ++ l2) → inStep l1 ∧ inStep l2.
Proof.
  intros H. split; intros node m c Hn; apply H; apply elem_of_app; auto.
Qed.

Lemma extractedCount_no_content node :
  (∀ m c, message node = Some m → msg_content m = Some c → False) →
  extractedCount node = 0.
Proof.
  intros H. unfold extractedCount, Markdown.extractNode.
  destruct (message node) as [m|] eqn:Hm; [|done].
  destruct (msg_content m) as [c|] eqn:Hc; [|done]. by destruct (H m c).
Qed.

(** The loop reaches a node with the number of images extracted from
    the nodes before it. *)
Lemma renderLoop_app {A} (body : Message → Content → nat → A) before rest : ∀ start,
  inStep before →
  Markdown.renderLoop body (before ++ rest) start
  = Markdown.renderLoop body before start
    ++ Markdown.renderLoop body rest (start + sum_list (extractedCount <$> before)).
Proof.
  induction before as [|node before IH]; intros start Hstep.
  - cbn. by rewrite Nat.add_0_r.
  - apply (inStep_app [node] before) in Hstep as Hboth. destruct Hboth as [_ Hrest].
    cbn [app Markdown.renderLoop fmap list_fmap sum_list].
    destruct (message node) as [m|] eqn:Hm.
    + destruct (msg_content m) as [c|] eqn:Hc.
      * destruct (Hstep node m c) as [-> ->]; [by left|done|done|].
        rewrite IH by done. cbn [app]. by rewrite Nat.add_assoc.
      * rewrite (extractedCount_no_content node), IH by (done || congruence). done.
    + rewrite (extractedCount_no_content node), IH by (done || congruence). done.
Qed.

Lemma extractImages_app cid (before rest : list Node) :
  mjoin (imap (Markdown.extractNode cid) (before ++ rest))
  = mjoin (imap (Markdown.extractNode cid) before)
    ++ mjoin (imap (Markdown.extractNode cid ∘ Nat.add (length before)) rest).
Proof. by rewrite imap_app, join_app. Qed.

Lemma extractImages_before cid (before : list Node) :
  length (mjoin (imap (Markdown.extractNode cid) before))
  = sum_list (extractedCount <$> before).
Proof.
  apply (extractImages_length {| conv_id := cid; conv_title := []; conversationNodes := before |}).
Qed.

(** Where a message counts as many image parts as the extractor lists
    for it, the k-th image part is the k-th listed pair. *)
Lemma extractParts_lookup cid mid a t parts : ∀ i j ct ap text,
  length (Markdown.extractParts cid mid a t parts j)
  = length (filter (λ p, isImagePart p) parts) →
  parts !! i = Some (PObject ct ap text) →
  isImagePart (PObject ct ap text) = true →
  ∃ pointer context,
    ap = Some pointer
    ∧ Markdown.extractParts cid mid a t parts j
        !! length (filter (λ p, isImagePart p) (take i parts))
      = Some (pointer, context)
    ∧ originalUrl context = pointer ∧ messageId context = mid
    ∧ imageIndex context = j + length (filter (λ p, isImagePart p) (take i parts)).
Proof.
  induction parts as [|part parts IH]; intros i j ct ap text Hlen Hi Himg; [done|].
  cbn [Markdown.extractParts] in *. rewrite filter_cons in Hlen.
  pose proof (md_extractParts_le cid mid a t parts j) as Hle.
  destruct (isImagePart part) eqn:E.
  - rewrite decide_True in Hlen by done. cbn [length] in Hlen.
    destruct part as [s|ct' [ap'|] text']; [done| |lia].
    cbn [andb] in *.
    destruct (truthy ap') eqn:Hap; [|lia]. cbn [length] in Hlen. injection Hlen as Hlen.
    destruct i as [|i].
    + injection Hi as ? ? ?. subst. cbn [take filter list_filter length lookup list_lookup].
      do 2 eexists. split; [done|]. split; [done|]. cbn. split; [done|]. split; [done|]. lia.
    + cbn [lookup list_lookup] in Hi. cbn [take]. rewrite filter_cons.
      rewrite decide_True by (by rewrite E). cbn [length lookup list_lookup].
      destruct (IH i (S j) ct ap text Hlen Hi Himg) as (pointer & context & H1 & H2 & H3 & H4 & H5).
      exists pointer, context. repeat split; try done. lia.
  - rewrite decide_False in Hlen by (intros []).
    assert (Hsame : Markdown.extractParts cid mid a t (part :: parts) j
                    = Markdown.extractParts cid mid a t parts j).
    { cbn [Markdown.extractParts]. destruct part as [s|ct' [ap'|] text']; try done.
      by rewrite E. }
    destruct i as [|i].
    + injection Hi as ->. congruence.
    + cbn [lookup list_lookup] in Hi. cbn [take]. rewrite filter_cons.
      rewrite decide_False by (rewrite E; intros []).
      assert (Hlen' : length (Markdown.extractParts cid mid a t parts j)
                      = length (filter (λ p, isImagePart p) parts)).
      { rewrite <- Hlen. by destruct part as [s|ct' [ap'|] text']. }
      destruct (IH i j ct ap text Hlen' Hi Himg) as (pointer & context & H1 & H2 & H3 & H4 & H5).
      exists pointer, context. repeat split; try done.
      by destruct part as [s|ct' [ap'|] text'].
Qed.

(* --------------------------------------------------------------------- *)
(** ** In step, the two extractors agree *)
(* --------------------------------------------------------------------- *)

Lemma inStep_pointersPresent conversation :
  inStep (conversationNodes conversation) → pointersPresent conversation.
Proof.
  intros Hstep node m parts ct ap text Hnode Hm Hc Hin -> ->.
  destruct (Hstep node m _ Hnode Hm Hc) as [_ Hcount].
  rewrite <- (extractNode_length [] 0) in Hcount.
  unfold Markdown.countImagesInMessage, Markdown.extractNode in Hcount.
  rewrite Hm, Hc in Hcount. symmetry in Hcount.
  apply list_elem_of_lookup in Hin as [i Hi].
  destruct (extractParts_lookup _ _ _ _ parts i 0 _ _ text Hcount Hi)
    as (pointer & context & Hap & Hlook & _).
  { unfold isImagePart, jseqb. by rewrite bool_decide_eq_true_2. }
  injection Hap as <-.
  destruct (md_extractParts_indexed [] (messageIdOf m 0) (msg_author m)
              (msg_create_time m) parts 0) as [_ Hall].
  cbv zeta in Hall. rewrite Forall_forall in Hall.
  apply list_elem_of_lookup_2, Hall in Hlook. by destruct Hlook as (_ & Hne & _).
Qed.

Lemma in_step_extractors_agree conversation :
  inStep (conversationNodes conversation) →
  Html.extractImagesFromConversation conversation
  = Markdown.extractImagesFromConversation conversation.
Proof. intros H. by apply extractors_agree, inStep_pointersPresent. Qed.

(** X13. Where the loop and the extractor are in step ([inStep]:
    every message with content is rendered and counts as many images
    as the extractor lists for it), a multimodal message is reached
    with the number of images extracted before it as its start index,
    the two extractors list the same pairs, and an image part of the
    message is rendered, by both renderers, as the reference to the
    global index [g] at which the extraction lists the pointer of that
    very part, under the id of that message: the processed image shown
    at the part is the one made from it. *)
Theorem in_step_every_image_part_shows_its_own_image
    conversation before node rest m parts i ct ap text :
  conversationNodes conversation = before ++ node :: rest →
  inStep (conversationNodes conversation) →
  message node = Some m →
  msg_content m = Some (CMultimodalText (Some parts)) →
  parts !! i = Some (PObject ct ap text) →
  ct = js "image_asset_pointer" →
  (∀ A (body : Message → Content → nat → A),
     Markdown.renderLoop body (conversationNodes conversation) 0
     = Markdown.renderLoop body before 0
       ++ body m (CMultimodalText (Some parts)) (extractedBefore before)
          :: Markdown.renderLoop body rest (extractedBefore before + extractedCount node))
  ∧ Html.extractImagesFromConversation conversation
    = Markdown.extractImagesFromConversation conversation
  ∧ ∃ g pointer context,
      ap = Some pointer
      ∧ Markdown.extractImagesFromConversation conversation !! g = Some (pointer, context)
      ∧ originalUrl context = pointer
      ∧ messageId context = messageIdOf m (length before)
      ∧ ∀ postProcess env strategy,
          processedFor env strategy conversation !! g
          = Some (resolved env strategy (pointer, context))
          ∧ Markdown.transformPart postProcess (processedFor env strategy conversation)
              (extractedBefore before) parts i (PObject ct ap text)
            = Some (Markdown.imageRef (processedFor env strategy conversation) g)
          ∧ Html.transformPart postProcess (processedFor env strategy conversation)
              (extractedBefore before) parts i (PObject ct ap text)
            = Some (Html.imageRef (processedFor env strategy conversation) g).
Proof.
  intros Hnodes Hstep Hm Hc Hi ->.
  pose proof (in_step_extractors_agree conversation Hstep) as Hagree.
  unfold processedFor, extractedBefore.
  set (start := sum_list (extractedCount <$> before)).
  rewrite Hnodes in Hstep |- *.
  destruct (inStep_app _ _ Hstep) as [Hbefore _].
  destruct (Hstep node m (CMultimodalText (Some parts))) as [Hskip Hcount];
    [apply elem_of_app; right; left|done|done|].
  split; [|split; [done|]].
  - intros A body. rewrite renderLoop_app by done. f_equal.
    cbn [Markdown.renderLoop]. rewrite Hm, Hc, Hskip, Hcount. done.
  - assert (Hlen : length (Markdown.extractParts (conv_id conversation)
                             (messageIdOf m (length before)) (msg_author m)
                             (msg_create_time m) parts 0)
                   = length (filter (λ p, isImagePart p) parts)).
    { rewrite <- (extractNode_length (conv_id conversation) (length before)) in Hcount.
      unfold Markdown.countImagesInMessage, Markdown.extractNode in Hcount.
      rewrite Hm, Hc in Hcount. done. }
    assert (Himg : isImagePart (PObject (js "image_asset_pointer") ap text) = true).
    { unfold isImagePart, jseqb. by rewrite bool_decide_eq_true_2. }
    destruct (extractParts_lookup _ _ _ _ parts i 0 _ ap text Hlen Hi Himg)
      as (pointer & context & Hap & Hlook & Hurl & Hmid & Hidx).
    set (local := length (filter (λ p, isImagePart p) (take i parts))) in *.
    assert (Hg : Markdown.extractImagesFromConversation conversation !! (start + local)
                 = Some (pointer, context)).
    { unfold Markdown.extractImagesFromConversation. rewrite Hnodes, extractImages_app.
      rewrite lookup_app_r; rewrite extractImages_before; [|unfold start; lia].
      replace (start + local - _) with local by (unfold start; lia).
      cbn [imap mjoin list_join]. rewrite lookup_app_l.
      - unfold compose. rewrite Nat.add_0_r. unfold Markdown.extractNode.
        rewrite Hm, Hc. exact Hlook.
      - unfold compose. rewrite Nat.add_0_r. apply lookup_lt_Some in Hlook.
        unfold Markdown.extractNode. by rewrite Hm, Hc. }
    exists (start + local), pointer, context.
    split; [done|]. split; [done|]. split; [done|]. split; [done|].
    intros postProcess env strategy. split; [|split].
    + by rewrite list_lookup_fmap, Hg.
    + unfold Markdown.transformPart, jseqb. by rewrite bool_decide_eq_true_2.
    + unfold Html.transformPart, jseqb. by rewrite bool_decide_eq_true_2.
Qed.

Lemma twoUploads_inStep : inStep (conversationNodes Sample.twoUploads).
Proof.
  intros node m c Hin Hm Hc. cbn in Hin.
  apply elem_of_cons in Hin as [->|Hin];
    [|apply elem_of_cons in Hin as [->|Hin]; [|by apply elem_of_nil in Hin]];
    cbn in Hm; injection Hm as <-; cbn in Hc; injection Hc as <-;
    split; vm_compute; reflexivity.
Qed.

Lemma in_step_every_image_part_shows_its_own_image_witness :
  (∀ A (body : Message → Content → nat → A),
     Markdown.renderLoop body (conversationNodes Sample.twoUploads) 0
     = Markdown.renderLoop body [Sample.firstUpload] 0
       ++ body Sample.m2 (CMultimodalText (Some Sample.parts2))
            (extractedBefore [Sample.firstUpload])
          :: Markdown.renderLoop body []
               (extractedBefore [Sample.firstUpload]
                + extractedCount (Sample.upload (js "m2") (js "all") Sample.parts2)))
  ∧ Html.extractImagesFromConversation Sample.twoUploads
    = Markdown.extractImagesFromConversation Sample.twoUploads
  ∧ ∃ g pointer context,
      Some (js "https://files/b.png") = Some pointer
      ∧ Markdown.extractImagesFromConversation Sample.twoUploads !! g
        = Some (pointer, context)
      ∧ originalUrl context = pointer
      ∧ messageId context = messageIdOf Sample.m2 (length [Sample.firstUpload])
      ∧ ∀ postProcess env strategy,
          processedFor env strategy Sample.twoUploads !! g
          = Some (resolved env strategy (pointer, context))
          ∧ Markdown.transformPart postProcess (processedFor env strategy Sample.twoUploads)
              (extractedBefore [Sample.firstUpload]) Sample.parts2 0
              (PObject (js "image_asset_pointer") (Some (js "https://files/b.png")) None)
            = Some (Markdown.imageRef (processedFor env strategy Sample.twoUploads) g)
          ∧ Html.transformPart postProcess (processedFor env strategy Sample.twoUploads)
              (extractedBefore [Sample.firstUpload]) Sample.parts2 0
              (PObject (js "image_asset_pointer") (Some (js "https://files/b.png")) None)
            = Some (Html.imageRef (processedFor env strategy Sample.twoUploads) g).
Proof.
  apply (in_step_every_image_part_shows_its_own_image Sample.twoUploads
           [Sample.firstUpload] (Sample.upload (js "m2") (js "all") Sample.parts2) []
           Sample.m2 Sample.parts2 0
           (js "image_asset_pointer") (Some (js "https://files/b.png")) None).
  - reflexivity.
  - apply twoUploads_inStep.
  - reflexivity.
  - reflexivity.
  - reflexivity.
  - reflexivity.
Defined.

(* --------------------------------------------------------------------- *)
(** ** Texts a pattern does not match *)
(* --------------------------------------------------------------------- *)

Lemma render_ext fn gn ps : ∀ idx,
  (∀ i m caps, fn i m caps = gn i m caps) →
  render fn idx ps = render gn idx ps.
Proof.
  induction ps as [|[c|m caps] ps IH]; intros idx Hfn; [done| |].
  - cbn. by rewrite (IH idx).
  - cbn. by rewrite Hfn, (IH (S idx)).
Qed.

Lemma omap_hits_none {A} (f : captures → option A) (ps : list piece) :
  (∀ caps, f caps = None) →
  omap (λ p, match p with Hit _ caps => f caps | Keep _ => None end) ps = [].
Proof.
  intros Hf. induction ps as [|[c|m caps] ps IH]; [done| |]; cbn; [done|].
  by rewrite Hf.
Qed.

(** A pattern that fails on every text with the property [P] leaves
    such a text as it is. *)
Lemma scan_misses r (P : jsstring → Prop) (s : jsstring) :
  (∀ prev t, P t → exec_here r prev t = None) →
  (∀ c t, P (c :: t) → P t) →
  P s → ∀ prev, scan r prev s 0 = Keep <$> s.
Proof.
  intros Hmiss Htail. induction s as [|c s IH]; intros Hs prev; cbn [scan].
  - by rewrite Hmiss.
  - rewrite Hmiss by done. cbn [fmap list_fmap]. f_equal. apply IH. by eapply Htail.
Qed.

Lemma replace_misses r (P : jsstring → Prop) fn (s : jsstring) :
  (∀ prev t, P t → exec_here r prev t = None) →
  (∀ c t, P (c :: t) → P t) →
  P s → replace r fn s = s.
Proof.
  intros Hmiss Htail Hs. unfold replace, pieces.
  rewrite (scan_misses r P) by done.
  rewrite <- (app_nil_r (Keep <$> s)), render_keeps. apply app_nil_r.
Qed.

Lemma matchAll_misses r (P : jsstring → Prop) (s : jsstring) :
  (∀ prev t, P t → exec_here r prev t = None) →
  (∀ c t, P (c :: t) → P t) →
  P s → matchAll r s = [].
Proof.
  intros Hmiss Htail Hs. unfold matchAll, pieces.
  rewrite (scan_misses r P) by done. by apply omap_keeps.
Qed.

(* --------------------------------------------------------------------- *)
(** ** Foot notes without citations *)
(* --------------------------------------------------------------------- *)

Lemma findCitation_none metadata citeIndex :
  default [] (metadata ≫= citations) = [] →
  Markdown.findCitation metadata citeIndex = None
  ∧ Html.findCitation metadata citeIndex = None.
Proof.
  unfold Markdown.findCitation, Html.findCitation.
  destruct metadata as [md|]; [|done]. cbn.
  destruct (citations md) as [cites|]; [|done]. cbn. by intros ->.
Qed.

(** X14. For a message whose metadata hold no citation (no metadata,
    no list, or an empty list), [transformFootNotes] leaves every
    marker in place, whatever the text: markdown.ts returns the input
    followed by a blank line, html.ts the input itself. *)
Theorem without_citations_markers_stay (input : jsstring) metadata :
  default [] (metadata ≫= citations) = [] →
  Markdown.transformFootNotes input metadata = input ++ [LF; LF]
  ∧ Html.transformFootNotes input metadata = input.
Proof.
  intros Hnone. split.
  - unfold Markdown.transformFootNotes, Markdown.footNotes_output,
      Markdown.footNotes_citationList, replace.
    rewrite (render_ext _ (λ _ m _, m)).
    + unfold pieces. rewrite scan_reassemble. cbn [drop].
      rewrite (omap_hits_none (λ caps, Markdown.findCitation metadata
                                         (Markdown.citeIndexOf caps))).
      * done.
      * intros caps. by apply findCitation_none.
    + intros i m caps. by rewrite (proj1 (findCitation_none metadata _ Hnone)).
  - unfold Html.transformFootNotes, replace.
    rewrite (render_ext _ (λ _ m _, m)).
    + unfold pieces. by rewrite scan_reassemble.
    + intros i m caps. by rewrite (proj2 (findCitation_none metadata _ Hnone)).
Qed.

Lemma without_citations_markers_stay_witness :
  Markdown.transformFootNotes (marker 3 (js "source")) None
  = marker 3 (js "source") ++ [LF; LF]
  ∧ Html.transformFootNotes (marker 3 (js "source")) None = marker 3 (js "source").
Proof.
  apply (without_citations_markers_stay (marker 3 (js "source")) None). reflexivity.
Defined.

(* --------------------------------------------------------------------- *)
(** ** Texts without formulas *)
(* --------------------------------------------------------------------- *)

Lemma run_chr_absent {R} c prev s caps (k : @kont R) :
  c ∉ s → run (chr c) prev s caps k = None.
Proof.
  destruct s as [|c' s]; [done|]. intros Hc. apply run_chr_miss.
  intros ->. apply Hc. left.
Qed.

Lemma mathFree_tail c t : mathFree (c :: t) → mathFree t.
Proof. intros [H1 H2]. split; intros H; [apply H1|apply H2]; by right. Qed.

Lemma md_latex_miss prev t :
  mathFree t → exec_here Markdown.LatexRegex prev t = None.
Proof.
  intros [Hd Hb]. unfold exec_here, Markdown.LatexRegex. cbn [run lit].
  rewrite !(run_chr_absent Markdown.backslash) by done.
  destruct (at_bol prev); rewrite ?(run_chr_absent Markdown.dollar) by done;
    (destruct t as [|c t]; [done|]; cbn [run];
     assert (Markdown.dollar ∉ t) by (intros ?; apply Hd; by right);
     destruct (space c); rewrite ?(run_chr_absent Markdown.dollar) by done; done).
Qed.

Lemma html_latex_miss prev t :
  mathFree t → exec_here Html.LatexRegex prev t = None.
Proof.
  intros [Hd Hb]. unfold exec_here, Html.LatexRegex. cbn [run lit].
  change Html.backslash with Markdown.backslash. change Html.dollar with Markdown.dollar.
  rewrite !(run_chr_absent Markdown.backslash) by done.
  destruct (at_bol prev); rewrite ?(run_chr_absent Markdown.dollar) by done;
    (destruct t as [|c t]; [done|]; cbn [run];
     assert (Markdown.dollar ∉ t) by (intros ?; apply Hd; by right);
     destruct (space c); rewrite ?(run_chr_absent Markdown.dollar) by done; done).
Qed.

Lemma backslash_lit_miss x prev t :
  mathFree t → exec_here (lit [Markdown.backslash; x]) prev t = None.
Proof.
  intros [_ Hb]. unfold exec_here. cbn [run lit]. by rewrite run_chr_absent.
Qed.

Lemma displayLine_miss prev t :
  mathFree t → exec_here Markdown.displayLineRegex prev t = None.
Proof.
  intros [_ Hb]. unfold exec_here, Markdown.displayLineRegex. cbn [run lit].
  destruct (at_bol prev); [|done]. by rewrite run_chr_absent.
Qed.

Lemma md_normalizeMath_plain (s : jsstring) : mathFree s → Markdown.normalizeMath s = s.
Proof.
  intros Hs. unfold Markdown.normalizeMath.
  rewrite (replace_misses Markdown.displayLineRegex mathFree _ s);
    [|by intros; apply displayLine_miss|apply mathFree_tail|done].
  by rewrite !(replace_misses (lit [Markdown.backslash; _]) mathFree _ s)
    by (done || apply mathFree_tail || (intros; by apply backslash_lit_miss)).
Qed.

(** X15. A text with neither dollar nor backslash has no formula
    span, and reformatting it is the structural round trip alone, in
    both renderers: no delimiter is changed and no sentinel is put in
    or taken out. *)
Theorem text_without_formulas_is_only_round_tripped
    (r : Renderer) (roundTrip : jsstring → jsstring) (input : jsstring) :
  mathFree input →
  spansOf r input = [] ∧ reformatOf r roundTrip input = roundTrip input.
Proof.
  intros Hs. destruct r; unfold spansOf, reformatOf, scannedText, latexRegexOf.
  - unfold Markdown.reformat. rewrite md_normalizeMath_plain by done.
    rewrite (matchAll_misses Markdown.LatexRegex mathFree)
      by (done || apply mathFree_tail || (intros; by apply md_latex_miss)).
    split; [done|]. rewrite bool_decide_eq_true_2 by done. cbn [negb].
    by rewrite andb_false_r.
  - unfold Html.reformat.
    rewrite (matchAll_misses Html.LatexRegex mathFree)
      by (done || apply mathFree_tail || (intros; by apply html_latex_miss)).
    split; [done|]. rewrite bool_decide_eq_true_2 by done. cbn [negb].
    by rewrite andb_false_r.
Qed.

Lemma text_without_formulas_is_only_round_tripped_witness :
  spansOf ToHtml (js "Costs 5 & up") = []
  ∧ reformatOf ToHtml (λ s, js "<p>" ++ s ++ js "</p>") (js "Costs 5 & up")
    = (λ s, js "<p>" ++ s ++ js "</p>") (js "Costs 5 & up").
Proof.
  apply (text_without_formulas_is_only_round_tripped ToHtml
           (λ s, js "<p>" ++ s ++ js "</p>") (js "Costs 5 & up")).
  split; by_computation.
Defined.

(* --------------------------------------------------------------------- *)
(** ** Messages of other authors *)
(* --------------------------------------------------------------------- *)

(** X16. Only the text of the assistant is reformatted: for any other
    author the post-processing of markdown.ts returns its input, and
    that of html.ts returns its input too, except for the user, whose
    text is escaped unit by unit and wrapped in the no-katex paragraph.
    The round trip is not applied. *)
Theorem only_assistant_text_is_reformatted
    (roundTrip : jsstring → jsstring) (message : Message) (input : jsstring) :
  role (msg_author message) ≠ js "assistant" →
  Markdown.postProcess roundTrip message input = input
  ∧ Html.postProcess roundTrip message input
    = if jseqb (role (msg_author message)) (js "user")
      then noKatex (input ≫= escapeUnit)
      else input.
Proof.
  intros Hrole. unfold Markdown.postProcess, Html.postProcess, Markdown.postSteps,
    Html.postSteps, jseqb.
  rewrite !bool_decide_eq_false_2 by done. split; [done|].
  cbn [app]. case_bool_decide; [|done]. cbn [fold_left].
  by rewrite escapeHtml_bind.
Qed.

Lemma only_assistant_text_is_reformatted_witness :
  Markdown.postProcess (λ _, js "parsed") Sample.m2 (js "a < b") = js "a < b"
  ∧ Html.postProcess (λ _, js "parsed") Sample.m2 (js "a < b")
    = if jseqb (role (msg_author Sample.m2)) (js "user")
      then noKatex (js "a < b" ≫= escapeUnit)
      else js "a < b".
Proof.
  apply (only_assistant_text_is_reformatted (λ _, js "parsed") Sample.m2 (js "a < b")).
  by_computation.
Defined.

(* --------------------------------------------------------------------- *)
(** ** Names that do not repeat *)
(* --------------------------------------------------------------------- *)

Lemma archiveNames_md_fresh names : ∀ m,
  NoDup names → (∀ n, n ∈ names → m !! n = None) →
  Markdown.archiveNames names m = names.
Proof.
  induction names as [|n names IH]; intros m Hnd Hm; [done|].
  apply NoDup_cons in Hnd as [Hn Hnd]. cbn [Markdown.archiveNames].
  rewrite Hm by left. f_equal. apply IH; [done|].
  intros n' Hn'. rewrite lookup_insert_ne; [apply Hm; by right|]. by intros ->.
Qed.

Lemma archiveNames_html_fresh names : ∀ m,
  NoDup names → (∀ n, n ∈ names → m !! n = None) →
  Html.archiveNames names m = names.
Proof.
  induction names as [|n names IH]; intros m Hnd Hm; [done|].
  apply NoDup_cons in Hnd as [Hn Hnd]. cbn [Html.archiveNames].
  rewrite Hm by left. f_equal. apply IH; [done|].
  intros n' Hn'. rewrite lookup_insert_ne; [apply Hm; by right|]. by intros ->.
Qed.

(** X17. In a batch export whose computed file names are pairwise
    different, every document is stored under its computed name, in
    both formats. *)
Theorem distinct_names_are_kept {C : Type}
    (getFileNameWithFormat : jsstring → jsstring → C → jsstring)
    (fileNameFormat : jsstring) (conversations : list C) :
  NoDup ((λ c, getFileNameWithFormat fileNameFormat (js "md") c) <$> conversations) →
  NoDup ((λ c, getFileNameWithFormat fileNameFormat (js "html") c) <$> conversations) →
  Markdown.exportAllToMarkdown_fileNames getFileNameWithFormat fileNameFormat conversations
  = (λ c, getFileNameWithFormat fileNameFormat (js "md") c) <$> conversations
  ∧ Html.exportAllToHtml_fileNames getFileNameWithFormat fileNameFormat conversations
    = (λ c, getFileNameWithFormat fileNameFormat (js "html") c) <$> conversations.
Proof.
  intros Hmd Hhtml. split.
  - apply archiveNames_md_fresh; [done|]. intros. apply lookup_empty.
  - apply archiveNames_html_fresh; [done|]. intros. apply lookup_empty.
Qed.

Lemma distinct_names_are_kept_witness :
  Markdown.exportAllToMarkdown_fileNames Sample.nameOf (js "chat-") [js "A"; js "B"]
  = (λ c, Sample.nameOf (js "chat-") (js "md") c) <$> [js "A"; js "B"]
  ∧ Html.exportAllToHtml_fileNames Sample.nameOf (js "chat-") [js "A"; js "B"]
    = (λ c, Sample.nameOf (js "chat-") (js "html") c) <$> [js "A"; js "B"].
Proof.
  apply (distinct_names_are_kept Sample.nameOf (js "chat-") [js "A"; js "B"]);
    by_computation.
Defined.

(* --------------------------------------------------------------------- *)
(** ** In step, every plot of a run shows its own image *)
(* --------------------------------------------------------------------- *)

Lemma extractAggregate_lookup cid mid a t msgs : ∀ j index msg,
  length (Markdown.extractAggregate cid mid a t msgs j)
  = length (filter (λ m, isImageMessage m) msgs) →
  filter (λ m, isImageMessage m) msgs !! index = Some msg →
  ∃ url context,
    image_url msg = Some url
    ∧ Markdown.extractAggregate cid mid a t msgs j !! index = Some (url, context)
    ∧ originalUrl context = url ∧ messageId context = mid
    ∧ imageIndex context = j + index.
Proof.
  induction msgs as [|msg0 msgs IH]; intros j index msg Hlen Hi; [done|].
  cbn [Markdown.extractAggregate] in *. rewrite filter_cons in Hlen, Hi.
  pose proof (extractAggregate_le cid mid a t msgs j) as Hle.
  destruct (isImageMessage msg0) eqn:E.
  - rewrite decide_True in Hlen, Hi by done. cbn [length] in Hlen.
    destruct (image_url msg0) as [url|] eqn:Hurl; [|lia]. cbn [andb] in *.
    destruct (truthy url) eqn:Htr; [|lia]. cbn [length] in Hlen. injection Hlen as Hlen.
    destruct index as [|index].
    + injection Hi as <-. do 2 eexists. split; [done|]. split; [done|]. cbn.
      split; [done|]. split; [done|]. lia.
    + cbn [lookup list_lookup] in Hi |- *.
      destruct (IH (S j) index msg Hlen Hi) as (u & context & H1 & H2 & H3 & H4 & H5).
      exists u, context. repeat split; try done. lia.
  - rewrite decide_False in Hlen, Hi by (intros []).
    destruct (image_url msg0); cbn [andb] in *; by apply IH.
Qed.

Lemma imap_offset {A B} (f : nat → B) (l : list A) : ∀ s,
  imap (λ k _, f (s + k)) l = f <$> seq s (length l).
Proof.
  induction l as [|x l IH]; intros s; [done|].
  cbn [imap length seq fmap list_fmap]. rewrite Nat.add_0_r. f_equal.
  rewrite <- IH. apply imap_ext. intros k y _. cbn. f_equal. lia.
Qed.

Lemma md_imageRef_truthy imgs g : truthy (Markdown.imageRef imgs g) = true.
Proof.
  unfold Markdown.imageRef. destruct (imgs !! g) as [p|]; [|done].
  by destruct (truthy (content p)).
Qed.

Lemma html_imageRef_truthy imgs g : truthy (Html.imageRef imgs g) = true.
Proof.
  unfold Html.imageRef. destruct (imgs !! g) as [p|]; [|done].
  by destruct (truthy (content p)).
Qed.

Lemma join_truthy sep (x : jsstring) xs : truthy x = true → truthy (join sep (x :: xs)) = true.
Proof. destruct x; [done|]. by destruct xs. Qed.

(** X18. Where the loop and the extractor are in step, the images of
    an execution output are shown by the references to consecutive
    global indices from the start index on, appended to the fenced
    result after a blank line, in both renderers; and at the index
    used for the k-th image message the extraction lists the URL of
    that very message, under the id of the message. *)
Theorem in_step_every_plot_shows_its_own_image
    conversation before node rest m text msgs index msg :
  conversationNodes conversation = before ++ node :: rest →
  inStep (conversationNodes conversation) →
  message node = Some m →
  msg_content m = Some (CExecutionOutput text) →
  aggregateMessagesOf m = Some msgs →
  filter (λ x, isImageMessage x) msgs !! index = Some msg →
  (∃ url context,
     image_url msg = Some url
     ∧ Markdown.extractImagesFromConversation conversation !! (extractedBefore before + index)
       = Some (url, context)
     ∧ originalUrl context = url
     ∧ messageId context = messageIdOf m (length before))
  ∧ ∀ postProcess processedImages,
      Markdown.transformContent (CExecutionOutput text) (msg_metadata m) postProcess
        processedImages (extractedBefore before)
      = postProcess
          (Markdown.fence (js "Result") text ++ [LF; LF]
           ++ join [LF; LF]
                (Markdown.imageRef processedImages
                   <$> seq (extractedBefore before)
                           (length (filter (λ x, isImageMessage x) msgs))))
      ∧ Html.transformContent (CExecutionOutput text) (msg_metadata m) postProcess
          processedImages (extractedBefore before)
        = postProcess
            (Html.fence (js "Result") text ++ [LF; LF]
             ++ join [LF; LF]
                  (Html.imageRef processedImages
                     <$> seq (extractedBefore before)
                             (length (filter (λ x, isImageMessage x) msgs)))).
Proof.
  intros Hnodes Hstep Hm Hc Hagg Hi. unfold extractedBefore.
  set (start := sum_list (extractedCount <$> before)).
  rewrite Hnodes in Hstep.
  destruct (inStep_app _ _ Hstep) as [Hbefore _].
  destruct (Hstep node m (CExecutionOutput text)) as [Hskip Hcount];
    [apply elem_of_app; right; left|done|done|].
  split.
  - assert (Hlen : length (Markdown.extractAggregate (conv_id conversation)
                             (messageIdOf m (length before)) (msg_author m)
                             (msg_create_time m) msgs 0)
                   = length (filter (λ x, isImageMessage x) msgs)).
    { rewrite <- (extractNode_length (conv_id conversation) (length before)) in Hcount.
      unfold Markdown.countImagesInMessage, Markdown.extractNode in Hcount.
      rewrite Hm, Hc, Hagg in Hcount. done. }
    destruct (extractAggregate_lookup _ _ _ _ msgs 0 index msg Hlen Hi)
      as (url & context & Hurl & Hlook & Horig & Hmid & Hidx).
    exists url, context. split; [done|]. split; [|done].
    unfold Markdown.extractImagesFromConversation. rewrite Hnodes, extractImages_app.
    rewrite lookup_app_r; rewrite extractImages_before; [|unfold start; lia].
    replace (start + index - _) with index by (unfold start; lia).
    cbn [imap mjoin list_join]. rewrite lookup_app_l.
    + unfold compose. rewrite Nat.add_0_r. unfold Markdown.extractNode.
      rewrite Hm, Hc, Hagg. exact Hlook.
    + unfold compose. rewrite Nat.add_0_r. apply lookup_lt_Some in Hlook.
      unfold Markdown.extractNode. by rewrite Hm, Hc, Hagg.
  - intros postProcess processedImages.
    unfold Markdown.transformContent, Html.transformContent.
    unfold aggregateMessagesOf in Hagg. rewrite Hagg.
    destruct (filter (λ x, isImageMessage x) msgs) as [|im ims] eqn:Hf; [done|].
    rewrite <- Hf in *. rewrite !imap_offset. rewrite Hf.
    cbn [length seq fmap list_fmap].
    by rewrite !join_truthy by (apply md_imageRef_truthy || apply html_imageRef_truthy).
Qed.

Lemma withPlot_inStep : inStep (conversationNodes Sample.withPlot).
Proof.
  intros node m c Hin Hm Hc. cbn in Hin.
  apply elem_of_cons in Hin as [->|Hin];
    [|apply elem_of_cons in Hin as [->|Hin]; [|by apply elem_of_nil in Hin]];
    cbn in Hm; injection Hm as <-; cbn in Hc; injection Hc as <-;
    split; vm_compute; reflexivity.
Qed.

Lemma in_step_every_plot_shows_its_own_image_witness :
  (∃ url context,
     image_url Sample.plot = Some url
     ∧ Markdown.extractImagesFromConversation Sample.withPlot
         !! (extractedBefore [Sample.firstUpload] + 0)
       = Some (url, context)
     ∧ originalUrl context = url
     ∧ messageId context = messageIdOf Sample.pythonRun (length [Sample.firstUpload]))
  ∧ ∀ postProcess processedImages,
      Markdown.transformContent (CExecutionOutput (js "done")) (msg_metadata Sample.pythonRun)
        postProcess processedImages (extractedBefore [Sample.firstUpload])
      = postProcess
          (Markdown.fence (js "Result") (js "done") ++ [LF; LF]
           ++ join [LF; LF]
                (Markdown.imageRef processedImages
                   <$> seq (extractedBefore [Sample.firstUpload])
                           (length (filter (λ x, isImageMessage x)
                                      [Sample.stdout; Sample.plot]))))
      ∧ Html.transformContent (CExecutionOutput (js "done")) (msg_metadata Sample.pythonRun)
          postProcess processedImages (extractedBefore [Sample.firstUpload])
        = postProcess
            (Html.fence (js "Result") (js "done") ++ [LF; LF]
             ++ join [LF; LF]
                  (Html.imageRef processedImages
                     <$> seq (extractedBefore [Sample.firstUpload])
                             (length (filter (λ x, isImageMessage x)
                                        [Sample.stdout; Sample.plot])))).
Proof.
  apply (in_step_every_plot_shows_its_own_image Sample.withPlot
           [Sample.firstUpload] {| message := Some Sample.pythonRun |} [] Sample.pythonRun (js "done")
           [Sample.stdout; Sample.plot] 0 Sample.plot).
  - reflexivity.
  - apply withPlot_inStep.
  - reflexivity.
  - reflexivity.
  - reflexivity.
  - reflexivity.
Defined.

(* --------------------------------------------------------------------- *)
(** ** Generated names are not registered *)
(* --------------------------------------------------------------------- *)

Lemma generated_differs cut ext (fileName : jsstring) :
  length ext + 4 > cut →
  slice_to_minus cut fileName ++ js " (1)." ++ ext ≠ fileName.
Proof.
  intros Hcut H. apply (f_equal length) in H.
  unfold slice_to_minus in H. rewrite !length_app, length_take in H.
  change (length (js " (1).")) with 5 in H. lia.
Qed.

(** X19. The names generated for repeated file names are not entered
    in the map: after two conversations with the computed name
    [fileName], a third whose computed name is the name generated for
    the second is stored under that same name again, in both formats.
    Archive names can so repeat although computed names that repeat
    are told apart. *)
Theorem generated_names_are_not_registered (fileName : jsstring) :
  (let generated := slice_to_minus 3 fileName ++ js " (1).md" in
   Markdown.archiveNames [fileName; fileName; generated] ∅
   = [fileName; generated; generated])
  ∧ (let generated := slice_to_minus 5 fileName ++ js " (1).html" in
     Html.archiveNames [fileName; fileName; generated] ∅
     = [fileName; generated; generated]).
Proof.
  split; intros generated; cbn [Markdown.archiveNames Html.archiveNames].
  - rewrite lookup_empty, lookup_insert_eq.
    rewrite lookup_insert_ne by (apply not_eq_sym, (generated_differs 3 (js "md")); cbn; lia).
    rewrite lookup_insert_ne by (apply not_eq_sym, (generated_differs 3 (js "md")); cbn; lia).
    by rewrite lookup_empty.
  - rewrite lookup_empty, lookup_insert_eq.
    rewrite lookup_insert_ne by (apply not_eq_sym, (generated_differs 5 (js "html")); cbn; lia).
    rewrite lookup_insert_ne by (apply not_eq_sym, (generated_differs 5 (js "html")); cbn; lia).
    by rewrite lookup_empty.
Qed.

(* --------------------------------------------------------------------- *)
(** ** The legacy image data *)
(* --------------------------------------------------------------------- *)

(** X20. [createImageContext] guesses the MIME type from [image_url]
    alone: without a non-empty [image_url] the type is image/png and
    the original URL is the asset pointer (or empty); with one the
    original URL is that URL and, unless it is a data URI, the type is
    the one [getMimeType] guesses, except that svg is given as
    image/png. *)
Theorem legacy_mime_type_is_guessed_from_the_image_url
    env imageData cid mid index a t :
  (truthy_opt (legacy_image_url imageData) = false →
     mimeType (createImageContext env imageData cid mid index a t) = js "image/png"
     ∧ originalUrl (createImageContext env imageData cid mid index a t)
       = if truthy_opt (legacy_asset_pointer imageData)
         then default [] (legacy_asset_pointer imageData) else [])
  ∧ (∀ url, legacy_image_url imageData = Some url → truthy url = true →
       originalUrl (createImageContext env imageData cid mid index a t) = url
       ∧ (startsWith (js "data:") url = false →
          mimeType (createImageContext env imageData cid mid index a t)
          = if jseqb (getMimeType env url) (js "image/svg+xml")
            then js "image/png" else getMimeType env url)).
Proof.
  unfold createImageContext, getMimeTypeFromImageData.
  cbn [mimeType originalUrl]. split.
  - intros Hno. rewrite Hno. destruct (legacy_image_url imageData) as [url|]; [|done].
    cbn [truthy_opt] in Hno. by rewrite Hno.
  - intros url -> Hurl. cbn [truthy_opt default]. rewrite Hurl. split; [done|].
    intros Hdata. unfold getMimeType. rewrite Hdata. cbv zeta.
    set (extension := env_toLowerCase env (default [] (last (split 46 url)))).
    destruct (jseqb extension (js "jpg") || jseqb extension (js "jpeg")); [reflexivity|].
    destruct (jseqb extension (js "png")); [reflexivity|].
    destruct (jseqb extension (js "gif")); [reflexivity|].
    destruct (jseqb extension (js "webp")); [reflexivity|].
    destruct (jseqb extension (js "svg")); reflexivity.
Qed.

(* --------------------------------------------------------------------- *)
(** ** The text marker *)
(* --------------------------------------------------------------------- *)

(** X21. The text-marker strategy does not depend on what loading,
    the canvas and [atob] do. Its content is the marker text of the
    settings, which is never empty, there is no payload and no file
    name, and the Markdown renderer therefore shows the marker inside
    an image reference. *)
Theorem text_marker_needs_no_image env loadImage canvas atob url context :
  processImage {| env_loadImage := loadImage;
                  env_canvas := canvas;
                  env_btoa := env_btoa env;
                  env_atob := atob;
                  env_toLowerCase := env_toLowerCase env;
                  env_Date_now := env_Date_now env;
                  env_toISOString := env_toISOString env;
                  env_random := env_random env;
                  env_customMarker := env_customMarker env |}
    text_marker url context
  = processImage env text_marker url context
  ∧ match processImage env text_marker url context with
    | Ok p =>
        content p = getCustomMarkerText env ∧ truthy (content p) = true
        ∧ originalData p = None ∧ fileName p = None
        ∧ Markdown.imageRef [p] 0 = js "![image](" ++ getCustomMarkerText env ++ js ")"
    | Throw _ => True
    end.
Proof.
  split; [done|]. cbn [processImage]. unfold TextMarker_processImage.
  destruct (generateImageId env context) as [i|]; cbn [mbind Outcome_bind]; [|done].
  cbn [content originalData fileName].
  assert (Htr : truthy (getCustomMarkerText env) = true).
  { unfold getCustomMarkerText. destruct (env_customMarker env) as [mk|]; [|done].
    by destruct (truthy mk) eqn:E. }
  repeat split; try done.
  unfold Markdown.imageRef. cbn [lookup list_lookup content]. by rewrite Htr.
Qed.

(* --------------------------------------------------------------------- *)
(** ** Where the files go *)
(* --------------------------------------------------------------------- *)

Lemma resolved_safe_name env image fn :
  lowerCaseKeepsSafe env →
  fileName (resolved env separate_files image) = Some fn →
  content (resolved env separate_files image) = createImageRelativePath fn
  ∧ Forall (λ c, unsafeChar c = false ∧ space c = false) fn.
Proof.
  intros Hlower. destruct image as [url context].
  unfold resolved, processOne, try_catch, processImage, SeparateFiles_processImage, try_catch.
  destruct (generateImageId env context) as [i|]; cbn [mbind Outcome_bind]; [|done].
  destruct (getBase64FromImageUrl env url) as [d|]; cbn [mbind Outcome_bind]; [|done].
  destruct (getFileSizeFromBase64 d); cbn [mbind Outcome_bind]; [|done].
  cbn [fileName content]. intros [= <-]. split; [done|].
  by apply sanitizeFileName_safe_units.
Qed.

Lemma collectFiles_paths env (Q : jsstring → Prop) ps : ∀ files,
  Forall (λ p, ∀ fn, fileName p = Some fn → content p = createImageRelativePath fn ∧ Q fn) ps →
  collectFiles env ps = Ok files →
  Forall (λ f, ∃ fn, path f = createImageRelativePath fn ∧ Q fn) files.
Proof.
  induction ps as [|p ps IH]; intros files Hps; [by intros [= <-]|].
  apply Forall_cons in Hps as [Hp Hps]. cbn [collectFiles].
  destruct (originalData p) as [od|]; [|by apply IH].
  destruct (fileName p) as [fn|]; [|by apply IH].
  destruct (metadata p) as [md|]; [|by apply IH].
  destruct (truthy od && truthy fn); [|by apply IH].
  destruct (base64ToBlob env od _) as [blob|]; cbn [mbind Outcome_bind]; [|done].
  destruct (collectFiles env ps) as [fs|]; cbn [mbind Outcome_bind]; [|done].
  intros [= <-]. constructor; [|by apply IH].
  destruct (Hp fn eq_refl) as [Hc Hq]. by exists fn.
Qed.

(** X22. Every file the handler exports has a path of the form
    [images/<name>] in which <name> holds no slash, no backslash, none
    of the other units [sanitizeFileName] replaces and no white space
    (lower-casing being taken to bring in none). *)
Theorem exported_files_stay_in_the_images_folder
    env (pairs : list (jsstring * ImageContext)) format sched :
  sched ≡ₚ seq 0 (length pairs) →
  decodable env →
  lowerCaseKeepsSafe env →
  ∃ r, processConversationImages env separate_files pairs format sched = Some (Ok r)
       ∧ Forall (λ f, ∃ fn, path f = js "images/" ++ fn
                            ∧ Forall (λ c, unsafeChar c = false ∧ space c = false) fn)
                (default [] (res_files r)).
Proof.
  intros Hperm Hdec Hlower. unfold processConversationImages.
  rewrite processOne_fmap, Promise_all_fulfilled by (by rewrite length_fmap).
  cbn [mbind option_bind Outcome_bind]. unfold generateContentFromImages.
  rewrite decide_True by done.
  destruct (collectFiles_ok env (resolved env separate_files <$> pairs)) as [files Hfiles].
  { apply Forall_fmap, Forall_forall. intros image _ od. apply separate_payload. auto. }
  rewrite Hfiles. cbn [mbind Outcome_bind]. eexists. split; [done|]. cbn [res_files].
  assert (Hall : Forall (λ f, ∃ fn, path f = js "images/" ++ fn
                   ∧ Forall (λ c, unsafeChar c = false ∧ space c = false) fn) files).
  { eapply collectFiles_paths; [|exact Hfiles].
    apply Forall_fmap, Forall_forall. intros image _ fn. by apply resolved_safe_name. }
  by destruct files.
Qed.

Lemma exported_files_stay_in_the_images_folder_witness :
  ∃ r, processConversationImages Sample.env separate_files Sample.images markdown [1; 0]
       = Some (Ok r)
       ∧ Forall (λ f, ∃ fn, path f = js "images/" ++ fn
                            ∧ Forall (λ c, unsafeChar c = false ∧ space c = false) fn)
                (default [] (res_files r)).
Proof.
  apply (exported_files_stay_in_the_images_folder Sample.env Sample.images markdown [1; 0]).
  - change (seq 0 (length Sample.images)) with [0; 1]. apply perm_swap.
  - intros url img d payload _ _ _. by eexists.
  - apply sample_lowerCaseKeepsSafe.
Defined.

Import StringReplace.

(* --------------------------------------------------------------------- *)
(** ** Replacing a string by a string *)
(* --------------------------------------------------------------------- *)

Lemma startsWith_app (p s : jsstring) : startsWith p (p ++ s) = true.
Proof. induction p as [|c p IH]; [done|]. cbn. by rewrite N.eqb_refl. Qed.

Lemma startsWith_head c p d (s : jsstring) : c ≠ d → startsWith (c :: p) (d :: s) = false.
Proof. intros H. cbn. by apply N.eqb_neq in H as ->. Qed.

Lemma splitAt_cons pat d (s : jsstring) :
  splitAt pat (d :: s)
  = if startsWith pat (d :: s) then Some ([], drop (length pat) (d :: s))
    else match splitAt pat s with
         | Some (pre, post) => Some (d :: pre, post)
         | None => None
         end.
Proof. done. Qed.

Lemma splitAt_absent c p (s : jsstring) : c ∉ s → splitAt (c :: p) s = None.
Proof.
  induction s as [|d s IH]; intros Hc; [done|].
  rewrite splitAt_cons, startsWith_head by (intros ->; apply Hc; left).
  rewrite IH; [done|]. intros H. apply Hc. by right.
Qed.

Lemma splitAt_first c p (a b : jsstring) :
  c ∉ a → splitAt (c :: p) (a ++ (c :: p) ++ b) = Some (a, b).
Proof.
  induction a as [|d a IH]; intros Hc.
  - change ([] ++ (c :: p) ++ b) with (c :: (p ++ b)). rewrite splitAt_cons.
    change (c :: (p ++ b)) with ((c :: p) ++ b).
    by rewrite startsWith_app, drop_app_length.
  - change ((d :: a) ++ (c :: p) ++ b) with (d :: (a ++ (c :: p) ++ b)).
    rewrite splitAt_cons, startsWith_head by (intros ->; apply Hc; left).
    rewrite IH; [done|]. intros H. apply Hc. by right.
Qed.

(** A pattern is not found in a text whose only opening brace starts
    something else. *)
Lemma splitAt_other c p w (a b : jsstring) :
  c ∉ a → c ∉ w → c ∉ b →
  startsWith (c :: p) (c :: w ++ b) = false →
  splitAt (c :: p) (a ++ (c :: w) ++ b) = None.
Proof.
  intros Ha Hw Hb Hstart. induction a as [|d a IH].
  - change ([] ++ (c :: w) ++ b) with (c :: (w ++ b)). rewrite splitAt_cons, Hstart.
    rewrite splitAt_absent; [done|]. intros H%elem_of_app. by destruct H.
  - change ((d :: a) ++ (c :: w) ++ b) with (d :: (a ++ (c :: w) ++ b)).
    rewrite splitAt_cons, startsWith_head by (intros ->; apply Ha; left).
    rewrite IH; [done|]. intros H. apply Ha. by right.
Qed.

Lemma getSubstitution_plain matched pre post (t : jsstring) :
  36%N ∉ t → getSubstitution matched pre post t = t.
Proof.
  induction t as [|c t IH]; intros Hd; [done|]. cbn [getSubstitution].
  destruct (N.eqb_spec c 36) as [->|_]; [exfalso; apply Hd; left|].
  rewrite IH; [done|]. intros H. apply Hd. by right.
Qed.

Lemma replaceString_absent c p r (s : jsstring) :
  c ∉ s → replaceString (c :: p) r s = s.
Proof. intros H. unfold replaceString. by rewrite splitAt_absent. Qed.

Lemma replaceString_first c p r (a b : jsstring) :
  c ∉ a → 36%N ∉ r →
  replaceString (c :: p) r (a ++ (c :: p) ++ b) = a ++ r ++ b.
Proof.
  intros Ha Hr. unfold replaceString.
  by rewrite splitAt_first, getSubstitution_plain.
Qed.

Lemma replaceString_other c p r w (a b : jsstring) :
  c ∉ a → c ∉ w → c ∉ b →
  startsWith (c :: p) (c :: w ++ b) = false →
  replaceString (c :: p) r (a ++ (c :: w) ++ b) = a ++ (c :: w) ++ b.
Proof. intros. unfold replaceString. by rewrite splitAt_other. Qed.

(* --------------------------------------------------------------------- *)
(** ** The meta list *)
(* --------------------------------------------------------------------- *)

Lemma md_metaValue_plain info (value : jsstring) :
  123%N ∉ value → Markdown.metaValue info value = value.
Proof.
  intros H. unfold Markdown.metaValue.
  change (js "{title}") with (123%N :: js "title}").
  change (js "{date}") with (123%N :: js "date}").
  change (js "{timestamp}") with (123%N :: js "timestamp}").
  change (js "{source}") with (123%N :: js "source}").
  change (js "{model}") with (123%N :: js "model}").
  change (js "{model_name}") with (123%N :: js "model_name}").
  change (js "{create_time}") with (123%N :: js "create_time}").
  change (js "{update_time}") with (123%N :: js "update_time}").
  by rewrite !(replaceString_absent _ _ _ value) by done.
Qed.

Lemma html_metaValue_plain info (value : jsstring) :
  123%N ∉ value → Html.metaValue info value = value.
Proof.
  intros H. unfold Html.metaValue.
  change (js "{title}") with (123%N :: js "title}").
  change (js "{date}") with (123%N :: js "date}").
  change (js "{timestamp}") with (123%N :: js "timestamp}").
  change (js "{source}") with (123%N :: js "source}").
  change (js "{model}") with (123%N :: js "model}").
  change (js "{mode_name}") with (123%N :: js "mode_name}").
  change (js "{create_time}") with (123%N :: js "create_time}").
  change (js "{update_time}") with (123%N :: js "update_time}").
  by rewrite !(replaceString_absent _ _ _ value) by done.
Qed.

(** X23. A meta value without an opening brace holds no placeholder
    and is copied as it is: into the line [name: value] of the front
    matter (markdown.ts) and into the pair of name and value
    (html.ts). Entries without a name are left out, and the front
    matter is empty exactly when no entry has a name. *)
Theorem meta_values_without_placeholders_are_copied info (entries : list ExportMeta) :
  Forall (λ x, 123%N ∉ meta_value x) entries →
  Markdown.metaLines info (Some entries)
  = (λ x, meta_name x ++ js ": " ++ meta_value x)
      <$> filter (λ x, truthy (meta_name x) = true) entries
  ∧ Html.metaPairs info (Some entries)
    = (λ x, (meta_name x, meta_value x))
        <$> filter (λ x, truthy (meta_name x) = true) entries
  ∧ (Markdown.frontMatterOf info (Some entries) = []
     ↔ Forall (λ x, meta_name x = []) entries).
Proof.
  intros Hplain.
  assert (Hlines : Markdown.metaLines info (Some entries)
                   = (λ x, meta_name x ++ js ": " ++ meta_value x)
                       <$> filter (λ x, truthy (meta_name x) = true) entries).
  { unfold Markdown.metaLines. apply list_fmap_ext. intros i x Hx.
    rewrite md_metaValue_plain; [done|].
    apply list_elem_of_lookup_2, list_elem_of_filter in Hx as [_ Hx].
    rewrite Forall_forall in Hplain. by apply Hplain. }
  split; [done|]. split.
  - unfold Html.metaPairs. apply list_fmap_ext. intros i x Hx.
    rewrite html_metaValue_plain; [done|].
    apply list_elem_of_lookup_2, list_elem_of_filter in Hx as [_ Hx].
    rewrite Forall_forall in Hplain. by apply Hplain.
  - unfold Markdown.frontMatterOf. rewrite Hlines. clear Hlines Hplain.
    induction entries as [|x entries IH]; [done|].
    rewrite filter_cons. destruct (meta_name x) as [|c n] eqn:Hn; cbn [truthy].
    + rewrite decide_False by done. rewrite IH. split.
      * intros H. by constructor.
      * intros H. by apply Forall_cons in H as [_ H].
    + rewrite decide_True by done. cbn [fmap list_fmap]. split.
      * change (js "---") with [45; 45; 45]%N. intros H. cbn [app] in H. done.
      * intros H. apply Forall_cons in H as [H _]. congruence.
Qed.

Lemma meta_values_without_placeholders_are_copied_witness :
  Markdown.metaLines Sample.metaInfo
    (Some [{| meta_name := js "author"; meta_value := js "me" |};
           {| meta_name := []; meta_value := js "dropped" |}])
  = (λ x, meta_name x ++ js ": " ++ meta_value x)
      <$> filter (λ x, truthy (meta_name x) = true)
            [{| meta_name := js "author"; meta_value := js "me" |};
             {| meta_name := []; meta_value := js "dropped" |}]
  ∧ Html.metaPairs Sample.metaInfo
      (Some [{| meta_name := js "author"; meta_value := js "me" |};
             {| meta_name := []; meta_value := js "dropped" |}])
    = (λ x, (meta_name x, meta_value x))
        <$> filter (λ x, truthy (meta_name x) = true)
              [{| meta_name := js "author"; meta_value := js "me" |};
               {| meta_name := []; meta_value := js "dropped" |}]
  ∧ (Markdown.frontMatterOf Sample.metaInfo
       (Some [{| meta_name := js "author"; meta_value := js "me" |};
              {| meta_name := []; meta_value := js "dropped" |}]) = []
     ↔ Forall (λ x, meta_name x = [])
         [{| meta_name := js "author"; meta_value := js "me" |};
          {| meta_name := []; meta_value := js "dropped" |}]).
Proof.
  apply (meta_values_without_placeholders_are_copied Sample.metaInfo
           [{| meta_name := js "author"; meta_value := js "me" |};
            {| meta_name := []; meta_value := js "dropped" |}]).
  repeat constructor; by_computation.
Defined.

(** Side conditions on texts without an opening brace. *)
Ltac brace_free :=
  solve [ reflexivity
        | by_computation
        | repeat (apply not_elem_of_app; split); (done || by_computation) ].

Lemma plainInfo_fields info :
  plainInfo info →
  ∀ r, r ∈ [mi_title info; mi_date info; mi_timestamp info; mi_source info;
            mi_model info; mi_modelSlug info; mi_create_time info; mi_update_time info] →
       (123%N ∉ r) ∧ (36%N ∉ r).
Proof.
  intros (H1 & H2 & H3 & H4 & H5 & H6 & H7 & H8) r Hr.
  repeat (apply elem_of_cons in Hr as [->|Hr]; [done|]). by apply elem_of_nil in Hr.
Qed.

(** X24. [replace] with a string as pattern changes the first
    occurrence only: of two [{title}] in a meta value the first
    becomes the title and the second stays, in both renderers (the
    values substituted holding neither brace nor dollar, the text
    around no brace). *)
Theorem only_the_first_placeholder_is_replaced info (a b c : jsstring) :
  plainInfo info → 123%N ∉ a → 123%N ∉ b → 123%N ∉ c →
  Markdown.metaValue info (a ++ js "{title}" ++ b ++ js "{title}" ++ c)
  = a ++ mi_title info ++ b ++ js "{title}" ++ c
  ∧ Html.metaValue info (a ++ js "{title}" ++ b ++ js "{title}" ++ c)
    = a ++ mi_title info ++ b ++ js "{title}" ++ c.
Proof.
  intros Hinfo Ha Hb Hc.
  destruct (plainInfo_fields info Hinfo (mi_title info)) as [Ht Hd];
    [repeat constructor|].
  unfold Markdown.metaValue, Html.metaValue.
  change (js "{title}") with (123%N :: js "title}").
  rewrite !(replaceString_first 123 (js "title}") _ a) by done.
  replace (a ++ mi_title info ++ b ++ (123%N :: js "title}") ++ c)
    with ((a ++ mi_title info ++ b) ++ (123%N :: js "title}") ++ c)
    by (by rewrite <- !app_assoc).
  change (js "{date}") with (123%N :: js "date}").
  change (js "{timestamp}") with (123%N :: js "timestamp}").
  change (js "{source}") with (123%N :: js "source}").
  change (js "{model}") with (123%N :: js "model}").
  change (js "{model_name}") with (123%N :: js "model_name}").
  change (js "{mode_name}") with (123%N :: js "mode_name}").
  change (js "{create_time}") with (123%N :: js "create_time}").
  change (js "{update_time}") with (123%N :: js "update_time}").
  by rewrite !(replaceString_other 123 _ _ (js "title}") (a ++ mi_title info ++ b) c)
    by brace_free.
Qed.

Lemma only_the_first_placeholder_is_replaced_witness :
  Markdown.metaValue Sample.metaInfo
    (js "# " ++ js "{title}" ++ js " / " ++ js "{title}" ++ js ".")
  = js "# " ++ mi_title Sample.metaInfo ++ js " / " ++ js "{title}" ++ js "."
  ∧ Html.metaValue Sample.metaInfo
      (js "# " ++ js "{title}" ++ js " / " ++ js "{title}" ++ js ".")
    = js "# " ++ mi_title Sample.metaInfo ++ js " / " ++ js "{title}" ++ js ".".
Proof.
  apply (only_the_first_placeholder_is_replaced Sample.metaInfo (js "# ") (js " / ") (js ".")).
  - repeat split; by_computation.
  - by_computation.
  - by_computation.
  - by_computation.
Defined.

(** X25. The placeholder [{model_name}] is filled in with the model
    slug by markdown.ts and left as it is by html.ts, whose chain
    looks for [{mode_name}] instead; and [{mode_name}] is filled in by
    html.ts and left by markdown.ts. *)
Theorem model_name_is_filled_in_by_one_renderer info (a b : jsstring) :
  plainInfo info → 123%N ∉ a → 123%N ∉ b →
  Markdown.metaValue info (a ++ js "{model_name}" ++ b) = a ++ mi_modelSlug info ++ b
  ∧ Html.metaValue info (a ++ js "{model_name}" ++ b) = a ++ js "{model_name}" ++ b
  ∧ Html.metaValue info (a ++ js "{mode_name}" ++ b) = a ++ mi_modelSlug info ++ b
  ∧ Markdown.metaValue info (a ++ js "{mode_name}" ++ b) = a ++ js "{mode_name}" ++ b.
Proof.
  intros Hinfo Ha Hb.
  destruct (plainInfo_fields info Hinfo (mi_modelSlug info)) as [Ht Hd];
    [repeat constructor|].
  unfold Markdown.metaValue, Html.metaValue.
  change (js "{title}") with (123%N :: js "title}").
  change (js "{date}") with (123%N :: js "date}").
  change (js "{timestamp}") with (123%N :: js "timestamp}").
  change (js "{source}") with (123%N :: js "source}").
  change (js "{model}") with (123%N :: js "model}").
  change (js "{model_name}") with (123%N :: js "model_name}").
  change (js "{mode_name}") with (123%N :: js "mode_name}").
  change (js "{create_time}") with (123%N :: js "create_time}").
  change (js "{update_time}") with (123%N :: js "update_time}").
  repeat split.
  - rewrite !(replaceString_other 123 _ _ (js "model_name}") a b) by brace_free.
    rewrite (replaceString_first 123 (js "model_name}") _ a b) by done.
    by rewrite !(replaceString_absent 123 _ _ (a ++ mi_modelSlug info ++ b)) by brace_free.
  - by rewrite !(replaceString_other 123 _ _ (js "model_name}") a b) by brace_free.
  - rewrite !(replaceString_other 123 _ _ (js "mode_name}") a b) by brace_free.
    rewrite (replaceString_first 123 (js "mode_name}") _ a b) by done.
    by rewrite !(replaceString_absent 123 _ _ (a ++ mi_modelSlug info ++ b)) by brace_free.
  - by rewrite !(replaceString_other 123 _ _ (js "mode_name}") a b) by brace_free.
Qed.

Lemma model_name_is_filled_in_by_one_renderer_witness :
  Markdown.metaValue Sample.metaInfo (js "by " ++ js "{model_name}" ++ js ".")
  = js "by " ++ mi_modelSlug Sample.metaInfo ++ js "."
  ∧ Html.metaValue Sample.metaInfo (js "by " ++ js "{model_name}" ++ js ".")
    = js "by " ++ js "{model_name}" ++ js "."
  ∧ Html.metaValue Sample.metaInfo (js "by " ++ js "{mode_name}" ++ js ".")
    = js "by " ++ mi_modelSlug Sample.metaInfo ++ js "."
  ∧ Markdown.metaValue Sample.metaInfo (js "by " ++ js "{mode_name}" ++ js ".")
    = js "by " ++ js "{mode_name}" ++ js ".".
Proof.
  apply (model_name_is_filled_in_by_one_renderer Sample.metaInfo (js "by ") (js ".")).
  - repeat split; by_computation.
  - by_computation.
  - by_computation.
Defined.

(* --------------------------------------------------------------------- *)
(** ** Image placeholders *)
(* --------------------------------------------------------------------- *)

Lemma startsWith_app_true (p q s : jsstring) :
  startsWith (p ++ q) s = true → startsWith p s = true.
Proof.
  revert s. induction p as [|c p IH]; intros s; [done|].
  destruct s as [|d s]; [done|]. cbn. intros [H1 H2]%andb_prop.
  by rewrite H1, (IH s).
Qed.

(** A text in which a pattern does not occur holds no longer pattern
    either. *)
Lemma splitAt_longer (p q s : jsstring) :
  splitAt p s = None → splitAt (p ++ q) s = None.
Proof.
  induction s as [|d s IH].
  - destruct p as [|c p]; [done|]. done.
  - rewrite !splitAt_cons.
    destruct (startsWith p (d :: s)) eqn:E; [done|].
    destruct (startsWith (p ++ q) (d :: s)) eqn:E'.
    { apply startsWith_app_true in E'. congruence. }
    destruct (splitAt p s) as [[? ?]|]; [done|]. intros _. by rewrite IH.
Qed.

Lemma splitAt_after c p (a s : jsstring) :
  c ∉ a → splitAt (c :: p) s = None → splitAt (c :: p) (a ++ s) = None.
Proof.
  intros Ha Hs. induction a as [|d a IH]; [done|].
  change ((d :: a) ++ s) with (d :: (a ++ s)).
  rewrite splitAt_cons, startsWith_head by (intros ->; apply Ha; left).
  rewrite IH; [done|]. intros H. apply Ha. by right.
Qed.

Lemma splitAt_tail p d (s : jsstring) :
  splitAt p (d :: s) = None → splitAt p s = None.
Proof.
  rewrite splitAt_cons. destruct (startsWith p (d :: s)); [done|].
  by destruct (splitAt p s) as [[? ?]|].
Qed.

Lemma splitAt_suffix p (r s : jsstring) :
  splitAt p (r ++ s) = None → splitAt p s = None.
Proof.
  induction r as [|d r IH]; [done|]. intros H. apply IH.
  by apply splitAt_tail in H.
Qed.

(** Two numerals of which one, closed by a bracket, starts the other
    closed by a bracket, are the same. *)
Lemma digits_bracket (x y b : jsstring) :
  Forall (λ c, is_digit c = true) x → Forall (λ c, is_digit c = true) y →
  startsWith (x ++ [93%N]) (y ++ [93%N] ++ b) = true → x = y.
Proof.
  intros Hx. revert y. induction Hx as [|c x Hc _ IH]; intros y Hy.
  - destruct Hy as [|d y Hd _]; [done|].
    cbn [app startsWith]. intros [H1 _]%andb_prop.
    apply N.eqb_eq in H1 as <-. by vm_compute in Hd.
  - destruct Hy as [|d y Hd Hy]; cbn [app startsWith].
    + intros [H1 _]%andb_prop. apply N.eqb_eq in H1 as ->. by vm_compute in Hc.
    + intros [H1 H2]%andb_prop. apply N.eqb_eq in H1 as ->. f_equal. by apply IH.
Qed.

Lemma placeholder_starts j k (b : jsstring) :
  j ≠ k → startsWith (placeholderOf j) (placeholderOf k ++ b) = false.
Proof.
  intros Hjk. destruct (startsWith _ _) eqn:E; [|done]. exfalso. apply Hjk.
  unfold placeholderOf in E. rewrite <- !app_assoc in E.
  change (js "[IMAGE_") with [91; 73; 77; 65; 71; 69; 95]%N in E.
  change (js "]") with [93%N] in E. cbn [app startsWith] in E.
  rewrite !N.eqb_refl in E. cbn [andb] in E.
  apply toString_inj, (digits_bracket _ _ b); [apply uint_digits_digit..|done].
Qed.

Lemma placeholderOf_cons index :
  placeholderOf index = 91%N :: (js "IMAGE_" ++ toString index ++ js "]").
Proof. done. Qed.

Lemma bracket_not_in_placeholder index :
  91%N ∉ js "IMAGE_" ++ toString index ++ js "]".
Proof.
  intros [H|[H|H]%elem_of_app]%elem_of_app.
  - revert H. by_computation.
  - pose proof (toString_digit index) as Hd. rewrite Forall_forall in Hd.
    by specialize (Hd _ H).
  - revert H. by_computation.
Qed.

Lemma placeholder_absent index (s : jsstring) :
  placeholderFree s → splitAt (placeholderOf index) s = None.
Proof.
  intros H. unfold placeholderOf. by apply splitAt_longer.
Qed.

Lemma replaceFrom_free stringify strategy format images : ∀ index (s : jsstring),
  placeholderFree s → replaceFrom stringify strategy format images index s = s.
Proof.
  induction images as [|image images IH]; intros index s Hs; [done|].
  cbn [replaceFrom]. unfold replaceString. rewrite placeholder_absent by done.
  by apply IH.
Qed.

(** X26. [replaceImagePlaceholders] returns a content in which the
    text [[IMAGE_] does not occur as it is, for every list of images,
    strategy and format. *)
Theorem text_without_placeholder_is_kept
    stringify strategy (content : jsstring) images format :
  placeholderFree content →
  replaceImagePlaceholders stringify strategy content images format = content.
Proof. intros H. unfold replaceImagePlaceholders. by apply replaceFrom_free. Qed.

Lemma splitAt_elsewhere c p w (a b : jsstring) :
  c ∉ a → c ∉ w → splitAt (c :: p) b = None →
  startsWith (c :: p) (c :: w ++ b) = false →
  splitAt (c :: p) (a ++ (c :: w) ++ b) = None.
Proof.
  intros Ha Hw Hb Hstart. apply splitAt_after; [done|].
  change ((c :: w) ++ b) with (c :: (w ++ b)). rewrite splitAt_cons, Hstart.
  by rewrite splitAt_after.
Qed.

Lemma replaceFrom_at stringify strategy format images : ∀ index k p (a b : jsstring),
  images !! k = Some p →
  91%N ∉ a →
  36%N ∉ replacementFor stringify strategy format p →
  placeholderFree (replacementFor stringify strategy format p ++ b) →
  replaceFrom stringify strategy format images index (a ++ placeholderOf (index + k) ++ b)
  = a ++ replacementFor stringify strategy format p ++ b.
Proof.
  induction images as [|image images IH]; intros index k p a b Hk Ha Hd Hfree; [done|].
  cbn [replaceFrom]. destruct k as [|k].
  - injection Hk as ->. rewrite Nat.add_0_r, placeholderOf_cons.
    rewrite replaceString_first by done.
    apply replaceFrom_free. unfold placeholderFree.
    change (js "[IMAGE_") with (91%N :: js "IMAGE_"). by apply splitAt_after.
  - cbn [lookup list_lookup] in Hk.
    assert (Hb : placeholderFree b) by (by eapply splitAt_suffix).
    assert (Hskip : replaceString (placeholderOf index)
                      (replacementFor stringify strategy format image)
                      (a ++ placeholderOf (index + S k) ++ b)
                    = a ++ placeholderOf (index + S k) ++ b).
    { unfold replaceString.
      rewrite (placeholderOf_cons index), (placeholderOf_cons (index + S k)).
      rewrite splitAt_elsewhere; [done|done|apply bracket_not_in_placeholder| |].
      - rewrite <- placeholderOf_cons. by apply placeholder_absent.
      - rewrite <- placeholderOf_cons.
        change (91%N :: (js "IMAGE_" ++ toString (index + S k) ++ js "]") ++ b)
          with (placeholderOf (index + S k) ++ b).
        apply placeholder_starts. lia. }
    rewrite Hskip. replace (index + S k) with (S index + k) by lia. by apply IH.
Qed.

(** X27. [replaceImagePlaceholders] puts the replacement built from
    the k-th processed image in the place of the placeholder
    [[IMAGE_k]] and changes nothing else, for a content with this one
    placeholder: no opening bracket before it, no dollar form in the
    replacement, and no [[IMAGE_] in the replacement followed by the
    rest of the content. *)
Theorem placeholder_is_replaced_by_its_image
    stringify strategy format images k p (a b : jsstring) :
  images !! k = Some p →
  91%N ∉ a →
  36%N ∉ replacementFor stringify strategy format p →
  placeholderFree (replacementFor stringify strategy format p ++ b) →
  replaceImagePlaceholders stringify strategy (a ++ placeholderOf k ++ b) images format
  = a ++ replacementFor stringify strategy format p ++ b.
Proof.
  intros Hk Ha Hd Hfree. unfold replaceImagePlaceholders.
  by apply (replaceFrom_at stringify strategy format images 0 k p a b).
Qed.

Lemma placeholder_is_replaced_by_its_image_witness :
  replaceImagePlaceholders (λ _, []) embed_base64
    (js "see " ++ placeholderOf 1 ++ js ".") [Sample.pa; Sample.pb] markdown
  = js "see " ++ replacementFor (λ _, []) embed_base64 markdown Sample.pb ++ js ".".
Proof.
  apply (placeholder_is_replaced_by_its_image (λ _, []) embed_base64 markdown
           [Sample.pa; Sample.pb] 1 Sample.pb (js "see ") (js ".")).
  - reflexivity.
  - by_computation.
  - by_computation.
  - vm_compute. reflexivity.
Defined.

Lemma text_without_placeholder_is_kept_witness :
  replaceImagePlaceholders (λ _, []) text_marker (js "[Image Omitted] here")
    [Sample.pa; Sample.pb] html
  = js "[Image Omitted] here".
Proof.
  apply (text_without_placeholder_is_kept (λ _, []) text_marker (js "[Image Omitted] here")
           [Sample.pa; Sample.pb] html).
  vm_compute. reflexivity.
Defined.
